(** * The Entity-Component Manager of ign-gazebo, and its specification

    A shallow embedding of [src/EntityComponentManager.cc].  The private
    class [EntityComponentManagerPrivate] becomes the record [ECM]; every
    member function becomes a function on that record.  Unordered sets and
    maps are stdpp's [gset] and [gmap]; loops over them are folds over
    [elements] and [map_to_list].  A result of type [option] is [None]
    exactly where the C++ execution has no defined result (a null pointer
    is dereferenced, two iterators of different containers are compared,
    a recursion does not end). *)

From stdpp Require Import gmap strings list fin_maps fin_sets sorting.
From Stdlib Require Import NArith ZArith Lia.

Open Scope N_scope.

#[local] Set Warnings "-clear-no-such-hyp".

(** ** Identifiers *)

(** [Entity] and [ComponentTypeId] are [uint64_t]. *)
Abbreviation Entity := N.
Abbreviation ComponentTypeId := N.

Definition kNullEntity : Entity := 0.
Definition UINT64_MAX : N := 18446744073709551615.
Definition UINT64_MOD : N := 18446744073709551616.

(** [math::graph::kNullId] is the largest 64-bit value. *)
Definition kNullId : N := UINT64_MAX.

(** ** The entity graph *)

(** Modelled from the spec: the directed graph of the graph library
    (section 4.2 and the graph library contract of section 6), which is
    not part of this repository.  Vertices are kept by id; the edges are
    kept in the order of their ids, which is the order of creation. *)
Module graph.

Record DirectedGraph := {
  vertices : gset N;
  edges : list (N * N);      (* (tail, head): parent -> child *)
  nextVertexId : N;
}.

Definition empty : DirectedGraph :=
  {| vertices := ∅; edges := []; nextVertexId := 0 |}.

Definition Vertices (g : DirectedGraph) : list N :=
  merge_sort N.le (elements (vertices g)).

(** The id of the vertex found, [kNullId] for the null vertex. *)
Definition VertexFromId (g : DirectedGraph) (id : N) : N :=
  if bool_decide (id ∈ vertices g) then id else kNullId.

Fixpoint NextVertexId_loop (fuel : nat) (vs : gset N) (next : N) : N :=
  match fuel with
  | O => next
  | S fuel' =>
      if bool_decide (next ∈ vs) && (next <? UINT64_MAX)
      then NextVertexId_loop fuel' vs (next + 1)
      else next
  end.

Definition NextVertexId (g : DirectedGraph) : N :=
  NextVertexId_loop (S (size (vertices g))) (vertices g) (nextVertexId g).

(** [AddVertex name data id]: the graph, and the id of the vertex returned
    (the null id when the vertex is refused). *)
Definition AddVertex (g : DirectedGraph) (id : N) : DirectedGraph * N :=
  let '(g1, id1) :=
    if id =? kNullId
    then let n := NextVertexId g in
         ({| vertices := vertices g; edges := edges g; nextVertexId := n |}, n)
    else (g, id) in
  if id1 =? kNullId then (g1, kNullId)
  else if bool_decide (id1 ∈ vertices g1) then (g1, kNullId)
  else ({| vertices := {[id1]} ∪ vertices g1; edges := edges g1;
           nextVertexId := nextVertexId g1 |}, id1).

(** Insertion of a key in the ordered key sequence of a [std::map]. *)
Fixpoint map_emplace (k : N) (l : list N) : list N :=
  match l with
  | [] => [k]
  | x :: l' =>
      if k <? x then k :: l
      else if k =? x then l
      else x :: map_emplace k l'
  end.

(** Parents of [v]: the tails of the edges whose head is [v]. *)
Definition AdjacentsTo (g : DirectedGraph) (v : N) : list N :=
  foldl (λ acc e, if e.2 =? v then map_emplace e.1 acc else acc) [] (edges g).

(** Children of [v]: the heads of the edges whose tail is [v]. *)
Definition AdjacentsFrom (g : DirectedGraph) (v : N) : list N :=
  foldl (λ acc e, if e.1 =? v then map_emplace e.2 acc else acc) [] (edges g).

(** [EdgeFromVertices]: the first edge from [src] to [dst], if any. *)
Definition EdgeFromVertices (g : DirectedGraph) (src dst : N) : option (N * N) :=
  if bool_decide ((src, dst) ∈ edges g) then Some (src, dst) else None.

Fixpoint remove_first (e : N * N) (l : list (N * N)) : list (N * N) :=
  match l with
  | [] => []
  | x :: l' => if bool_decide (x = e) then l' else x :: remove_first e l'
  end.

(** [RemoveEdge] on the result of [EdgeFromVertices]; the null edge is
    not in the graph and nothing is removed. *)
Definition RemoveEdge (g : DirectedGraph) (e : option (N * N)) : DirectedGraph :=
  match e with
  | None => g
  | Some e => {| vertices := vertices g; edges := remove_first e (edges g);
                 nextVertexId := nextVertexId g |}
  end.

(** [AddEdge]: refused (null edge, [false]) unless both ends are vertices. *)
Definition AddEdge (g : DirectedGraph) (tail head : N) : DirectedGraph * bool :=
  if bool_decide (tail ∈ vertices g) && bool_decide (head ∈ vertices g)
  then ({| vertices := vertices g; edges := edges g ++ [(tail, head)];
           nextVertexId := nextVertexId g |}, true)
  else (g, false).

(** [RemoveVertex] also removes the incident edges. *)
Definition RemoveVertex (g : DirectedGraph) (id : N) : DirectedGraph :=
  if bool_decide (id ∈ vertices g)
  then {| vertices := vertices g ∖ {[id]};
          edges := filter (λ e, e.1 ≠ id ∧ e.2 ≠ id) (edges g);
          nextVertexId := nextVertexId g |}
  else g.

(** [BreadthFirstSort]: the loop over the pending list.  Every vertex is
    expanded once, so the loop body runs at most once per edge, plus
    once for the root. *)
Fixpoint BreadthFirstSort_loop (fuel : nat) (g : DirectedGraph)
    (visited pending : list N) : list N :=
  match fuel with
  | O => visited
  | S fuel' =>
      match pending with
      | [] => visited
      | v :: rest =>
          if bool_decide (v ∈ visited)
          then BreadthFirstSort_loop fuel' g visited rest
          else BreadthFirstSort_loop fuel' g (visited ++ [v])
                 (rest ++ AdjacentsFrom g v)
      end
  end.

Definition BreadthFirstSort (g : DirectedGraph) (from : N) : list N :=
  BreadthFirstSort_loop (S (S (length (edges g)))) g [] [from].

End graph.

Abbreviation EntityGraph := graph.DirectedGraph.

(** ** Components and their factory

    Component payloads and the factory are collaborators of the manager:
    [components::BaseComponent] is an abstract class, [components::Factory]
    a registry.  They are interfaces here. *)
Class BaseComponent (P : Type) := {
  TypeId : P → ComponentTypeId;
  (** [Serialize] to a stream: the bytes written. *)
  Serialize : P → string;
  (** [Deserialize] from a stream, in place: the component afterwards. *)
  Deserialize : P → string → P;
}.

Class Factory (P : Type) := {
  HasType : ComponentTypeId → bool;
  (** [New(type)]: a default component, or null. *)
  New : ComponentTypeId → option P;
  (** [New(type, data)]: a component made from [data]. *)
  NewFrom : ComponentTypeId → P → P;
}.

(** The contract between the components and the factory that a round
    trip rests on: a component made by the factory for a type has that
    type whatever is read into it; reading what a component wrote gives
    that component back; the factory makes a component for every type it
    has; and a component made from data is a copy of the data. *)
Class ComponentLaws (P : Type) `{!BaseComponent P} `{!Factory P} : Prop := {
  Deserialize_TypeId t c d : New t = Some c → TypeId (Deserialize c d) = t;
  Deserialize_Serialize t c p :
    New t = Some c → TypeId p = t → Deserialize c (Serialize p) = p;
  New_HasType t : HasType t = true → is_Some (New t);
  NewFrom_copy t p : TypeId p = t → NewFrom t p = p;
}.

(** ** Component storage *)

(** Modelled from the spec: the four outcomes of
    [EntityComponentStorage::AddComponent] (section 4.1). *)
Inductive ComponentAdditionResult :=
  | FAILED_ADDITION
  | NEW_ADDITION
  | RE_ADDITION
  | MODIFICATION.

Abbreviation EntityComponentStorage P :=
  (gmap Entity (gmap ComponentTypeId (option P))).

(** Modelled from the spec: the class [EntityComponentStorage] (section
    4.1), whose source file is not at hand.  A slot holds a component, or
    is empty after a removal. *)
Module storage.
Section storage.
Context {P : Type} `{!BaseComponent P}.

(** Modelled from the spec: [AddEntity] is true on the first
    registration of the entity and false when it is already there. *)
Definition AddEntity (st : EntityComponentStorage P) (e : Entity)
    : EntityComponentStorage P * bool :=
  match st !! e with
  | Some _ => (st, false)
  | None => (<[e := ∅]> st, true)
  end.

(** Modelled from the spec: [RemoveEntity] drops all components of the
    entity. *)
Definition RemoveEntity (st : EntityComponentStorage P) (e : Entity)
    : EntityComponentStorage P :=
  delete e st.

(** Modelled from the spec: [AddComponent] refuses an unknown entity;
    the component is new when its type was never on the entity, added
    again when its slot was emptied by a removal, and otherwise replaces
    the one that is there. *)
Definition AddComponent (st : EntityComponentStorage P) (e : Entity) (c : P)
    : EntityComponentStorage P * ComponentAdditionResult :=
  match st !! e with
  | None => (st, FAILED_ADDITION)
  | Some slots =>
      let st' := <[e := <[TypeId c := Some c]> slots]> st in
      match slots !! TypeId c with
      | None => (st', NEW_ADDITION)
      | Some None => (st', RE_ADDITION)
      | Some (Some _) => (st', MODIFICATION)
      end
  end.

(** Modelled from the spec: [ValidComponent] is the component at
    [(e, t)], or null. *)
Definition ValidComponent (st : EntityComponentStorage P) (e : Entity)
    (t : ComponentTypeId) : option P :=
  match st !! e with
  | None => None
  | Some slots => match slots !! t with Some (Some c) => Some c | _ => None end
  end.

(** Modelled from the spec: [RemoveComponent] gives the component
    removed if there was one. *)
Definition RemoveComponent (st : EntityComponentStorage P) (e : Entity)
    (t : ComponentTypeId) : EntityComponentStorage P * option P :=
  match st !! e with
  | None => (st, None)
  | Some slots =>
      match slots !! t with
      | Some (Some c) => (<[e := <[t := None]> slots]> st, Some c)
      | _ => (st, None)
      end
  end.

End storage.
End storage.

(** ** Views

    [detail::BaseView] is an abstract class; the manager only calls these
    member functions on the views it holds. *)
Class BaseView (V : Type) := {
  Reset : V → V;
  ComponentTypes : V → gset ComponentTypeId;
  MarkEntityToAdd : V → Entity → bool → V;
  MarkEntityToRemove : V → Entity → V;
  RemoveEntity : V → Entity → V;
  NotifyComponentAddition : V → Entity → bool → ComponentTypeId → V;
  NotifyComponentRemoval : V → Entity → ComponentTypeId → V;
  ResetNewEntityState : V → V;
}.

(** ** What the header declares

    The header of the class is not at hand: the default arguments it
    gives to [RequestRemoveEntity], [AddEntityToMessage] and [State] are
    parameters, and so is [std::thread::hardware_concurrency]. *)
Class Declarations := {
  recursive_default : bool;
  full_default : bool;
  hardware_concurrency : Z;
}.

(** ** Messages *)
Module msgs.

Record SerializedComponent := {
  type : ComponentTypeId;
  component : string;
  remove : bool;
}.

Record SerializedEntity := {
  id : Entity;
  entity_remove : bool;
  components : list SerializedComponent;
}.

(** [SerializedState]: the repeated field [entities]. *)
Abbreviation SerializedState := (list SerializedEntity).

(** The components of a [SerializedEntityMap] are keyed by the type id
    cast to [int64_t]; the cast is one-to-one on 64-bit values and the
    key is kept as the type id. *)
Record SerializedEntityMap := {
  map_id : Entity;
  map_remove : bool;
  map_components : gmap ComponentTypeId SerializedComponent;
}.

Record SerializedStateMap := {
  entities : gmap Entity SerializedEntityMap;
  has_one_time_component_changes : bool;
}.

Definition empty_component : SerializedComponent :=
  {| type := 0; component := EmptyString; remove := false |}.

Definition set_component (c : SerializedComponent) (d : string) :=
  {| type := type c; component := d; remove := remove c |}.
Definition set_type (c : SerializedComponent) (t : ComponentTypeId) :=
  {| type := t; component := component c; remove := remove c |}.
Definition set_remove (c : SerializedComponent) (r : bool) :=
  {| type := type c; component := component c; remove := r |}.

Definition with_entities (m : gmap Entity SerializedEntityMap)
    (s : SerializedStateMap) : SerializedStateMap :=
  {| entities := m;
     has_one_time_component_changes := has_one_time_component_changes s |}.

Definition empty_state_map : SerializedStateMap :=
  {| entities := ∅; has_one_time_component_changes := false |}.

End msgs.

(** ** Change states *)
Inductive ComponentState := NoChange | PeriodicChange | OneTimeChange.

(** ** Console output ([ignwarn], [ignerr], [igndbg]) *)
Inductive LogEntry :=
  | WarnMaxEntities (e : Entity)
  | WarnEntityInStorage (e : Entity)
  | ErrNoSuchEntity (t : ComponentTypeId) (e : Entity)
  | ErrTypeNotRegistered (t : ComponentTypeId) (e : Entity)
  | ErrCreateFailed (t : ComponentTypeId) (e : Entity)
  | WarnTypeNotRegistered (t : ComponentTypeId)
  | ErrDeserialize (t : ComponentTypeId)
  | ErrInternal
  | WarnOffset (offset count : N)
  | DbgThreadIterators (numThreads : Z) (componentsPerThread : Z).

(** A loop whose body may have no defined result. *)
Fixpoint foldlM {A B : Type} (f : A → B → option A) (a : A) (l : list B)
    : option A :=
  match l with
  | [] => Some a
  | x :: l' => a' ← f a x; foldlM f a' l'
  end.

Section ECM.
Context {P V : Type}.
Context `{!BaseComponent P} `{!Factory P} `{!BaseView V} `{!Declarations}.

(** ** The state: [EntityComponentManagerPrivate]

    The mutexes guard single-threaded steps here and have no field.
    [entityComponentIterators] holds positions in the sequence of
    [entityComponents].  [console] is the output so far;
    [printedComps] and [printedCompsMap] are the function-local static
    sets of the two [SetState] functions. *)
#[local] Set Primitive Projections.
Record ECM := {
  entityCompStorage : EntityComponentStorage P;
  createdCompTypes : gset ComponentTypeId;
  entities : EntityGraph;
  periodicChangedComponents : gmap ComponentTypeId (gset Entity);
  oneTimeChangedComponents : gmap ComponentTypeId (gset Entity);
  newlyCreatedEntities : gset Entity;
  toRemoveEntities : gset Entity;
  modifiedComponents : gset Entity;
  removeAllEntities : bool;
  entityComponentsDirty : bool;
  entityComponents : gmap Entity (gset ComponentTypeId);
  entityComponentIterators : list nat;
  views : gmap (list ComponentTypeId) V;
  descendantCache : gmap Entity (gset Entity);
  entityCount : N;
  removedComponents : gmap Entity (gset ComponentTypeId);
  console : list LogEntry;
  printedComps : gset N;
  printedCompsMap : gset N;
}.
#[local] Unset Primitive Projections.

Definition with_entityCompStorage (x : EntityComponentStorage P)
    (s : ECM) : ECM :=
  Build_ECM x (createdCompTypes s) (entities s)
    (periodicChangedComponents s) (oneTimeChangedComponents s)
    (newlyCreatedEntities s) (toRemoveEntities s) (modifiedComponents s)
    (removeAllEntities s) (entityComponentsDirty s) (entityComponents s)
    (entityComponentIterators s) (views s) (descendantCache s)
    (entityCount s) (removedComponents s) (console s) (printedComps s)
    (printedCompsMap s).

Definition with_createdCompTypes (x : gset ComponentTypeId) (s : ECM) : ECM :=
  Build_ECM (entityCompStorage s) x (entities s)
    (periodicChangedComponents s) (oneTimeChangedComponents s)
    (newlyCreatedEntities s) (toRemoveEntities s) (modifiedComponents s)
    (removeAllEntities s) (entityComponentsDirty s) (entityComponents s)
    (entityComponentIterators s) (views s) (descendantCache s)
    (entityCount s) (removedComponents s) (console s) (printedComps s)
    (printedCompsMap s).

Definition with_entities (x : EntityGraph) (s : ECM) : ECM :=
  Build_ECM (entityCompStorage s) (createdCompTypes s) x
    (periodicChangedComponents s) (oneTimeChangedComponents s)
    (newlyCreatedEntities s) (toRemoveEntities s) (modifiedComponents s)
    (removeAllEntities s) (entityComponentsDirty s) (entityComponents s)
    (entityComponentIterators s) (views s) (descendantCache s)
    (entityCount s) (removedComponents s) (console s) (printedComps s)
    (printedCompsMap s).

Definition with_periodicChangedComponents (x : gmap ComponentTypeId (gset Entity))
    (s : ECM) : ECM :=
  Build_ECM (entityCompStorage s) (createdCompTypes s) (entities s) x
    (oneTimeChangedComponents s) (newlyCreatedEntities s)
    (toRemoveEntities s) (modifiedComponents s) (removeAllEntities s)
    (entityComponentsDirty s) (entityComponents s)
    (entityComponentIterators s) (views s) (descendantCache s)
    (entityCount s) (removedComponents s) (console s) (printedComps s)
    (printedCompsMap s).

Definition with_oneTimeChangedComponents (x : gmap ComponentTypeId (gset Entity))
    (s : ECM) : ECM :=
  Build_ECM (entityCompStorage s) (createdCompTypes s) (entities s)
    (periodicChangedComponents s) x (newlyCreatedEntities s)
    (toRemoveEntities s) (modifiedComponents s) (removeAllEntities s)
    (entityComponentsDirty s) (entityComponents s)
    (entityComponentIterators s) (views s) (descendantCache s)
    (entityCount s) (removedComponents s) (console s) (printedComps s)
    (printedCompsMap s).

Definition with_newlyCreatedEntities (x : gset Entity) (s : ECM) : ECM :=
  Build_ECM (entityCompStorage s) (createdCompTypes s) (entities s)
    (periodicChangedComponents s) (oneTimeChangedComponents s) x
    (toRemoveEntities s) (modifiedComponents s) (removeAllEntities s)
    (entityComponentsDirty s) (entityComponents s)
    (entityComponentIterators s) (views s) (descendantCache s)
    (entityCount s) (removedComponents s) (console s) (printedComps s)
    (printedCompsMap s).

Definition with_toRemoveEntities (x : gset Entity) (s : ECM) : ECM :=
  Build_ECM (entityCompStorage s) (createdCompTypes s) (entities s)
    (periodicChangedComponents s) (oneTimeChangedComponents s)
    (newlyCreatedEntities s) x (modifiedComponents s) (removeAllEntities s)
    (entityComponentsDirty s) (entityComponents s)
    (entityComponentIterators s) (views s) (descendantCache s)
    (entityCount s) (removedComponents s) (console s) (printedComps s)
    (printedCompsMap s).

Definition with_modifiedComponents (x : gset Entity) (s : ECM) : ECM :=
  Build_ECM (entityCompStorage s) (createdCompTypes s) (entities s)
    (periodicChangedComponents s) (oneTimeChangedComponents s)
    (newlyCreatedEntities s) (toRemoveEntities s) x (removeAllEntities s)
    (entityComponentsDirty s) (entityComponents s)
    (entityComponentIterators s) (views s) (descendantCache s)
    (entityCount s) (removedComponents s) (console s) (printedComps s)
    (printedCompsMap s).

Definition with_removeAllEntities (x : bool) (s : ECM) : ECM :=
  Build_ECM (entityCompStorage s) (createdCompTypes s) (entities s)
    (periodicChangedComponents s) (oneTimeChangedComponents s)
    (newlyCreatedEntities s) (toRemoveEntities s) (modifiedComponents s) x
    (entityComponentsDirty s) (entityComponents s)
    (entityComponentIterators s) (views s) (descendantCache s)
    (entityCount s) (removedComponents s) (console s) (printedComps s)
    (printedCompsMap s).

Definition with_entityComponentsDirty (x : bool) (s : ECM) : ECM :=
  Build_ECM (entityCompStorage s) (createdCompTypes s) (entities s)
    (periodicChangedComponents s) (oneTimeChangedComponents s)
    (newlyCreatedEntities s) (toRemoveEntities s) (modifiedComponents s)
    (removeAllEntities s) x (entityComponents s)
    (entityComponentIterators s) (views s) (descendantCache s)
    (entityCount s) (removedComponents s) (console s) (printedComps s)
    (printedCompsMap s).

Definition with_entityComponents (x : gmap Entity (gset ComponentTypeId))
    (s : ECM) : ECM :=
  Build_ECM (entityCompStorage s) (createdCompTypes s) (entities s)
    (periodicChangedComponents s) (oneTimeChangedComponents s)
    (newlyCreatedEntities s) (toRemoveEntities s) (modifiedComponents s)
    (removeAllEntities s) (entityComponentsDirty s) x
    (entityComponentIterators s) (views s) (descendantCache s)
    (entityCount s) (removedComponents s) (console s) (printedComps s)
    (printedCompsMap s).

Definition with_entityComponentIterators (x : list nat) (s : ECM) : ECM :=
  Build_ECM (entityCompStorage s) (createdCompTypes s) (entities s)
    (periodicChangedComponents s) (oneTimeChangedComponents s)
    (newlyCreatedEntities s) (toRemoveEntities s) (modifiedComponents s)
    (removeAllEntities s) (entityComponentsDirty s) (entityComponents s) x
    (views s) (descendantCache s) (entityCount s) (removedComponents s)
    (console s) (printedComps s) (printedCompsMap s).

Definition with_views (x : gmap (list ComponentTypeId) V) (s : ECM) : ECM :=
  Build_ECM (entityCompStorage s) (createdCompTypes s) (entities s)
    (periodicChangedComponents s) (oneTimeChangedComponents s)
    (newlyCreatedEntities s) (toRemoveEntities s) (modifiedComponents s)
    (removeAllEntities s) (entityComponentsDirty s) (entityComponents s)
    (entityComponentIterators s) x (descendantCache s) (entityCount s)
    (removedComponents s) (console s) (printedComps s) (printedCompsMap s).

Definition with_descendantCache (x : gmap Entity (gset Entity))
    (s : ECM) : ECM :=
  Build_ECM (entityCompStorage s) (createdCompTypes s) (entities s)
    (periodicChangedComponents s) (oneTimeChangedComponents s)
    (newlyCreatedEntities s) (toRemoveEntities s) (modifiedComponents s)
    (removeAllEntities s) (entityComponentsDirty s) (entityComponents s)
    (entityComponentIterators s) (views s) x (entityCount s)
    (removedComponents s) (console s) (printedComps s) (printedCompsMap s).

Definition with_entityCount (x : N) (s : ECM) : ECM :=
  Build_ECM (entityCompStorage s) (createdCompTypes s) (entities s)
    (periodicChangedComponents s) (oneTimeChangedComponents s)
    (newlyCreatedEntities s) (toRemoveEntities s) (modifiedComponents s)
    (removeAllEntities s) (entityComponentsDirty s) (entityComponents s)
    (entityComponentIterators s) (views s) (descendantCache s) x
    (removedComponents s) (console s) (printedComps s) (printedCompsMap s).

Definition with_removedComponents (x : gmap Entity (gset ComponentTypeId))
    (s : ECM) : ECM :=
  Build_ECM (entityCompStorage s) (createdCompTypes s) (entities s)
    (periodicChangedComponents s) (oneTimeChangedComponents s)
    (newlyCreatedEntities s) (toRemoveEntities s) (modifiedComponents s)
    (removeAllEntities s) (entityComponentsDirty s) (entityComponents s)
    (entityComponentIterators s) (views s) (descendantCache s)
    (entityCount s) x (console s) (printedComps s) (printedCompsMap s).

Definition with_console (x : list LogEntry) (s : ECM) : ECM :=
  Build_ECM (entityCompStorage s) (createdCompTypes s) (entities s)
    (periodicChangedComponents s) (oneTimeChangedComponents s)
    (newlyCreatedEntities s) (toRemoveEntities s) (modifiedComponents s)
    (removeAllEntities s) (entityComponentsDirty s) (entityComponents s)
    (entityComponentIterators s) (views s) (descendantCache s)
    (entityCount s) (removedComponents s) x (printedComps s)
    (printedCompsMap s).

Definition with_printedComps (x : gset N) (s : ECM) : ECM :=
  Build_ECM (entityCompStorage s) (createdCompTypes s) (entities s)
    (periodicChangedComponents s) (oneTimeChangedComponents s)
    (newlyCreatedEntities s) (toRemoveEntities s) (modifiedComponents s)
    (removeAllEntities s) (entityComponentsDirty s) (entityComponents s)
    (entityComponentIterators s) (views s) (descendantCache s)
    (entityCount s) (removedComponents s) (console s) x (printedCompsMap s).

Definition with_printedCompsMap (x : gset N) (s : ECM) : ECM :=
  Build_ECM (entityCompStorage s) (createdCompTypes s) (entities s)
    (periodicChangedComponents s) (oneTimeChangedComponents s)
    (newlyCreatedEntities s) (toRemoveEntities s) (modifiedComponents s)
    (removeAllEntities s) (entityComponentsDirty s) (entityComponents s)
    (entityComponentIterators s) (views s) (descendantCache s)
    (entityCount s) (removedComponents s) (console s) (printedComps s) x.

Definition log (l : LogEntry) (s : ECM) : ECM :=
  with_console (console s ++ [l]) s.

(** ** Sets of entities keyed by component type *)

(** [m[k].insert(x)] *)
Definition changed_insert (m : gmap N (gset N)) (k x : N) : gmap N (gset N) :=
  <[k := {[x]} ∪ default ∅ (m !! k)]> m.

(** [it = m.find(k); if (it != m.end()) it->second.erase(x)] *)
Definition changed_erase (m : gmap N (gset N)) (k x : N) : gmap N (gset N) :=
  match m !! k with
  | Some xs => <[k := xs ∖ {[x]}]> m
  | None => m
  end.

(** The same, and the entry is erased when its set becomes empty. *)
Definition changed_erase_prune (m : gmap N (gset N)) (k x : N)
    : gmap N (gset N) :=
  match m !! k with
  | Some xs =>
      let xs' := xs ∖ {[x]} in
      if bool_decide (xs' = ∅) then delete k m else <[k := xs']> m
  | None => m
  end.

(** [it = m.find(k); it != m.end() && it->second.find(x) != it->second.end()] *)
Definition changed_mem (m : gmap N (gset N)) (k x : N) : bool :=
  match m !! k with
  | Some xs => bool_decide (x ∈ xs)
  | None => false
  end.

(** ** Construction and queries *)

Definition EntityComponentManager : ECM := {|
  entityCompStorage := ∅;
  createdCompTypes := ∅;
  entities := graph.empty;
  periodicChangedComponents := ∅;
  oneTimeChangedComponents := ∅;
  newlyCreatedEntities := ∅;
  toRemoveEntities := ∅;
  modifiedComponents := ∅;
  removeAllEntities := false;
  entityComponentsDirty := true;
  entityComponents := ∅;
  entityComponentIterators := [];
  views := ∅;
  descendantCache := ∅;
  entityCount := 0;
  removedComponents := ∅;
  console := [];
  printedComps := ∅;
  printedCompsMap := ∅;
|}.

Definition EntityCount (s : ECM) : nat :=
  length (graph.Vertices (entities s)).

Definition HasEntity (s : ECM) (e : Entity) : bool :=
  negb (graph.VertexFromId (entities s) e =? kNullId).

Definition IsNewEntity (s : ECM) (e : Entity) : bool :=
  bool_decide (e ∈ newlyCreatedEntities s).

Definition IsMarkedForRemoval (s : ECM) (e : Entity) : bool :=
  if removeAllEntities s then true
  else bool_decide (e ∈ toRemoveEntities s).

Definition HasNewEntities (s : ECM) : bool :=
  negb (bool_decide (newlyCreatedEntities s = ∅)).

Definition HasEntitiesMarkedForRemoval (s : ECM) : bool :=
  removeAllEntities s || negb (bool_decide (toRemoveEntities s = ∅)).

Definition HasOneTimeComponentChanges (s : ECM) : bool :=
  negb (bool_decide (oneTimeChangedComponents s = ∅)).

Definition ComponentTypesWithPeriodicChanges (s : ECM) : gset ComponentTypeId :=
  dom (periodicChangedComponents s).

Definition HasComponentType (s : ECM) (t : ComponentTypeId) : bool :=
  bool_decide (t ∈ createdCompTypes s).

Definition EntityHasComponentType (s : ECM) (e : Entity)
    (t : ComponentTypeId) : bool :=
  if negb (HasEntity s e) then false
  else match entityComponents s !! e with
       | None => false
       | Some comps => bool_decide (t ∈ comps)
       end.

(** [EntityHasComponent] reads [entityComponents[_entity]], which makes
    an empty entry for an entity that has none. *)
Definition EntityHasComponent (s : ECM) (e : Entity)
    (key : ComponentTypeId * N) : ECM * bool :=
  if negb (HasEntity s e) then (s, false)
  else match entityComponents s !! e with
       | None => (with_entityComponents (<[e := ∅]> (entityComponents s)) s, false)
       | Some comps => (s, bool_decide (key.1 ∈ comps))
       end.

Definition ComponentState_of (s : ECM) (e : Entity) (t : ComponentTypeId)
    : ComponentState :=
  match entityComponents s !! e with
  | None => NoChange
  | Some comps =>
      if negb (bool_decide (t ∈ comps)) then NoChange
      else if changed_mem (oneTimeChangedComponents s) t e then OneTimeChange
      else if changed_mem (periodicChangedComponents s) t e then PeriodicChange
      else NoChange
  end.

Definition ComponentTypes_of (s : ECM) (e : Entity) : gset ComponentTypeId :=
  default ∅ (entityComponents s !! e).

Definition ComponentImplementation (s : ECM) (e : Entity)
    (t : ComponentTypeId) : option P :=
  storage.ValidComponent (entityCompStorage s) e t.

Definition EntityMatches (s : ECM) (e : Entity) (types : gset ComponentTypeId)
    : bool :=
  match entityComponents s !! e with
  | None => false
  | Some comps =>
      if bool_decide (size comps < size types)%nat then false
      else forallb (λ t, bool_decide (t ∈ comps)) (elements types)
  end.

Definition FindView (s : ECM) (types : list ComponentTypeId) : option V :=
  views s !! types.

(** [insert] does not replace the view of a key that is already there. *)
Definition AddView (s : ECM) (types : list ComponentTypeId) (v : V) : ECM :=
  match views s !! types with
  | Some _ => s
  | None => with_views (<[types := v]> (views s)) s
  end.

Definition RebuildViews (s : ECM) : ECM :=
  with_views
    ((λ view,
        foldl (λ view entity,
                 if EntityMatches s entity (ComponentTypes view)
                 then let view' := MarkEntityToAdd view entity (IsNewEntity s entity) in
                      if IsMarkedForRemoval s entity
                      then MarkEntityToRemove view' entity
                      else view'
                 else view)
              (Reset view) (graph.Vertices (entities s)))
     <$> views s) s.

(** ** Entities *)

Definition CreateEntityImplementation (s : ECM) (e : Entity) : ECM * Entity :=
  let s1 := with_entities (graph.AddVertex (entities s) e).1 s in
  let s2 := with_newlyCreatedEntities ({[e]} ∪ newlyCreatedEntities s1) s1 in
  let s3 := with_descendantCache ∅ s2 in
  let '(st, fresh) := storage.AddEntity (entityCompStorage s3) e in
  let s4 := with_entityCompStorage st s3 in
  (if fresh then s4 else log (WarnEntityInStorage e) s4, e).

(** [++entityCount] wraps around at 64 bits. *)
Definition CreateEntity (s : ECM) : ECM * Entity :=
  let entity := (entityCount s + 1) mod UINT64_MOD in
  let s1 := with_entityCount entity s in
  if entity =? UINT64_MAX
  then (log (WarnMaxEntities entity) s1, entity)
  else CreateEntityImplementation s1 entity.

Definition ClearNewlyCreatedEntities (s : ECM) : ECM :=
  let s1 := with_newlyCreatedEntities ∅ s in
  with_views (ResetNewEntityState <$> views s1) s1.

Definition ClearRemovedComponents (s : ECM) : ECM :=
  with_removedComponents ∅ s.

(** [InsertEntityRecursive] follows the children of the entity; when the
    graph has a cycle below the entity the recursion never ends.  The
    depth of a recursion that ends is at most the number of vertices. *)
Fixpoint InsertEntityRecursive_fuel (fuel : nat) (g : EntityGraph)
    (e : Entity) (set : gset Entity) : option (gset Entity) :=
  match fuel with
  | O => None
  | S fuel' =>
      set' ← foldl (λ acc v, acc ≫= InsertEntityRecursive_fuel fuel' g v)
               (Some set) (graph.AdjacentsFrom g e);
      Some ({[e]} ∪ set')
  end.

Definition InsertEntityRecursive (s : ECM) (e : Entity) (set : gset Entity)
    : option (gset Entity) :=
  InsertEntityRecursive_fuel (S (S (size (graph.vertices (entities s)))))
    (entities s) e set.

Definition RequestRemoveEntity (s : ECM) (e : Entity) (recursive : bool)
    : option ECM :=
  tmpToRemoveEntities ←
    (if negb recursive then Some {[e]} else InsertEntityRecursive s e ∅);
  let s1 := with_toRemoveEntities (toRemoveEntities s ∪ tmpToRemoveEntities) s in
  Some (with_views
          ((λ view, foldl MarkEntityToRemove view (elements tmpToRemoveEntities))
           <$> views s1) s1).

Definition RequestRemoveEntities (s : ECM) : ECM :=
  RebuildViews (with_removeAllEntities true s).

Definition ProcessRemoveEntityRequests_one (s : ECM) (entity : Entity) : ECM :=
  if negb (HasEntity s entity) then s
  else
    let s1 := with_entities (graph.RemoveVertex (entities s) entity) s in
    let s2 :=
      match entityComponents s1 !! entity with
      | Some _ =>
          let s' := with_entityCompStorage
                      (storage.RemoveEntity (entityCompStorage s1) entity) s1 in
          let s' := with_entityComponents (delete entity (entityComponents s')) s' in
          with_entityComponentsDirty true s'
      | None => s1
      end in
    with_views ((λ view, RemoveEntity view entity) <$> views s2) s2.

Definition ProcessRemoveEntityRequests (s : ECM) : ECM :=
  let s' :=
    if removeAllEntities s then
      let s := with_removeAllEntities false s in
      let s := with_entities graph.empty s in
      let s := with_entityComponents ∅ s in
      let s := with_toRemoveEntities ∅ s in
      let s := with_entityComponentsDirty true s in
      let s := with_entityCompStorage ∅ s in
      with_views ∅ s
    else
      let s := foldl ProcessRemoveEntityRequests_one s
                 (elements (toRemoveEntities s)) in
      with_toRemoveEntities ∅ s in
  with_descendantCache ∅ s'.

(** ** Parents *)

Definition ParentEntity (s : ECM) (e : Entity) : Entity :=
  match graph.AdjacentsTo (entities s) e with
  | [] => kNullEntity
  | parent :: _ => parent
  end.

Definition SetParentEntity (s : ECM) (child parent : Entity) : ECM * bool :=
  let parents := graph.AdjacentsTo (entities s) child in
  let g1 := foldl (λ g p, graph.RemoveEdge g (graph.EdgeFromVertices g p child))
              (entities s) parents in
  if parent =? kNullEntity then (with_entities g1 s, true)
  else let '(g2, ok) := graph.AddEdge g1 parent child in
       (with_entities g2 s, ok).

Definition Descendants (s : ECM) (e : Entity) : ECM * gset Entity :=
  match descendantCache s !! e with
  | Some descendants => (s, descendants)
  | None =>
      if negb (HasEntity s e) then (s, ∅)
      else
        let descendants : gset Entity :=
          list_to_set (graph.BreadthFirstSort (entities s) e) in
        (with_descendantCache (<[e := descendants]> (descendantCache s)) s,
         descendants)
  end.

(** ** Components *)

Definition AddModifiedComponent (s : ECM) (e : Entity) : ECM :=
  if bool_decide (e ∈ newlyCreatedEntities s)
     || bool_decide (e ∈ toRemoveEntities s)
     || bool_decide (e ∈ modifiedComponents s)
  then s
  else with_modifiedComponents ({[e]} ∪ modifiedComponents s) s.

Definition RemoveComponent (s : ECM) (e : Entity) (t : ComponentTypeId)
    : ECM * bool :=
  if negb (EntityHasComponentType s e t) then (s, false)
  else
    let s := with_entityComponents
               (<[e := default ∅ (entityComponents s !! e) ∖ {[t]}]>
                  (entityComponents s)) s in
    let s := with_entityComponentsDirty true s in
    let s := with_oneTimeChangedComponents
               (changed_erase_prune (oneTimeChangedComponents s) t e) s in
    let s := with_periodicChangedComponents
               (changed_erase_prune (periodicChangedComponents s) t e) s in
    let '(st, removedComp) :=
      storage.RemoveComponent (entityCompStorage s) e t in
    let s := with_entityCompStorage st s in
    let s := match removedComp with
             | Some _ =>
                 with_views ((λ view, NotifyComponentRemoval view e t)
                             <$> views s) s
             | None => s
             end in
    let s := AddModifiedComponent s e in
    let s := with_removedComponents
               (changed_insert (removedComponents s) e t) s in
    (s, true).

Definition CreateComponentImplementation (s : ECM) (e : Entity)
    (t : ComponentTypeId) (data : P) : ECM * bool :=
  if negb (HasEntity s e) then (log (ErrNoSuchEntity t e) s, false)
  else if negb (HasComponentType s t) && negb (HasType t)
  then (log (ErrTypeNotRegistered t e) s, false)
  else
    let s := AddModifiedComponent s e in
    let s := with_entityComponents
               (changed_insert (entityComponents s) e t) s in
    let s := with_oneTimeChangedComponents
               (changed_insert (oneTimeChangedComponents s) t e) s in
    let s := with_entityComponentsDirty true s in
    let newComp := NewFrom t data in
    let '(st, compAddResult) :=
      storage.AddComponent (entityCompStorage s) e newComp in
    let s := with_entityCompStorage st s in
    match compAddResult with
    | FAILED_ADDITION => (log (ErrCreateFailed t e) s, false)
    | NEW_ADDITION =>
        let s := with_views
                   ((λ view, if EntityMatches s e (ComponentTypes view)
                             then MarkEntityToAdd view e (IsNewEntity s e)
                             else view) <$> views s) s in
        (with_createdCompTypes ({[t]} ∪ createdCompTypes s) s, false)
    | RE_ADDITION =>
        let s := with_views
                   ((λ view, NotifyComponentAddition view e (IsNewEntity s e) t)
                    <$> views s) s in
        (with_createdCompTypes ({[t]} ∪ createdCompTypes s) s, true)
    | MODIFICATION =>
        (with_createdCompTypes ({[t]} ∪ createdCompTypes s) s, true)
    end.

Definition SetAllComponentsUnchanged (s : ECM) : ECM :=
  let s := with_periodicChangedComponents ∅ s in
  let s := with_oneTimeChangedComponents ∅ s in
  with_modifiedComponents ∅ s.

Definition SetChanged (s : ECM) (e : Entity) (t : ComponentTypeId)
    (c : ComponentState) : ECM :=
  match entityComponents s !! e with
  | None => s
  | Some comps =>
      if negb (bool_decide (t ∈ comps)) then s
      else
        let s :=
          match c with
          | PeriodicChange =>
              let s := with_periodicChangedComponents
                         (changed_insert (periodicChangedComponents s) t e) s in
              with_oneTimeChangedComponents
                (changed_erase (oneTimeChangedComponents s) t e) s
          | OneTimeChange =>
              let s := with_periodicChangedComponents
                         (changed_erase (periodicChangedComponents s) t e) s in
              with_oneTimeChangedComponents
                (changed_insert (oneTimeChangedComponents s) t e) s
          | NoChange =>
              let s := with_periodicChangedComponents
                         (changed_erase (periodicChangedComponents s) t e) s in
              with_oneTimeChangedComponents
                (changed_erase (oneTimeChangedComponents s) t e) s
          end in
        AddModifiedComponent s e
  end.

Definition SetEntityCreateOffset (s : ECM) (offset : N) : ECM :=
  let s := if offset <? entityCount s
           then log (WarnOffset offset (entityCount s)) s else s in
  with_entityCount offset s.

(** ** Serialization: the flat form *)

Definition add_components (m : msgs.SerializedEntity)
    (c : msgs.SerializedComponent) : msgs.SerializedEntity :=
  {| msgs.id := msgs.id m; msgs.entity_remove := msgs.entity_remove m;
     msgs.components := msgs.components m ++ [c] |}.

(** The component message of a removed component. *)
Definition removed_component_msg (compType : ComponentTypeId)
    : msgs.SerializedComponent :=
  let compMsg := msgs.empty_component in
  let compMsg := msgs.set_component compMsg " " in
  let compMsg := msgs.set_type compMsg compType in
  msgs.set_remove compMsg true.

(** [!_types.empty() && _types.find(compType) == _types.end()] *)
Definition filtered_out (types : gset ComponentTypeId)
    (compType : ComponentTypeId) : bool :=
  negb (bool_decide (types = ∅)) && negb (bool_decide (compType ∈ types)).

Definition SetRemovedComponentsMsgs (s : ECM) (e : Entity)
    (entityMsg : msgs.SerializedEntity) (types : gset ComponentTypeId)
    : msgs.SerializedEntity :=
  match removedComponents s !! e with
  | None => entityMsg
  | Some removed =>
      foldl (λ entityMsg compType,
               if filtered_out types compType then entityMsg
               else add_components entityMsg (removed_component_msg compType))
            entityMsg (elements removed)
  end.

(** [compBase] is dereferenced without a check: no result when the
    storage has no component for a type of the index. *)
Definition AddEntityToMessage (s : ECM) (msg : msgs.SerializedState)
    (e : Entity) (types : gset ComponentTypeId)
    : option msgs.SerializedState :=
  let entityMsg :=
    {| msgs.id := e; msgs.entity_remove := false; msgs.components := [] |} in
  match entityComponents s !! e with
  | None => Some (msg ++ [entityMsg])
  | Some comps =>
      let entityMsg :=
        if bool_decide (e ∈ toRemoveEntities s)
        then {| msgs.id := e; msgs.entity_remove := true;
                msgs.components := [] |}
        else entityMsg in
      let types' := if bool_decide (types = ∅) then comps else types in
      entityMsg ←
        foldlM (λ entityMsg t,
                  if negb (bool_decide (t ∈ comps)) then Some entityMsg
                  else
                    compBase ← ComponentImplementation s e t;
                    Some (add_components entityMsg
                            {| msgs.type := TypeId compBase;
                               msgs.component := Serialize compBase;
                               msgs.remove := false |}))
               entityMsg (elements types');
      Some (msg ++ [SetRemovedComponentsMsgs s e entityMsg types])
  end.

Definition ChangedState (s : ECM) : option msgs.SerializedState :=
  stateMsg ← foldlM (λ m e, AddEntityToMessage s m e ∅) []
               (elements (newlyCreatedEntities s));
  stateMsg ← foldlM (λ m e, AddEntityToMessage s m e ∅) stateMsg
               (elements (toRemoveEntities s));
  foldlM (λ m e, AddEntityToMessage s m e ∅) stateMsg
    (elements (modifiedComponents s)).

Definition State (s : ECM) (entities : gset Entity)
    (types : gset ComponentTypeId) : option msgs.SerializedState :=
  foldlM (λ stateMsg it,
            let entity := it.1 in
            if negb (bool_decide (entities = ∅))
               && negb (bool_decide (entity ∈ entities))
            then Some stateMsg
            else AddEntityToMessage s stateMsg entity types)
         [] (map_to_list (entityComponents s)).

(** ** Serialization: the map form *)

(** The entity of the message, added with its id when it is not there. *)
Definition ensure_entity (m : gmap Entity msgs.SerializedEntityMap)
    (e : Entity) : gmap Entity msgs.SerializedEntityMap :=
  match m !! e with
  | Some _ => m
  | None => <[e := {| msgs.map_id := e; msgs.map_remove := false;
                      msgs.map_components := ∅ |}]> m
  end.

Definition set_map_remove (r : bool) (ent : msgs.SerializedEntityMap)
    : msgs.SerializedEntityMap :=
  {| msgs.map_id := msgs.map_id ent; msgs.map_remove := r;
     msgs.map_components := msgs.map_components ent |}.

Definition set_map_components
    (f : gmap ComponentTypeId msgs.SerializedComponent →
         gmap ComponentTypeId msgs.SerializedComponent)
    (ent : msgs.SerializedEntityMap) : msgs.SerializedEntityMap :=
  {| msgs.map_id := msgs.map_id ent; msgs.map_remove := msgs.map_remove ent;
     msgs.map_components := f (msgs.map_components ent) |}.

Definition SetRemovedComponentsMsgs_map (s : ECM) (e : Entity)
    (msg : msgs.SerializedStateMap) (types : gset ComponentTypeId)
    : msgs.SerializedStateMap :=
  match removedComponents s !! e with
  | None => msg
  | Some removed =>
      if bool_decide (size removed = 0%nat) then msg
      else
        let ents := ensure_entity (msgs.entities msg) e in
        msgs.with_entities
          (foldl (λ ents compType,
                    if filtered_out types compType then ents
                    else alter (set_map_components
                                  (<[compType := removed_component_msg compType]>))
                               e ents)
                 ents (elements removed)) msg
  end.

(** Iterators of the sets of changed components: the set an iterator
    ranges over, and the entity it points to ([None] past the end). *)
Inductive changed_set :=
  | OneTimeSet (t : ComponentTypeId)
  | PeriodicSet (t : ComponentTypeId).

Record set_iterator := {
  it_set : changed_set;
  it_entity : option Entity;
}.

Definition set_find (c : changed_set) (xs : gset Entity) (e : Entity)
    : set_iterator :=
  {| it_set := c; it_entity := if bool_decide (e ∈ xs) then Some e else None |}.

Definition set_end (c : changed_set) : set_iterator :=
  {| it_set := c; it_entity := None |}.

Definition changed_set_eqb (a b : changed_set) : bool :=
  match a, b with
  | OneTimeSet t, OneTimeSet t' => t =? t'
  | PeriodicSet t, PeriodicSet t' => t =? t'
  | _, _ => false
  end.

(** [operator!=] has a result for two iterators of the same set only. *)
Definition iterator_ne (a b : set_iterator) : option bool :=
  if changed_set_eqb (it_set a) (it_set b)
  then Some (negb (bool_decide (it_entity a = it_entity b)))
  else None.

(** The value of [noChange] for a component of the entity.  The second
    test compares [periodicIter->second.find(_entity)] with
    [oneTimeIter->second.end()]; [oneTimeIter] may be the end of its map. *)
Definition noChange (s : ECM) (e : Entity) (t : ComponentTypeId)
    : option bool :=
  let oneTimeIter := oneTimeChangedComponents s !! t in
  let noChange :=
    match oneTimeIter with
    | Some xs => negb (bool_decide (e ∈ xs))
    | None => true
    end in
  if noChange then
    match periodicChangedComponents s !! t with
    | None => Some true
    | Some ps =>
        xs ← oneTimeIter;
        differ ← iterator_ne (set_find (PeriodicSet t) ps e)
                   (set_end (OneTimeSet t));
        Some (negb differ)
    end
  else Some false.

Definition AddEntityToMessage_map (s : ECM) (msg : msgs.SerializedStateMap)
    (e : Entity) (types : gset ComponentTypeId) (full : bool)
    : option msgs.SerializedStateMap :=
  match entityComponents s !! e with
  | None => Some msg
  | Some comps =>
      let ents := msgs.entities msg in
      let ents :=
        if bool_decide (e ∈ toRemoveEntities s)
        then alter (set_map_remove true) e (ensure_entity ents e)
        else ents in
      let types' := if bool_decide (types = ∅) then comps else types in
      ents ←
        foldlM (λ ents t,
                  if negb (bool_decide (t ∈ comps)) then Some ents
                  else
                    let compBase := ComponentImplementation s e t in
                    unchanged ← (if negb full then noChange s e t
                                 else Some false);
                    if (unchanged : bool) then Some ents
                    else
                      let ents := ensure_entity ents e in
                      comp ← compBase;
                      Some (alter
                              (set_map_components
                                 (λ cs,
                                    let cs :=
                                      match cs !! t with
                                      | Some _ => cs
                                      | None =>
                                          <[t := msgs.set_type
                                                   msgs.empty_component
                                                   (TypeId comp)]> cs
                                      end in
                                    alter (λ c, msgs.set_component c
                                                  (Serialize comp)) t cs))
                              e ents))
               ents (elements types');
      Some (SetRemovedComponentsMsgs_map s e (msgs.with_entities ents msg) types)
  end.

Definition ChangedState_map (s : ECM) (state : msgs.SerializedStateMap)
    : option msgs.SerializedStateMap :=
  state ← foldlM (λ m e, AddEntityToMessage_map s m e ∅ full_default) state
            (elements (newlyCreatedEntities s));
  state ← foldlM (λ m e, AddEntityToMessage_map s m e ∅ full_default) state
            (elements (toRemoveEntities s));
  foldlM (λ m e, AddEntityToMessage_map s m e ∅ full_default) state
    (elements (modifiedComponents s)).

(** The loop of [CalculateStateThreadLoad]: the iterators pushed after
    the first one. *)
Fixpoint thread_iterators (n : nat) (numComponents componentsPerThread : Z)
    (startIt endIt : nat) : list nat :=
  match n with
  | O => []
  | S n' =>
      let numComponents := (numComponents - componentsPerThread)%Z in
      if (numComponents <=? 0)%Z then [endIt]
      else
        let nextIt := (startIt + Z.to_nat componentsPerThread)%nat in
        nextIt :: thread_iterators n' numComponents componentsPerThread
                    nextIt endIt
  end.

(** [int] has 32 bits and [uint64_t] has 64: the conversion of a value
    that is out of the range wraps around. *)
Definition INT_MAX : Z := 2147483647.

Definition to_int (z : Z) : Z :=
  ((z + 2147483648) mod 4294967296 - 2147483648)%Z.

Definition to_uint64 (z : Z) : Z := (z mod 18446744073709551616)%Z.

(** [numComponents] and [maxThreads] are [int], and [numThreads] is
    [uint64_t].  The quotient is computed in [double] and rounded up.
    With no thread the divisor is zero: the quotient is not a number, or
    is infinite, and its conversion to [int] has no defined result.
    Otherwise the operands are [int] values and a divisor below [2^31],
    which [double] holds exactly, or the divisor is above [2^63] and
    the quotient is below one: the rounding of the division does not
    reach an integer, and [ceil] gives the ceiling of the exact
    quotient, which lies between zero and [numComponents].  The
    subtraction in the loop stays in the range of [int]. *)
Definition CalculateStateThreadLoad (s : ECM) : option ECM :=
  if negb (entityComponentsDirty s) then Some s
  else
    let s := with_entityComponentsDirty false s in
    let numComponents := to_int (Z.of_nat (size (entityComponents s))) in
    let maxThreads := to_int hardware_concurrency in
    let numThreads := to_uint64 (Z.min numComponents maxThreads) in
    if (numThreads =? 0)%Z then None
    else
      let componentsPerThread := (- ((- numComponents) / numThreads))%Z in
      let s := log (DbgThreadIterators numThreads componentsPerThread) s in
      Some (with_entityComponentIterators
              (0%nat :: thread_iterators (Z.to_nat numThreads) numComponents
                          componentsPerThread 0 (size (entityComponents s)))
              s).

(** The body of a worker thread of [State], from [itStart] up to
    [itEnd]: its own map.  An iterator that passes the end of the
    sequence without meeting [itEnd] has no defined result. *)
Definition State_functor (s : ECM) (entities : gset Entity)
    (types : gset ComponentTypeId) (full : bool) (itStart itEnd : nat)
    : option msgs.SerializedStateMap :=
  let sequence := (map_to_list (entityComponents s)).*1 in
  if bool_decide (itStart ≤ itEnd ≤ length sequence)%nat then
    foldlM (λ threadMap entity,
              if bool_decide (entities = ∅) || bool_decide (entity ∈ entities)
              then AddEntityToMessage_map s threadMap entity types full
              else Some threadMap)
           msgs.empty_state_map
           (take (itEnd - itStart) (drop itStart sequence))
  else None.

(** The merge of the map of a thread into the state, under the mutex. *)
Definition State_merge (state threadMap : msgs.SerializedStateMap)
    : msgs.SerializedStateMap :=
  msgs.with_entities
    (foldl (λ ents entity, <[entity.1 := entity.2]> ents)
           (msgs.entities state) (map_to_list (msgs.entities threadMap)))
    state.

(** The workers in the order they are spawned; each one writes to the
    state only in its merge. *)
Fixpoint State_workers (s : ECM) (entities : gset Entity)
    (types : gset ComponentTypeId) (full : bool) (its : list nat)
    (state : msgs.SerializedStateMap) : option msgs.SerializedStateMap :=
  match its with
  | itStart :: ((itEnd :: _) as its') =>
      threadMap ← State_functor s entities types full itStart itEnd;
      State_workers s entities types full its' (State_merge state threadMap)
  | _ => Some state
  end.

(** Where [CalculateStateThreadLoad] has no defined result, [State] has
    none; with no iterator stored, the count of the threads wraps around
    and the vector is read past its end. *)
Definition State_map (s : ECM) (state : msgs.SerializedStateMap)
    (entities : gset Entity) (types : gset ComponentTypeId) (full : bool)
    : ECM * option msgs.SerializedStateMap :=
  match CalculateStateThreadLoad s with
  | None => (s, None)
  | Some s =>
      (s, match entityComponentIterators s with
          | [] => None
          | its => State_workers s entities types full its state
          end)
  end.

(** ** Applying a state *)

(** [printedComps] is a set of [unsigned int]: the type id is cut to 32
    bits when it is looked up and inserted. *)
Definition to_unsigned_int (t : N) : N := t mod 4294967296.

Definition SetState_component (s : ECM) (entity : Entity)
    (compMsg : msgs.SerializedComponent) : ECM :=
  if bool_decide (msgs.component compMsg = EmptyString) then s
  else
    let type := msgs.type compMsg in
    if negb (HasType type) then
      if bool_decide (to_unsigned_int type ∈ printedComps s) then s
      else log (WarnTypeNotRegistered type)
             (with_printedComps ({[to_unsigned_int type]} ∪ printedComps s) s)
    else
      match New type with
      | None => log (ErrDeserialize type) s
      | Some newComp =>
          let newComp := Deserialize newComp (msgs.component compMsg) in
          let typeId := TypeId newComp in
          let s := (RemoveComponent s entity typeId).1 in
          if msgs.remove compMsg then s
          else
            match ComponentImplementation s entity typeId with
            | None => (CreateComponentImplementation s entity typeId newComp).1
            | Some _ => log ErrInternal s
            end
      end.

Definition SetState_entity (s : ECM) (entityMsg : msgs.SerializedEntity)
    : option ECM :=
  let entity := msgs.id entityMsg in
  if msgs.entity_remove entityMsg
  then RequestRemoveEntity s entity recursive_default
  else
    let s := if negb (HasEntity s entity)
             then (CreateEntityImplementation s entity).1 else s in
    Some (foldl (λ s compMsg, SetState_component s entity compMsg) s
            (msgs.components entityMsg)).

Definition SetState (s : ECM) (stateMsg : msgs.SerializedState) : option ECM :=
  foldlM SetState_entity s stateMsg.

(** [comp->Deserialize(istr)] on the component the storage holds. *)
Definition deserialize_in_place (s : ECM) (e : Entity) (t : ComponentTypeId)
    (data : string) : ECM :=
  with_entityCompStorage
    (alter (alter (fmap (λ comp, Deserialize comp data)) t) e
       (entityCompStorage s)) s.

Definition SetState_map_component (s : ECM) (entity : Entity)
    (one_time : bool) (compIter : ComponentTypeId * msgs.SerializedComponent)
    : ECM :=
  let compMsg := compIter.2 in
  let type := msgs.type compMsg in
  if negb (HasType type) then
    if bool_decide (to_unsigned_int type ∈ printedCompsMap s) then s
    else log (WarnTypeNotRegistered type)
           (with_printedCompsMap
              ({[to_unsigned_int type]} ∪ printedCompsMap s) s)
  else if msgs.remove compMsg then (RemoveComponent s entity compIter.1).1
  else
    match ComponentImplementation s entity compIter.1 with
    | None =>
        match New type with
        | None => log (ErrDeserialize type) s
        | Some newComp =>
            let newComp := Deserialize newComp (msgs.component compMsg) in
            (CreateComponentImplementation s entity (TypeId newComp) newComp).1
        end
    | Some _ =>
        let s := deserialize_in_place s entity compIter.1
                   (msgs.component compMsg) in
        SetChanged s entity compIter.1
          (if one_time then OneTimeChange else PeriodicChange)
    end.

Definition SetState_map_entity (one_time : bool) (s : ECM)
    (iter : Entity * msgs.SerializedEntityMap) : option ECM :=
  let entityMsg := iter.2 in
  let entity := msgs.map_id entityMsg in
  if msgs.map_remove entityMsg
  then RequestRemoveEntity s entity recursive_default
  else
    let s := if negb (HasEntity s entity)
             then (CreateEntityImplementation s entity).1 else s in
    Some (foldl (λ s compIter, SetState_map_component s entity one_time compIter)
            s (map_to_list (msgs.map_components entityMsg))).

Definition SetState_map (s : ECM) (stateMsg : msgs.SerializedStateMap)
    : option ECM :=
  foldlM (SetState_map_entity (msgs.has_one_time_component_changes stateMsg))
    s (map_to_list (msgs.entities stateMsg)).

(** ** The states of a manager

    The member functions that change the manager, as operations; a
    state is reachable when a sequence of operations with defined
    results leads to it from the constructor. *)
Inductive Op :=
  | OpCreateEntity
  | OpClearNewlyCreatedEntities
  | OpClearRemovedComponents
  | OpRequestRemoveEntity (e : Entity) (recursive : bool)
  | OpRequestRemoveEntities
  | OpProcessRemoveEntityRequests
  | OpRemoveComponent (e : Entity) (t : ComponentTypeId)
  | OpEntityHasComponent (e : Entity) (key : ComponentTypeId * N)
  | OpSetParentEntity (child parent : Entity)
  | OpCreateComponentImplementation (e : Entity) (t : ComponentTypeId) (data : P)
  | OpAddView (types : list ComponentTypeId) (view : V)
  | OpRebuildViews
  | OpState_map (state : msgs.SerializedStateMap) (entities : gset Entity)
      (types : gset ComponentTypeId) (full : bool)
  | OpSetState (stateMsg : msgs.SerializedState)
  | OpSetState_map (stateMsg : msgs.SerializedStateMap)
  | OpDescendants (e : Entity)
  | OpSetAllComponentsUnchanged
  | OpSetChanged (e : Entity) (t : ComponentTypeId) (c : ComponentState)
  | OpSetEntityCreateOffset (offset : N).

Definition exec (op : Op) (s : ECM) : option ECM :=
  match op with
  | OpCreateEntity => Some (CreateEntity s).1
  | OpClearNewlyCreatedEntities => Some (ClearNewlyCreatedEntities s)
  | OpClearRemovedComponents => Some (ClearRemovedComponents s)
  | OpRequestRemoveEntity e recursive => RequestRemoveEntity s e recursive
  | OpRequestRemoveEntities => Some (RequestRemoveEntities s)
  | OpProcessRemoveEntityRequests => Some (ProcessRemoveEntityRequests s)
  | OpRemoveComponent e t => Some (RemoveComponent s e t).1
  | OpEntityHasComponent e key => Some (EntityHasComponent s e key).1
  | OpSetParentEntity child parent => Some (SetParentEntity s child parent).1
  | OpCreateComponentImplementation e t data =>
      Some (CreateComponentImplementation s e t data).1
  | OpAddView types view => Some (AddView s types view)
  | OpRebuildViews => Some (RebuildViews s)
  | OpState_map state entities types full =>
      let r := State_map s state entities types full in
      _ ← r.2; Some r.1
  | OpSetState stateMsg => SetState s stateMsg
  | OpSetState_map stateMsg => SetState_map s stateMsg
  | OpDescendants e => Some (Descendants s e).1
  | OpSetAllComponentsUnchanged => Some (SetAllComponentsUnchanged s)
  | OpSetChanged e t c => Some (SetChanged s e t c)
  | OpSetEntityCreateOffset offset => Some (SetEntityCreateOffset s offset)
  end.

Inductive reachable : ECM → Prop :=
  | reachable_init : reachable EntityComponentManager
  | reachable_step s op s' :
      reachable s → exec op s = Some s' → reachable s'.

(** A run of a list of operations. *)
Definition run (ops : list Op) (s : ECM) : option ECM :=
  foldlM (λ s op, exec op s) s ops.

End ECM.

Arguments ECM : clear implicits.
Arguments Op : clear implicits.

(** ** An instance

    Components that are a type id with the bytes of their data, a
    factory that knows the type ids below 100, and views that keep the
    bookkeeping of section 4.4 of the specification. *)
Module example.

Record Component := { comp_type : ComponentTypeId; comp_data : string }.

#[global] Instance component_base : BaseComponent Component := {|
  TypeId := comp_type;
  Serialize := comp_data;
  Deserialize c d := {| comp_type := comp_type c; comp_data := d |};
|}.

#[global] Instance component_factory : Factory Component := {|
  HasType t := t <? 100;
  New t := if t <? 100
           then Some {| comp_type := t; comp_data := "0" |} else None;
  NewFrom t data := {| comp_type := t; comp_data := comp_data data |};
|}.

Record View := {
  view_types : gset ComponentTypeId;
  view_entities : gset Entity;
  view_toAdd : gmap Entity bool;
  view_toRemove : gset Entity;
}.

#[global] Instance view_base : BaseView View := {|
  Reset v := {| view_types := view_types v; view_entities := ∅;
                view_toAdd := ∅; view_toRemove := ∅ |};
  ComponentTypes := view_types;
  MarkEntityToAdd v e isNew :=
    {| view_types := view_types v; view_entities := view_entities v;
       view_toAdd := <[e := isNew]> (view_toAdd v);
       view_toRemove := view_toRemove v |};
  MarkEntityToRemove v e :=
    {| view_types := view_types v; view_entities := view_entities v;
       view_toAdd := view_toAdd v;
       view_toRemove := {[e]} ∪ view_toRemove v |};
  RemoveEntity v e :=
    {| view_types := view_types v; view_entities := view_entities v ∖ {[e]};
       view_toAdd := delete e (view_toAdd v);
       view_toRemove := view_toRemove v ∖ {[e]} |};
  NotifyComponentAddition v e isNew t :=
    {| view_types := view_types v; view_entities := view_entities v;
       view_toAdd := if bool_decide (t ∈ view_types v)
                     then <[e := isNew]> (view_toAdd v) else view_toAdd v;
       view_toRemove := view_toRemove v |};
  NotifyComponentRemoval v e t :=
    {| view_types := view_types v;
       view_entities := if bool_decide (t ∈ view_types v)
                        then view_entities v ∖ {[e]} else view_entities v;
       view_toAdd := view_toAdd v; view_toRemove := view_toRemove v |};
  ResetNewEntityState v :=
    {| view_types := view_types v; view_entities := view_entities v;
       view_toAdd := (λ _, false) <$> view_toAdd v;
       view_toRemove := view_toRemove v |};
|}.

#[global] Instance declarations : Declarations := {|
  recursive_default := true;
  full_default := false;
  hardware_concurrency := 4;
|}.

Abbreviation Manager := (ECM Component View).

Definition fresh : Manager := EntityComponentManager.

Definition data (t : ComponentTypeId) (d : string) : Component :=
  {| comp_type := t; comp_data := d |}.

(** *** States of the instance *)

(** Entity 1 with a component of type 7 that was removed. *)
Definition removed_ops : list (Op Component View) :=
  [OpCreateEntity;
   OpCreateComponentImplementation 1 7 (data 7 "pose");
   OpRemoveComponent 1 7].

(** The message of an entity, before any component is added. *)
Definition entity_msg (e : Entity) : msgs.SerializedEntity :=
  {| msgs.id := e; msgs.entity_remove := false; msgs.components := [] |}.

(** Entity 1 with a component of type 7, changed periodically and then
    created again. *)
Definition recreate_ops : list (Op Component View) :=
  [OpCreateEntity;
   OpCreateComponentImplementation 1 7 (data 7 "a");
   OpSetChanged 1 7 PeriodicChange;
   OpCreateComponentImplementation 1 7 (data 7 "b")].

(** Entity 1, no longer new, with a new component, then requested to
    be removed. *)
Definition modify_then_remove_ops : list (Op Component View) :=
  [OpCreateEntity;
   OpClearNewlyCreatedEntities;
   OpCreateComponentImplementation 1 7 (data 7 "a");
   OpRequestRemoveEntity 1 false].

(** Entities 1 and 2; the descendants of 1 are asked for, and then 1
    becomes the parent of 2. *)
Definition reparent_ops : list (Op Component View) :=
  [OpCreateEntity; OpCreateEntity; OpDescendants 1; OpSetParentEntity 2 1].

(** Entity 1, no longer new, with a component of type 7 whose change is
    periodic. *)
Definition periodic_ops : list (Op Component View) :=
  [OpCreateEntity;
   OpCreateComponentImplementation 1 7 (data 7 "a");
   OpSetAllComponentsUnchanged;
   OpSetChanged 1 7 PeriodicChange].

(** Two entities without a parent. *)
Definition two_entities : Manager :=
  default fresh (run [OpCreateEntity; OpCreateEntity] fresh).

(** Entity 1 is new, marked for removal and has no component; entity 2
    has one. *)
Definition lonely : Manager :=
  default fresh
    (run [OpCreateEntity; OpCreateEntity;
          OpCreateComponentImplementation 2 7 (data 7 "a");
          OpRequestRemoveEntity 1 false] fresh).


(** Entity 1 with a component, marked for removal. *)
Definition marked_ops : list (Op Component View) :=
  [OpCreateEntity;
   OpCreateComponentImplementation 1 7 (data 7 "a");
   OpRequestRemoveEntity 1 false].

(** Entity 1 with a component that was removed and created again, the
    removal still on record. *)
Definition readded_ops : list (Op Component View) :=
  [OpCreateEntity;
   OpCreateComponentImplementation 1 7 (data 7 "a");
   OpRemoveComponent 1 7;
   OpCreateComponentImplementation 1 7 (data 7 "b")].

(** Entity 1 with a component that serializes to no byte. *)
Definition silent_ops : list (Op Component View) :=
  [OpCreateEntity;
   OpCreateComponentImplementation 1 7 (data 7 EmptyString)].

(** Entities 1 and 2 with components, 1 the parent of 2, and a removed
    component of entity 2. *)
Definition populated : Manager :=
  default fresh
    (run [OpCreateEntity; OpCreateEntity;
          OpCreateComponentImplementation 1 7 (data 7 "a");
          OpCreateComponentImplementation 1 8 (data 8 "b");
          OpCreateComponentImplementation 2 7 (data 7 "c");
          OpCreateComponentImplementation 2 9 (data 9 "d");
          OpRemoveComponent 2 9;
          OpSetParentEntity 2 1] fresh).

(** One entity, new, without a component. *)
Definition one_entity_ops : list (Op Component View) := [OpCreateEntity].

Definition one_entity : Manager := default fresh (run one_entity_ops fresh).

(** Entities 1, 2 and 3: 1 is the parent of 2, and 2 the parent of 3. *)
Definition family_ops : list (Op Component View) :=
  [OpCreateEntity; OpCreateEntity; OpCreateEntity;
   OpSetParentEntity 2 1; OpSetParentEntity 3 2].

Definition family : Manager := default fresh (run family_ops fresh).

(** The same, with entity 2 to be removed. *)
Definition family_marked_ops : list (Op Component View) :=
  family_ops ++ [OpRequestRemoveEntity 2 false].

Definition family_marked : Manager :=
  default fresh (run family_marked_ops fresh).

(** Entities 1 and 2, each the parent of the other. *)
Definition cycle_ops : list (Op Component View) :=
  [OpCreateEntity; OpCreateEntity;
   OpSetParentEntity 2 1; OpSetParentEntity 1 2].

Definition cycle : Manager := default fresh (run cycle_ops fresh).

(** The operations that make [populated]. *)
Definition populated_ops : list (Op Component View) :=
  [OpCreateEntity; OpCreateEntity;
   OpCreateComponentImplementation 1 7 (data 7 "a");
   OpCreateComponentImplementation 1 8 (data 8 "b");
   OpCreateComponentImplementation 2 7 (data 7 "c");
   OpCreateComponentImplementation 2 9 (data 9 "d");
   OpRemoveComponent 2 9;
   OpSetParentEntity 2 1].

(** The removal of all entities. *)
Definition remove_all_ops : list (Op Component View) :=
  [OpRequestRemoveEntities; OpProcessRemoveEntityRequests].

End example.

(** * The vocabulary of the properties *)

Section vocabulary.
Context {P V : Type}.
Context `{!BaseComponent P} `{!Factory P} `{!BaseView V} `{!Declarations}.
Implicit Types s S : ECM P V.

(** An entity message with component messages appended to it. *)
Definition append_components (m : msgs.SerializedEntity)
    (l : list msgs.SerializedComponent) : msgs.SerializedEntity :=
  {| msgs.id := msgs.id m; msgs.entity_remove := msgs.entity_remove m;
     msgs.components := msgs.components m ++ l |}.

(** [n] calls of [CreateEntity]. *)
Definition CreateEntity_times (n : N) s : ECM P V :=
  N.iter n (λ s, (CreateEntity s).1) s.

(** A new manager after [2^64 - 2] and after [2^64 - 1] calls of
    [CreateEntity]. *)
Definition before_maximum : ECM P V :=
  CreateEntity_times (UINT64_MAX - 1) EntityComponentManager.

Definition at_maximum : ECM P V :=
  CreateEntity_times UINT64_MAX EntityComponentManager.

(** The states whose snapshot holds all of them: every entity of the
    index is in the graph and not marked for removal, no component it has
    is also recorded as removed, and every component of the index is in
    the storage under its own type, of a type the factory has, and writes
    at least one byte. *)
Definition component_ready s (e : Entity) (t : ComponentTypeId) : bool :=
  match ComponentImplementation s e t with
  | Some comp =>
      N.eqb (TypeId comp) t && HasType t
      && negb (bool_decide (Serialize comp = EmptyString))
  | None => false
  end.

Definition entity_ready s (e : Entity) (comps : gset ComponentTypeId) : bool :=
  HasEntity s e
  && negb (bool_decide (e ∈ toRemoveEntities s))
  && bool_decide (default ∅ (removedComponents s !! e) ## comps)
  && forallb (component_ready s e) (elements comps).

Definition snapshot_ready s : bool :=
  forallb (λ it, entity_ready s it.1 it.2) (map_to_list (entityComponents s)).

(** What [State] writes for such a state. *)
Definition component_snapshot s (e : Entity) (t : ComponentTypeId)
    : msgs.SerializedComponent :=
  match ComponentImplementation s e t with
  | Some comp => {| msgs.type := TypeId comp; msgs.component := Serialize comp;
                    msgs.remove := false |}
  | None => msgs.empty_component
  end.





(** The graph of a reachable state: no edge is repeated, the null id is
    no vertex, the ends of every edge are vertices, and no vertex has
    two incoming edges. *)
Definition graph_ok (g : EntityGraph) : Prop :=
  NoDup (graph.edges g)
  ∧ (kNullId ∉ graph.vertices g)
  ∧ (∀ a b, (a, b) ∈ graph.edges g →
            a ∈ graph.vertices g ∧ b ∈ graph.vertices g)
  ∧ (∀ p q c, (p, c) ∈ graph.edges g → (q, c) ∈ graph.edges g → p = q).

(** [c] is a child of [p]: the graph has an edge from [p] to [c]. *)
Definition child_of (g : EntityGraph) (p c : Entity) : Prop :=
  (p, c) ∈ graph.edges g.

(** Every entity of the index exists. *)
Definition index_ok s : Prop :=
  ∀ e, is_Some (entityComponents s !! e) → HasEntity s e = true.

(** The storage has a component for every type of the index. *)
Definition storage_complete s : bool :=
  forallb (λ it,
             forallb (λ t, bool_decide
                             (is_Some (ComponentImplementation s it.1 t)))
                     (elements it.2))
          (map_to_list (entityComponents s)).

(** The loop of a worker thread of [State] over a list of entities. *)
Definition State_loop s (ents : gset Entity) (types : gset ComponentTypeId)
    (full : bool) (threadMap : msgs.SerializedStateMap) (l : list Entity)
    : option msgs.SerializedStateMap :=
  foldlM (λ threadMap entity,
            if bool_decide (ents = ∅) || bool_decide (entity ∈ ents)
            then AddEntityToMessage_map s threadMap entity types full
            else Some threadMap)
         threadMap l.

(** The iterators [its], after the iterator [a], cut the positions from
    [a] to [n] into consecutive ranges. *)
Fixpoint thread_ranges (n a : nat) (its : list nat) : Prop :=
  match its with
  | [] => a = n
  | b :: its' => (a ≤ b ≤ n)%nat ∧ thread_ranges n b its'
  end.
End vocabulary.

(** * Tactics *)

(** Projections of updated states, computed by value. *)
Ltac ecm_simpl :=
  cbv beta iota zeta delta
    [
        entityCompStorage createdCompTypes entities
        periodicChangedComponents oneTimeChangedComponents
        newlyCreatedEntities toRemoveEntities modifiedComponents
        removeAllEntities entityComponentsDirty entityComponents
        entityComponentIterators views descendantCache entityCount
        removedComponents console printedComps printedCompsMap
        with_entityCompStorage with_createdCompTypes with_entities
        with_periodicChangedComponents with_oneTimeChangedComponents
        with_newlyCreatedEntities with_toRemoveEntities
        with_modifiedComponents with_removeAllEntities
        with_entityComponentsDirty with_entityComponents
        with_entityComponentIterators with_views with_descendantCache
        with_entityCount with_removedComponents with_console
        with_printedComps with_printedCompsMap log
    ];
  cbn [fst snd].

Tactic Notation "ecm_simpl" "in" hyp(H) :=
  cbv beta iota zeta delta
    [
        entityCompStorage createdCompTypes entities
        periodicChangedComponents oneTimeChangedComponents
        newlyCreatedEntities toRemoveEntities modifiedComponents
        removeAllEntities entityComponentsDirty entityComponents
        entityComponentIterators views descendantCache entityCount
        removedComponents console printedComps printedCompsMap
        with_entityCompStorage with_createdCompTypes with_entities
        with_periodicChangedComponents with_oneTimeChangedComponents
        with_newlyCreatedEntities with_toRemoveEntities
        with_modifiedComponents with_removeAllEntities
        with_entityComponentsDirty with_entityComponents
        with_entityComponentIterators with_views with_descendantCache
        with_entityCount with_removedComponents with_console
        with_printedComps with_printedCompsMap log
    ] in H;
  cbn [fst snd] in H.

Tactic Notation "ecm_simpl" "in" "*" :=
  cbv beta iota zeta delta
    [
        entityCompStorage createdCompTypes entities
        periodicChangedComponents oneTimeChangedComponents
        newlyCreatedEntities toRemoveEntities modifiedComponents
        removeAllEntities entityComponentsDirty entityComponents
        entityComponentIterators views descendantCache entityCount
        removedComponents console printedComps printedCompsMap
        with_entityCompStorage with_createdCompTypes with_entities
        with_periodicChangedComponents with_oneTimeChangedComponents
        with_newlyCreatedEntities with_toRemoveEntities
        with_modifiedComponents with_removeAllEntities
        with_entityComponentsDirty with_entityComponents
        with_entityComponentIterators with_views with_descendantCache
        with_entityCount with_removedComponents with_console
        with_printedComps with_printedCompsMap log
    ] in *;
  cbn [fst snd] in *.

Ltac break_match :=
  repeat (ecm_simpl;
          match goal with
          | |- context [match ?x with _ => _ end] => destruct x eqn:?
          end);
  ecm_simpl.

(** * Properties *)

Section removal.
Context {P V : Type}.
Context `{!BaseComponent P} `{!Factory P} `{!BaseView V} `{!Declarations}.
Implicit Types s : ECM P V.

Lemma RebuildViews_removeAllEntities s :
  removeAllEntities (RebuildViews s) = removeAllEntities s.
Proof. reflexivity. Qed.

Lemma ProcessRemoveEntityRequests_toRemoveEntities s :
  toRemoveEntities (ProcessRemoveEntityRequests s) = ∅.
Proof.
  unfold ProcessRemoveEntityRequests.
  destruct (removeAllEntities s); reflexivity.
Qed.

Lemma ProcessRemoveEntityRequests_one_removeAllEntities s e :
  removeAllEntities (ProcessRemoveEntityRequests_one s e) = removeAllEntities s.
Proof.
  unfold ProcessRemoveEntityRequests_one.
  destruct (negb (HasEntity s e)); [reflexivity|].
  cbn. destruct (entityComponents s !! e); reflexivity.
Qed.

Lemma ProcessRemoveEntityRequests_removeAllEntities s :
  removeAllEntities (ProcessRemoveEntityRequests s) = false.
Proof.
  unfold ProcessRemoveEntityRequests.
  destruct (removeAllEntities s) eqn:Hall; [reflexivity|].
  cbn. rewrite <- Hall. clear Hall.
  generalize (elements (toRemoveEntities s)) as l.
  intros l. revert s.
  induction l as [|e l IH]; intros s; [reflexivity|].
  cbn [foldl]. rewrite IH.
  apply ProcessRemoveEntityRequests_one_removeAllEntities.
Qed.

Lemma EntityCount_empty s :
  entities s = graph.empty → EntityCount s = 0%nat.
Proof.
  intros Hg. unfold EntityCount, graph.Vertices. rewrite Hg. cbn.
  rewrite elements_empty. reflexivity.
Qed.

(** C6: after [RequestRemoveEntities] and then
    [ProcessRemoveEntityRequests], from any state, [EntityCount] is 0
    and there is no view; after any [ProcessRemoveEntityRequests] the
    set of entities to remove is empty and the flag [removeAllEntities]
    is false. *)
Theorem ProcessRemoveEntityRequests_clears s :
  EntityCount (ProcessRemoveEntityRequests (RequestRemoveEntities s)) = 0%nat
  ∧ views (ProcessRemoveEntityRequests (RequestRemoveEntities s)) = ∅
  ∧ toRemoveEntities (ProcessRemoveEntityRequests s) = ∅
  ∧ removeAllEntities (ProcessRemoveEntityRequests s) = false.
Proof.
  split; [|split; [|split]].
  - apply EntityCount_empty. reflexivity.
  - reflexivity.
  - apply ProcessRemoveEntityRequests_toRemoveEntities.
  - apply ProcessRemoveEntityRequests_removeAllEntities.
Qed.

End removal.

Section removed_components.
Context {P V : Type}.
Context `{!BaseComponent P} `{!Factory P} `{!BaseView V} `{!Declarations}.
Implicit Types s : ECM P V.

Lemma SetRemovedComponentsMsgs_loop types (l : list ComponentTypeId) m :
  foldl (λ entityMsg compType,
           if filtered_out types compType then entityMsg
           else add_components entityMsg (removed_component_msg compType))
        m l
  = append_components m
      (removed_component_msg <$>
         filter (λ t, filtered_out types t = false) l).
Proof.
  revert m. induction l as [|t l IH]; intros m.
  - destruct m. unfold append_components. cbn. by rewrite app_nil_r.
  - cbn [foldl]. rewrite IH. rewrite filter_cons.
    destruct (filtered_out types t) eqn:Hf.
    + rewrite decide_False by discriminate. reflexivity.
    + rewrite decide_True by reflexivity.
      unfold append_components, add_components. cbn.
      by rewrite <- app_assoc.
Qed.

Lemma filtered_out_false types t :
  filtered_out types t = false ↔ types = ∅ ∨ t ∈ types.
Proof.
  unfold filtered_out.
  destruct (decide (types = ∅)) as [->|Hne].
  - rewrite bool_decide_eq_true_2 by reflexivity. cbn. naive_solver.
  - rewrite (bool_decide_eq_false_2 _ Hne). cbn.
    destruct (decide (t ∈ types)) as [Hin|Hout].
    + rewrite bool_decide_eq_true_2 by done. cbn. naive_solver.
    + rewrite bool_decide_eq_false_2 by done. cbn.
      split; [discriminate | intros [?|?]; done].
Qed.

(** The loop of the flat [AddEntityToMessage] over the types asked for,
    when the storage has the components of the entity: one message for
    each of the types that the entity has. *)
Lemma AddEntityToMessage_present_loop s e (comps : gset ComponentTypeId)
    (l : list ComponentTypeId) (m : msgs.SerializedEntity) :
  (∀ t, t ∈ comps → is_Some (ComponentImplementation s e t)) →
  foldlM (λ entityMsg t,
            if negb (bool_decide (t ∈ comps)) then Some entityMsg
            else
              compBase ← ComponentImplementation s e t;
              Some (add_components entityMsg
                      {| msgs.type := TypeId compBase;
                         msgs.component := Serialize compBase;
                         msgs.remove := false |}))
         m l
  = Some (append_components m
            (component_snapshot s e <$> filter (λ t, t ∈ comps) l)).
Proof.
  intros Hstore. revert m. induction l as [|t l IH]; intros m.
  - cbn. destruct m. unfold append_components. cbn. by rewrite app_nil_r.
  - cbn [foldlM]. rewrite filter_cons.
    destruct (decide (t ∈ comps)) as [Ht|Ht].
    + rewrite bool_decide_eq_true_2 by exact Ht. cbn [negb].
      destruct (Hstore t Ht) as [comp Hcomp]. rewrite Hcomp.
      cbn [mbind option_bind]. rewrite IH. rewrite fmap_cons.
      unfold component_snapshot at 2. rewrite Hcomp.
      unfold append_components, add_components. cbn.
      by rewrite <- app_assoc.
    + rewrite bool_decide_eq_false_2 by exact Ht. cbn [negb]. apply IH.
Qed.

(** C5, as the code has it: the flat [AddEntityToMessage], for an entity
    of the index whose components are all in the storage, appends one
    entity message.  Its component messages are first the ones of the
    components the entity has among the types asked for, each with
    [remove = false], and then exactly one for every component type
    recorded as removed for the entity that the types filter does not
    exclude, in the order of the set: it has the type id of the removed
    component, [remove = true], and the one-character string of a single
    space as its content.  For an entity that has no entry in the index
    the function returns before: the message holds the id only, and no
    removal message. *)
Theorem AddEntityToMessage_removed_components s msg e types :
  (entityComponents s !! e = None →
   AddEntityToMessage s msg e types
   = Some (msg ++ [ {| msgs.id := e; msgs.entity_remove := false;
                       msgs.components := [] |} ]))
  ∧ (∀ comps,
       entityComponents s !! e = Some comps →
       (∀ t, t ∈ comps → is_Some (ComponentImplementation s e t)) →
       let present :=
         filter (λ t, t ∈ comps)
                (elements (if bool_decide (types = ∅) then comps else types)) in
       let removed :=
         filter (λ t, types = ∅ ∨ t ∈ types)
                (elements (default ∅ (removedComponents s !! e))) in
       AddEntityToMessage s msg e types
       = Some (msg ++
                 [ {| msgs.id := e;
                      msgs.entity_remove :=
                        bool_decide (e ∈ toRemoveEntities s);
                      msgs.components :=
                        (component_snapshot s e <$> present)
                        ++ ((λ t, {| msgs.type := t; msgs.component := " ";
                                     msgs.remove := true |}) <$> removed) |} ])
       ∧ NoDup removed
       ∧ (∀ t, t ∈ removed ↔
               t ∈ default ∅ (removedComponents s !! e)
               ∧ (types = ∅ ∨ t ∈ types))
       ∧ (∀ t, t ∈ present →
               msgs.remove (component_snapshot s e t) = false)).
Proof.
  split.
  - intros Hidx. unfold AddEntityToMessage. by rewrite Hidx.
  - intros comps Hidx Hstore. cbv zeta. split; [|split; [|split]].
    + unfold AddEntityToMessage. rewrite Hidx. cbv zeta.
      rewrite (AddEntityToMessage_present_loop s e comps) by exact Hstore.
      cbn [mbind option_bind]. do 2 f_equal. f_equal.
      unfold SetRemovedComponentsMsgs.
      destruct (removedComponents s !! e) as [removed|]; cbn [default].
      * rewrite SetRemovedComponentsMsgs_loop.
        assert (Hfilter :
          filter (λ t, filtered_out types t = false) (elements removed)
          = filter (λ t, types = ∅ ∨ t ∈ types) (elements removed)).
        { apply list_filter_iff. intros t. apply filtered_out_false. }
        rewrite Hfilter. unfold append_components.
        by destruct (bool_decide (e ∈ toRemoveEntities s)).
      * rewrite elements_empty, filter_nil, fmap_nil, app_nil_r.
        unfold append_components.
        by destruct (bool_decide (e ∈ toRemoveEntities s)).
    + apply NoDup_filter, NoDup_elements.
    + intros t. rewrite list_elem_of_filter, elem_of_elements. tauto.
    + intros t [Ht _]%list_elem_of_filter. unfold component_snapshot.
      by destruct (Hstore t Ht) as [comp ->].
Qed.

End removed_components.

Section map_form.
Context {P V : Type}.
Context `{!BaseComponent P} `{!Factory P} `{!BaseView V} `{!Declarations}.
Implicit Types s : ECM P V.

Lemma foldlM_invariant {A B : Type} (I : A → Prop) (f : A → B → option A)
    (l : list B) (a a' : A) :
  (∀ a x a', I a → f a x = Some a' → I a') →
  I a → foldlM f a l = Some a' → I a'.
Proof.
  intros Hstep. revert a. induction l as [|x l IH]; intros a Ha Hrun.
  - injection Hrun as <-. exact Ha.
  - cbn in Hrun. destruct (f a x) as [a1|] eqn:Hf; [|discriminate].
    cbn in Hrun. eapply IH; [|exact Hrun]. eapply Hstep; eassumption.
Qed.

(** Where [noChange] has a result, it is the negation of "the pair is in
    the one-time set or in the periodic set". *)
Lemma noChange_defined s e t b :
  noChange s e t = Some b →
  b = negb (changed_mem (oneTimeChangedComponents s) t e
            || changed_mem (periodicChangedComponents s) t e).
Proof.
  unfold noChange, changed_mem.
  destruct (oneTimeChangedComponents s !! t) as [xs|] eqn:Hone; cbn.
  - destruct (bool_decide (e ∈ xs)); cbn; [congruence|].
    destruct (periodicChangedComponents s !! t); cbn; [discriminate|congruence].
  - destruct (periodicChangedComponents s !! t); cbn; [discriminate|congruence].
Qed.

(** It has no result exactly when the pair is not in the one-time set
    and the periodic map has an entry for the type. *)
Lemma noChange_undefined s e t :
  noChange s e t = None ↔
  changed_mem (oneTimeChangedComponents s) t e = false
  ∧ is_Some (periodicChangedComponents s !! t).
Proof.
  unfold noChange, changed_mem.
  destruct (oneTimeChangedComponents s !! t) as [xs|] eqn:Hone; cbn.
  - destruct (bool_decide (e ∈ xs)); cbn.
    + split; [discriminate | intros [? _]; discriminate].
    + destruct (periodicChangedComponents s !! t); cbn.
      * split; [eauto | reflexivity].
      * split; [discriminate | intros [_ [? ?]]; discriminate].
  - destruct (periodicChangedComponents s !! t); cbn.
    + split; [eauto | reflexivity].
    + split; [discriminate | intros [_ [? ?]]; discriminate].
Qed.

Lemma ensure_entity_lookup_ne (m : gmap Entity msgs.SerializedEntityMap)
    (e e' : Entity) :
  e ≠ e' → ensure_entity m e' !! e = m !! e.
Proof.
  intros Hne. unfold ensure_entity.
  destruct (m !! e'); [reflexivity|]. by rewrite lookup_insert_ne.
Qed.

Lemma SetRemovedComponentsMsgs_map_lookup_ne s e e' msg types :
  e ≠ e' →
  msgs.entities (SetRemovedComponentsMsgs_map s e' msg types) !! e
  = msgs.entities msg !! e.
Proof.
  intros Hne. unfold SetRemovedComponentsMsgs_map.
  destruct (removedComponents s !! e') as [removed|]; [|reflexivity].
  destruct (bool_decide (size removed = 0%nat)); [reflexivity|]. cbn.
  rewrite <- (ensure_entity_lookup_ne (msgs.entities msg) e e' Hne).
  generalize (ensure_entity (msgs.entities msg) e') as ents.
  induction (elements removed) as [|t l IH]; intros ents; [reflexivity|].
  cbn [foldl]. rewrite IH.
  destruct (filtered_out types t); [reflexivity|].
  by rewrite lookup_alter_ne.
Qed.

(** The call for an entity writes to the entry of that entity only. *)
Lemma AddEntityToMessage_map_lookup_ne s e e' msg msg' types full :
  e ≠ e' →
  AddEntityToMessage_map s msg e' types full = Some msg' →
  msgs.entities msg' !! e = msgs.entities msg !! e.
Proof.
  intros Hne. unfold AddEntityToMessage_map.
  destruct (entityComponents s !! e') as [comps|]; [|congruence].
  match goal with
  | |- context [foldlM ?f ?a ?l] =>
      destruct (foldlM f a l) as [ents|] eqn:Hloop; [|discriminate]
  end.
  cbn. intros [= <-].
  rewrite SetRemovedComponentsMsgs_map_lookup_ne by exact Hne. cbn.
  revert Hloop.
  apply (foldlM_invariant (λ ents, ents !! e = msgs.entities msg !! e)).
  - intros a t a' Ha.
    destruct (negb (bool_decide (t ∈ comps))); [congruence|].
    destruct (if negb full then noChange s e' t else Some false)
      as [[|]|]; cbn; [congruence| |discriminate].
    destruct (ComponentImplementation s e' t); cbn; [|discriminate].
    intros [= <-]. rewrite lookup_alter_ne by done.
    by rewrite ensure_entity_lookup_ne.
  - destruct (bool_decide (e' ∈ toRemoveEntities s)); [|reflexivity].
    rewrite lookup_alter_ne by done. by apply ensure_entity_lookup_ne.
Qed.

Lemma AddEntityToMessage_map_no_index s e msg types full :
  entityComponents s !! e = None →
  AddEntityToMessage_map s msg e types full = Some msg.
Proof. intros He. unfold AddEntityToMessage_map. by rewrite He. Qed.

Lemma AddEntityToMessage_map_frame s e e' msg msg' types full :
  entityComponents s !! e = None →
  AddEntityToMessage_map s msg e' types full = Some msg' →
  msgs.entities msg' !! e = msgs.entities msg !! e.
Proof.
  intros He Hadd. destruct (decide (e = e')) as [<-|Hne].
  - rewrite AddEntityToMessage_map_no_index in Hadd by exact He.
    by injection Hadd as <-.
  - eapply AddEntityToMessage_map_lookup_ne; eassumption.
Qed.

Lemma AddEntityToMessage_map_loop_frame s e (l : list Entity) types full
    msg msg' :
  entityComponents s !! e = None →
  foldlM (λ m e', AddEntityToMessage_map s m e' types full) msg l = Some msg' →
  msgs.entities msg' !! e = msgs.entities msg !! e.
Proof.
  intros He.
  apply (foldlM_invariant
           (λ m, msgs.entities m !! e = msgs.entities msg !! e));
    [|reflexivity].
  intros a e' a' Ha Hadd. rewrite <- Ha.
  eapply AddEntityToMessage_map_frame; eassumption.
Qed.

Lemma ChangedState_map_frame s e state state' :
  entityComponents s !! e = None →
  ChangedState_map s state = Some state' →
  msgs.entities state' !! e = msgs.entities state !! e.
Proof.
  intros He. unfold ChangedState_map.
  destruct (foldlM _ state (elements (newlyCreatedEntities s)))
    as [m1|] eqn:H1; [|discriminate]. cbn.
  destruct (foldlM _ m1 (elements (toRemoveEntities s)))
    as [m2|] eqn:H2; [|discriminate]. cbn.
  intros H3.
  rewrite (AddEntityToMessage_map_loop_frame _ _ _ _ _ _ _ He H3).
  rewrite (AddEntityToMessage_map_loop_frame _ _ _ _ _ _ _ He H2).
  exact (AddEntityToMessage_map_loop_frame _ _ _ _ _ _ _ He H1).
Qed.

Lemma CalculateStateThreadLoad_entityComponents s s' :
  CalculateStateThreadLoad s = Some s' →
  entityComponents s' = entityComponents s.
Proof.
  unfold CalculateStateThreadLoad.
  destruct (negb (entityComponentsDirty s)); [by intros [= <-]|].
  cbv zeta. destruct (_ =? 0)%Z; [discriminate|]. by intros [= <-].
Qed.

(** [State] writes to the manager only the flag of the index, the
    iterators and the console. *)
Lemma State_map_manager s state ents types full :
  (State_map s state ents types full).1 = s
  ∨ ∃ its m,
      (State_map s state ents types full).1
      = with_entityComponentIterators its
          (log m (with_entityComponentsDirty false s)).
Proof.
  unfold State_map, CalculateStateThreadLoad.
  destruct (negb (entityComponentsDirty s)); [by left|].
  cbv zeta. destruct (_ =? 0)%Z; [by left|]. right. by eexists _, _.
Qed.

Lemma State_functor_frame s e ents types full itStart itEnd threadMap :
  entityComponents s !! e = None →
  State_functor s ents types full itStart itEnd = Some threadMap →
  msgs.entities threadMap !! e = None.
Proof.
  intros He. unfold State_functor.
  destruct (bool_decide _); [|discriminate].
  apply (foldlM_invariant (λ m, msgs.entities m !! e = None));
    [|reflexivity].
  intros a e' a' Ha.
  destruct (bool_decide (ents = ∅) || bool_decide (e' ∈ ents)).
  - intros Hadd. rewrite <- Ha.
    eapply AddEntityToMessage_map_frame; eassumption.
  - congruence.
Qed.

Lemma State_merge_frame state threadMap e :
  msgs.entities threadMap !! e = None →
  msgs.entities (State_merge state threadMap) !! e = msgs.entities state !! e.
Proof.
  intros He. unfold State_merge. cbn.
  assert (Hkeys : ∀ kv, kv ∈ map_to_list (msgs.entities threadMap) → kv.1 ≠ e).
  { intros [k v] Hkv Hk. cbn in Hk. subst k.
    apply elem_of_map_to_list in Hkv. congruence. }
  revert Hkeys. generalize (msgs.entities state) as ents.
  induction (map_to_list (msgs.entities threadMap)) as [|kv l IH];
    intros ents Hkeys; [reflexivity|].
  cbn [foldl]. rewrite IH.
  - apply lookup_insert_ne. apply Hkeys. left.
  - intros kv' Hkv'. apply Hkeys. by right.
Qed.

Lemma State_workers_frame s e ents types full its state state' :
  entityComponents s !! e = None →
  State_workers s ents types full its state = Some state' →
  msgs.entities state' !! e = msgs.entities state !! e.
Proof.
  intros He. revert state.
  induction its as [|itStart its IH]; intros state; [by intros [= <-]|].
  destruct its as [|itEnd its]; [by intros [= <-]|].
  cbn [State_workers].
  destruct (State_functor s ents types full itStart itEnd)
    as [threadMap|] eqn:Hf; [|discriminate].
  cbn. intros Hrest. rewrite (IH _ Hrest).
  apply State_merge_frame. eapply State_functor_frame; eassumption.
Qed.

(** C10: for an entity with no entry in [entityComponents], the map form
    of [AddEntityToMessage] returns the message it was given; and every
    message that the map form of [ChangedState] or of [State] produces
    holds for that entity what the given message held (nothing, when
    the given message had no such entity), whether or not the entity is
    new or marked for removal. *)
Theorem AddEntityToMessage_map_skips_entity_without_components s e :
  entityComponents s !! e = None →
  (∀ msg types full, AddEntityToMessage_map s msg e types full = Some msg)
  ∧ (∀ state state',
       ChangedState_map s state = Some state' →
       msgs.entities state' !! e = msgs.entities state !! e)
  ∧ (∀ state ents types full state',
       (State_map s state ents types full).2 = Some state' →
       msgs.entities state' !! e = msgs.entities state !! e).
Proof.
  intros He. split; [|split].
  - intros msg types full. by apply AddEntityToMessage_map_no_index.
  - intros state state'. by apply ChangedState_map_frame.
  - intros state ents types full state' Hrun.
    unfold State_map in Hrun.
    destruct (CalculateStateThreadLoad s) as [s1|] eqn:Hload;
      [|discriminate].
    cbn [snd] in Hrun.
    destruct (entityComponentIterators s1) as [|it its] eqn:Hits;
      [discriminate|].
    eapply State_workers_frame; [|exact Hrun].
    by rewrite (CalculateStateThreadLoad_entityComponents s s1).
Qed.

End map_form.

(** ** The entity graph of a reachable state *)

Section graph_facts.

Lemma elem_of_map_emplace (k x : N) (l : list N) :
  x ∈ graph.map_emplace k l ↔ x = k ∨ x ∈ l.
Proof.
  induction l as [|y l IH]; cbn.
  - rewrite list_elem_of_singleton. set_solver.
  - destruct (k <? y) eqn:Hlt; [set_solver|].
    destruct (k =? y) eqn:Heq.
    + apply N.eqb_eq in Heq as ->. set_solver.
    + rewrite !elem_of_cons, IH. naive_solver.
Qed.

Lemma elem_of_AdjacentsTo (g : EntityGraph) (v p : N) :
  p ∈ graph.AdjacentsTo g v ↔ (p, v) ∈ graph.edges g.
Proof.
  unfold graph.AdjacentsTo.
  assert (Hgen : ∀ acc,
    p ∈ foldl (λ acc e, if e.2 =? v then graph.map_emplace e.1 acc else acc)
          acc (graph.edges g)
    ↔ p ∈ acc ∨ (p, v) ∈ graph.edges g).
  { induction (graph.edges g) as [|[a b] l IH]; intros acc; cbn [foldl].
    - set_solver.
    - rewrite IH. cbn. destruct (b =? v) eqn:Hb.
      + apply N.eqb_eq in Hb as ->. rewrite elem_of_map_emplace.
        rewrite elem_of_cons. naive_solver.
      + apply N.eqb_neq in Hb. rewrite elem_of_cons. naive_solver. }
  rewrite Hgen. set_solver.
Qed.

Lemma elem_of_remove_first (x y : N * N) (l : list (N * N)) :
  NoDup l → y ∈ graph.remove_first x l ↔ y ∈ l ∧ y ≠ x.
Proof.
  induction 1 as [|z l Hz Hl IH]; cbn.
  - set_solver.
  - destruct (decide (z = x)) as [->|Hne].
    + rewrite bool_decide_eq_true_2 by reflexivity.
      rewrite elem_of_cons. split.
      * intros Hy. split; [by right|]. by intros ->.
      * intros [[->|Hy] Hyx]; done.
    + rewrite bool_decide_eq_false_2 by done.
      rewrite !elem_of_cons, IH. naive_solver.
Qed.

Lemma NoDup_remove_first (x : N * N) (l : list (N * N)) :
  NoDup l → NoDup (graph.remove_first x l).
Proof.
  induction 1 as [|z l Hz Hl IH]; cbn; [constructor|].
  destruct (bool_decide (z = x)); [exact Hl|].
  constructor; [|exact IH].
  rewrite elem_of_remove_first by exact Hl. tauto.
Qed.

(** The loop of [SetParentEntity] over the parents: on a graph with no
    repeated edge, every edge from one of them to the child is gone and
    the others stay. *)
Lemma remove_parent_edges (child : N) (parents : list N) (g : EntityGraph) :
  NoDup (graph.edges g) →
  let g' := foldl (λ g p, graph.RemoveEdge g (graph.EdgeFromVertices g p child))
              g parents in
  NoDup (graph.edges g')
  ∧ graph.vertices g' = graph.vertices g
  ∧ ∀ y, y ∈ graph.edges g' ↔
         y ∈ graph.edges g ∧ ¬ (y.2 = child ∧ y.1 ∈ parents).
Proof.
  revert g. induction parents as [|p parents IH]; intros g Hg; cbn zeta.
  - cbn. split; [exact Hg|]. split; [reflexivity|]. set_solver.
  - cbn [foldl].
    set (g1 := graph.RemoveEdge g (graph.EdgeFromVertices g p child)).
    assert (H1 : NoDup (graph.edges g1)
                 ∧ graph.vertices g1 = graph.vertices g
                 ∧ ∀ y, y ∈ graph.edges g1 ↔
                        y ∈ graph.edges g ∧ y ≠ (p, child)).
    { unfold g1, graph.EdgeFromVertices.
      destruct (decide ((p, child) ∈ graph.edges g)) as [Hin|Hout].
      - rewrite bool_decide_eq_true_2 by done. cbn.
        split; [by apply NoDup_remove_first|]. split; [reflexivity|].
        intros y. by apply elem_of_remove_first.
      - rewrite bool_decide_eq_false_2 by done. cbn.
        split; [exact Hg|]. split; [reflexivity|].
        intros y. split; [|tauto]. intros Hy. split; [exact Hy|].
        by intros ->. }
    destruct H1 as (Hnd1 & Hv1 & He1).
    destruct (IH g1 Hnd1) as (Hnd & Hv & He).
    split; [exact Hnd|]. split; [congruence|].
    intros [a b]. rewrite He, He1. cbn. rewrite elem_of_cons.
    split.
    + intros [[Hy Hne] Hnot]. split; [exact Hy|].
      intros [-> [->|Hin]]; [by apply Hne | by apply Hnot].
    + intros [Hy Hnot]. split; [split; [exact Hy|] |].
      * intros [= -> ->]. apply Hnot. split; [reflexivity | by left].
      * intros [-> Hin]. apply Hnot. split; [reflexivity | by right].
Qed.

Lemma NoDup_RemoveVertex (g : EntityGraph) (v : N) :
  NoDup (graph.edges g) → NoDup (graph.edges (graph.RemoveVertex g v)).
Proof.
  intros Hg. unfold graph.RemoveVertex.
  destruct (bool_decide (v ∈ graph.vertices g)); [|exact Hg].
  cbn. by apply NoDup_filter.
Qed.

Lemma AddVertex_edges (g : EntityGraph) (v : N) :
  graph.edges (graph.AddVertex g v).1 = graph.edges g.
Proof.
  unfold graph.AddVertex.
  destruct (v =? kNullId); cbn;
    repeat match goal with
           | |- context [if ?b then _ else _] => destruct b
           end; reflexivity.
Qed.

(** *** The fuel of [BreadthFirstSort] is enough

    Every turn of the loop takes a vertex off the pending list, and a
    vertex is expanded only once: the length of the pending list plus
    the number of edges whose tail is not yet visited goes down at every
    turn. *)

Lemma length_map_emplace (k : N) (l : list N) :
  (length (graph.map_emplace k l) ≤ S (length l))%nat.
Proof.
  induction l as [|x l IH]; cbn; [lia|].
  destruct (k <? x); cbn; [lia|]. destruct (k =? x); cbn; lia.
Qed.

Lemma length_AdjacentsFrom (g : EntityGraph) (v : N) :
  (length (graph.AdjacentsFrom g v)
   ≤ length (filter (λ e, e.1 = v) (graph.edges g)))%nat.
Proof.
  unfold graph.AdjacentsFrom.
  assert (Hgen : ∀ acc,
    (length (foldl (λ acc e, if N.eqb e.1 v then graph.map_emplace e.2 acc
                             else acc) acc (graph.edges g))
     ≤ length acc + length (filter (λ e, e.1 = v) (graph.edges g)))%nat).
  { induction (graph.edges g) as [|[a b] l IH]; intros acc; cbn [foldl].
    - cbn. lia.
    - rewrite filter_cons. cbn [fst snd].
      destruct (a =? v) eqn:Ha.
      + apply N.eqb_eq in Ha. rewrite decide_True by exact Ha.
        pose proof (IH (graph.map_emplace b acc)).
        pose proof (length_map_emplace b acc). cbn [length]. lia.
      + apply N.eqb_neq in Ha. rewrite decide_False by exact Ha. apply IH. }
  apply (Hgen []).
Qed.

Lemma unvisited_edges_visit (l : list (N * N)) (visited : list N) (v : N) :
  v ∉ visited →
  (length (filter (λ e, e.1 ∉ visited ++ [v]) l)
   + length (filter (λ e, e.1 = v) l)
   = length (filter (λ e, e.1 ∉ visited) l))%nat.
Proof.
  intros Hv. induction l as [|[a b] l IH]; [reflexivity|].
  rewrite !filter_cons. cbn [fst].
  destruct (decide (a = v)) as [->|Hne].
  - rewrite decide_False, decide_True by set_solver.
    cbn [length]. lia.
  - destruct (decide (a ∈ visited)) as [Hin|Hout].
    + rewrite !decide_False by set_solver. exact IH.
    + rewrite !decide_True by set_solver. cbn [length]. lia.
Qed.

Lemma BreadthFirstSort_loop_fuel (g : EntityGraph) (fuel1 fuel2 : nat)
    (visited pending : list N) :
  (length pending
   + length (filter (λ e, e.1 ∉ visited) (graph.edges g)) < fuel1)%nat →
  (length pending
   + length (filter (λ e, e.1 ∉ visited) (graph.edges g)) < fuel2)%nat →
  graph.BreadthFirstSort_loop fuel1 g visited pending
  = graph.BreadthFirstSort_loop fuel2 g visited pending.
Proof.
  revert fuel2 visited pending.
  induction fuel1 as [|fuel1 IH]; intros fuel2 visited pending H1 H2; [lia|].
  destruct fuel2 as [|fuel2]; [lia|].
  cbn [graph.BreadthFirstSort_loop].
  destruct pending as [|v rest]; [reflexivity|].
  cbn [length] in H1, H2.
  destruct (decide (v ∈ visited)) as [Hin|Hout].
  - rewrite bool_decide_eq_true_2 by exact Hin. apply IH; lia.
  - rewrite bool_decide_eq_false_2 by exact Hout.
    pose proof (length_AdjacentsFrom g v).
    pose proof (unvisited_edges_visit (graph.edges g) visited v Hout).
    apply IH; rewrite length_app; lia.
Qed.

(** More fuel than [BreadthFirstSort] takes gives the same vertices. *)
Lemma BreadthFirstSort_fuel (g : EntityGraph) (from : N) (fuel : nat) :
  (S (length (graph.edges g)) < fuel)%nat →
  graph.BreadthFirstSort_loop fuel g [] [from] = graph.BreadthFirstSort g from.
Proof.
  intros Hfuel. unfold graph.BreadthFirstSort.
  pose proof (length_filter (λ e : N * N, e.1 ∉ @nil N) (graph.edges g)).
  apply BreadthFirstSort_loop_fuel; cbn [length]; lia.
Qed.

End graph_facts.

Section reachable_graph.
Context {P V : Type}.
Context `{!BaseComponent P} `{!Factory P} `{!BaseView V} `{!Declarations}.
Implicit Types s : ECM P V.

Lemma AddModifiedComponent_entities s e :
  entities (AddModifiedComponent s e) = entities s.
Proof. unfold AddModifiedComponent. break_match; reflexivity. Qed.

Lemma RemoveComponent_entities s e t :
  entities (RemoveComponent s e t).1 = entities s.
Proof.
  unfold RemoveComponent. break_match;
    rewrite ?AddModifiedComponent_entities; reflexivity.
Qed.

Lemma CreateComponentImplementation_entities s e t data :
  entities (CreateComponentImplementation s e t data).1 = entities s.
Proof.
  unfold CreateComponentImplementation. break_match;
    rewrite ?AddModifiedComponent_entities; reflexivity.
Qed.

Lemma SetChanged_entities s e t c :
  entities (SetChanged s e t c) = entities s.
Proof.
  unfold SetChanged. break_match;
    rewrite ?AddModifiedComponent_entities; reflexivity.
Qed.

Lemma RequestRemoveEntity_entities s e recursive s' :
  RequestRemoveEntity s e recursive = Some s' → entities s' = entities s.
Proof.
  unfold RequestRemoveEntity.
  destruct (if negb recursive then _ else _); cbn [mbind option_bind];
    [|discriminate].
  by intros [= <-].
Qed.

Lemma CreateEntityImplementation_edges s e :
  graph.edges (entities (CreateEntityImplementation s e).1)
  = graph.edges (entities s).
Proof.
  unfold CreateEntityImplementation. break_match; apply AddVertex_edges.
Qed.

Lemma CreateEntity_edges s :
  graph.edges (entities (CreateEntity s).1) = graph.edges (entities s).
Proof.
  unfold CreateEntity. break_match; [reflexivity|].
  by rewrite CreateEntityImplementation_edges.
Qed.

Lemma SetState_component_entities s e compMsg :
  entities (SetState_component s e compMsg) = entities s.
Proof.
  unfold SetState_component. break_match;
    rewrite ?CreateComponentImplementation_entities,
            ?RemoveComponent_entities; reflexivity.
Qed.

Lemma SetState_map_component_entities s e one_time compIter :
  entities (SetState_map_component s e one_time compIter) = entities s.
Proof.
  unfold SetState_map_component, deserialize_in_place. break_match;
    rewrite ?CreateComponentImplementation_entities,
            ?RemoveComponent_entities, ?SetChanged_entities; reflexivity.
Qed.

Lemma foldl_entities {A : Type} (f : ECM P V → A → ECM P V) (l : list A) s :
  (∀ s x, entities (f s x) = entities s) →
  entities (foldl f s l) = entities s.
Proof.
  intros Hf. revert s. induction l as [|x l IH]; intros s; [reflexivity|].
  cbn [foldl]. by rewrite IH.
Qed.

Lemma SetState_entity_edges s entityMsg s' :
  SetState_entity s entityMsg = Some s' →
  graph.edges (entities s') = graph.edges (entities s).
Proof.
  unfold SetState_entity.
  destruct (msgs.entity_remove entityMsg).
  - intros Hr. by rewrite (RequestRemoveEntity_entities _ _ _ _ Hr).
  - intros [= <-].
    rewrite foldl_entities by (intros; apply SetState_component_entities).
    destruct (negb (HasEntity s (msgs.id entityMsg))); [|reflexivity].
    apply CreateEntityImplementation_edges.
Qed.

Lemma SetState_map_entity_edges one_time s iter s' :
  SetState_map_entity one_time s iter = Some s' →
  graph.edges (entities s') = graph.edges (entities s).
Proof.
  unfold SetState_map_entity.
  destruct (msgs.map_remove iter.2).
  - intros Hr. by rewrite (RequestRemoveEntity_entities _ _ _ _ Hr).
  - intros [= <-].
    rewrite foldl_entities by (intros; apply SetState_map_component_entities).
    destruct (negb (HasEntity s (msgs.map_id iter.2))); [|reflexivity].
    apply CreateEntityImplementation_edges.
Qed.

Lemma ProcessRemoveEntityRequests_one_NoDup s e :
  NoDup (graph.edges (entities s)) →
  NoDup (graph.edges (entities (ProcessRemoveEntityRequests_one s e))).
Proof.
  intros Hs. unfold ProcessRemoveEntityRequests_one.
  destruct (negb (HasEntity s e)); [exact Hs|].
  ecm_simpl. destruct (entityComponents s !! e); ecm_simpl;
    by apply NoDup_RemoveVertex.
Qed.

Lemma ProcessRemoveEntityRequests_NoDup s :
  NoDup (graph.edges (entities s)) →
  NoDup (graph.edges (entities (ProcessRemoveEntityRequests s))).
Proof.
  intros Hs. unfold ProcessRemoveEntityRequests.
  destruct (removeAllEntities s); ecm_simpl; [constructor|].
  match goal with |- context [foldl _ _ ?l'] => generalize l' as l end.
  intros l. revert s Hs. induction l as [|e l IH]; intros s Hs; [exact Hs|].
  cbn [foldl]. apply IH. by apply ProcessRemoveEntityRequests_one_NoDup.
Qed.

Lemma SetParentEntity_NoDup s child parent :
  NoDup (graph.edges (entities s)) →
  NoDup (graph.edges (entities (SetParentEntity s child parent).1)).
Proof.
  intros Hs. unfold SetParentEntity.
  destruct (remove_parent_edges child
              (graph.AdjacentsTo (entities s) child) (entities s) Hs)
    as (Hnd & _ & Hin).
  set (g1 := foldl _ _ _) in *.
  destruct (parent =? kNullEntity); [exact Hnd|].
  unfold graph.AddEdge.
  destruct (_ && _); cbn; [|exact Hnd].
  apply NoDup_app. split; [exact Hnd|]. split; [|apply NoDup_singleton].
  intros y Hy ->%list_elem_of_singleton.
  apply Hin in Hy as [Hy Hnot]. apply Hnot. cbn.
  split; [reflexivity|]. by apply elem_of_AdjacentsTo.
Qed.

(** No edge of the graph of a reachable state is repeated. *)
Lemma exec_NoDup op s s' :
  NoDup (graph.edges (entities s)) → exec op s = Some s' →
  NoDup (graph.edges (entities s')).
Proof.
  intros Hs. destruct op; cbn [exec].
  - intros [= <-]. by rewrite CreateEntity_edges.
  - intros [= <-]. exact Hs.
  - intros [= <-]. exact Hs.
  - intros Hr. by rewrite (RequestRemoveEntity_entities _ _ _ _ Hr).
  - intros [= <-]. exact Hs.
  - intros [= <-]. by apply ProcessRemoveEntityRequests_NoDup.
  - intros [= <-]. by rewrite RemoveComponent_entities.
  - intros [= <-]. unfold EntityHasComponent. break_match; exact Hs.
  - intros [= <-]. by apply SetParentEntity_NoDup.
  - intros [= <-]. by rewrite CreateComponentImplementation_entities.
  - intros [= <-]. unfold AddView. break_match; exact Hs.
  - intros [= <-]. exact Hs.
  - destruct (State_map s state entities0 types full).2 eqn:Hst;
      [|discriminate].
    cbn [mbind option_bind]. intros [= <-].
    destruct (State_map_manager s state entities0 types full)
      as [->|(its & m & ->)]; exact Hs.
  - unfold SetState.
    apply (foldlM_invariant (λ s, NoDup (graph.edges (entities s))));
      [|exact Hs].
    intros a x a' Ha Hx. by rewrite (SetState_entity_edges _ _ _ Hx).
  - unfold SetState_map.
    apply (foldlM_invariant (λ s, NoDup (graph.edges (entities s))));
      [|exact Hs].
    intros a x a' Ha Hx. by rewrite (SetState_map_entity_edges _ _ _ _ Hx).
  - intros [= <-]. unfold Descendants. break_match; exact Hs.
  - intros [= <-]. exact Hs.
  - intros [= <-]. by rewrite SetChanged_entities.
  - intros [= <-]. unfold SetEntityCreateOffset. break_match; exact Hs.
Qed.

Lemma reachable_NoDup_edges s :
  reachable s → NoDup (graph.edges (entities s)).
Proof.
  induction 1 as [|s op s' _ IH Hop]; [constructor|].
  eapply exec_NoDup; eassumption.
Qed.

(** C8: in a reachable state, when the parent is not [kNullEntity] and
    the edge is created, [ParentEntity] of the child is the parent right
    after [SetParentEntity]; and after [SetParentEntity] with
    [kNullEntity], [ParentEntity] of the child is [kNullEntity]. *)
Theorem ParentEntity_SetParentEntity s child parent :
  reachable s →
  (parent ≠ kNullEntity →
   (SetParentEntity s child parent).2 = true →
   ParentEntity (SetParentEntity s child parent).1 child = parent)
  ∧ ParentEntity (SetParentEntity s child kNullEntity).1 child = kNullEntity.
Proof.
  intros Hs%reachable_NoDup_edges.
  destruct (remove_parent_edges child
              (graph.AdjacentsTo (entities s) child) (entities s) Hs)
    as (Hnd & _ & Hin).
  assert (Hnone : ∀ q,
    ¬ (q, child) ∈ graph.edges
        (foldl (λ g p, graph.RemoveEdge g (graph.EdgeFromVertices g p child))
           (entities s) (graph.AdjacentsTo (entities s) child))).
  { intros q Hq. apply Hin in Hq as [Hq Hnot]. apply Hnot. cbn.
    split; [reflexivity|]. by apply elem_of_AdjacentsTo. }
  unfold SetParentEntity, ParentEntity.
  set (g1 := foldl _ _ _) in *. clearbody g1. clear Hin.
  split.
  - intros Hp. apply N.eqb_neq in Hp. rewrite Hp.
    unfold graph.AddEdge. destruct (_ && _); cbn [fst snd]; [|discriminate].
    intros _.
    match goal with
    | |- context [graph.AdjacentsTo ?g child] =>
        destruct (graph.AdjacentsTo g child) as [|q l] eqn:Hadj
    end.
    + assert (Hmem : parent ∈ @nil N); [|inversion Hmem].
      rewrite <- Hadj. apply elem_of_AdjacentsTo. cbn.
      apply elem_of_app. right. by left.
    + assert (Hq : q ∈ q :: l) by left.
      rewrite <- Hadj in Hq. apply elem_of_AdjacentsTo in Hq. cbn in Hq.
      apply elem_of_app in Hq as [Hq|Hq%list_elem_of_singleton].
      * by apply Hnone in Hq.
      * congruence.
  - cbn.
    destruct (graph.AdjacentsTo g1 child) as [|q l] eqn:Hadj; [reflexivity|].
    assert (Hq : q ∈ q :: l) by left.
    rewrite <- Hadj in Hq. apply elem_of_AdjacentsTo in Hq.
    by apply Hnone in Hq.
Qed.

End reachable_graph.

(** ** The entity counter *)

Section entity_counter.
Context {P V : Type}.
Context `{!BaseComponent P} `{!Factory P} `{!BaseView V} `{!Declarations}.
Implicit Types s : ECM P V.

Lemma EntityCount_size s :
  EntityCount s = size (graph.vertices (entities s)).
Proof.
  unfold EntityCount, graph.Vertices.
  transitivity (length (elements (graph.vertices (entities s))));
    [|reflexivity].
  apply Permutation_length. apply merge_sort_Permutation.
Qed.

Lemma HasEntity_elem_of s e :
  HasEntity s e = true ↔ e ∈ graph.vertices (entities s) ∧ e ≠ kNullId.
Proof.
  unfold HasEntity, graph.VertexFromId.
  destruct (decide (e ∈ graph.vertices (entities s))) as [Hin|Hout].
  - rewrite bool_decide_eq_true_2 by done.
    rewrite negb_true_iff, N.eqb_neq. tauto.
  - rewrite bool_decide_eq_false_2 by done.
    rewrite N.eqb_refl. cbn. split; [discriminate | tauto].
Qed.

Lemma CreateEntityImplementation_entityCount s e :
  entityCount (CreateEntityImplementation s e).1 = entityCount s.
Proof. unfold CreateEntityImplementation. break_match; reflexivity. Qed.

Lemma CreateEntityImplementation_vertices s e :
  e ≠ kNullId →
  graph.vertices (entities (CreateEntityImplementation s e).1)
  = {[e]} ∪ graph.vertices (entities s).
Proof.
  intros He. unfold CreateEntityImplementation.
  assert (Hv : graph.vertices (graph.AddVertex (entities s) e).1
               = {[e]} ∪ graph.vertices (entities s)).
  { unfold graph.AddVertex. apply N.eqb_neq in He. rewrite He.
    cbn iota beta. rewrite He.
    destruct (decide (e ∈ graph.vertices (entities s))).
    - rewrite bool_decide_eq_true_2 by done. cbn. set_solver.
    - rewrite bool_decide_eq_false_2 by done. reflexivity. }
  break_match; cbn; exact Hv.
Qed.

Lemma CreateEntity_result s :
  (CreateEntity s).2 = (entityCount s + 1) mod UINT64_MOD
  ∧ entityCount (CreateEntity s).1 = (entityCount s + 1) mod UINT64_MOD.
Proof.
  unfold CreateEntity.
  destruct (_ =? UINT64_MAX) eqn:Hmax; [done|].
  rewrite CreateEntityImplementation_entityCount. split; [|reflexivity].
  unfold CreateEntityImplementation. break_match; reflexivity.
Qed.

(** Below the largest id but one, the id returned is the counter plus
    one, and so is the counter afterwards: a call returns an id strictly
    greater than the ones returned before it. *)
Lemma CreateEntity_next s :
  entityCount s < UINT64_MAX →
  (CreateEntity s).2 = entityCount s + 1
  ∧ entityCount (CreateEntity s).1 = entityCount s + 1.
Proof.
  intros Hlt. destruct (CreateEntity_result s) as [-> ->].
  unfold UINT64_MAX in Hlt. unfold UINT64_MOD.
  rewrite N.mod_small by lia. done.
Qed.

(** The call that brings the counter to the largest value returns that
    value, writes a warning and creates nothing. *)
Lemma CreateEntity_maximum s :
  entityCount s + 1 = UINT64_MAX →
  CreateEntity s
  = (log (WarnMaxEntities UINT64_MAX) (with_entityCount UINT64_MAX s),
     UINT64_MAX)
  ∧ EntityCount (CreateEntity s).1 = EntityCount s
  ∧ HasEntity (CreateEntity s).1 UINT64_MAX = false.
Proof.
  intros Hmax. unfold CreateEntity. rewrite Hmax. cbn.
  split; [reflexivity|]. split; [reflexivity|].
  apply not_true_is_false. rewrite HasEntity_elem_of. cbn.
  unfold kNullId. tauto.
Qed.

Lemma CreateEntity_times_succ (n : N) s :
  CreateEntity_times (N.succ n) s = (CreateEntity (CreateEntity_times n s)).1.
Proof. unfold CreateEntity_times. apply N.iter_succ. Qed.

Lemma CreateEntity_times_count (n : N) :
  n ≤ UINT64_MAX →
  entityCount (CreateEntity_times n (EntityComponentManager : ECM P V)) = n
  ∧ ∀ v, v ∈ graph.vertices
               (entities (CreateEntity_times n
                            (EntityComponentManager : ECM P V))) →
         1 ≤ v ≤ n.
Proof.
  unfold CreateEntity_times.
  induction n as [|n IH] using N.peano_ind; intros Hn.
  - cbn. split; [reflexivity|]. intros v Hv. set_solver.
  - rewrite N.iter_succ.
    destruct IH as [Hcount Hvs]; [lia|].
    set (s := N.iter n _ _) in *.
    assert (Hlt : entityCount s < UINT64_MAX) by lia.
    destruct (CreateEntity_next s Hlt) as [_ Hc].
    split; [lia|].
    intros v. unfold CreateEntity.
    assert (Hmod : (entityCount s + 1) mod UINT64_MOD = N.succ n).
    { unfold UINT64_MAX in Hlt. unfold UINT64_MOD.
      rewrite N.mod_small by lia. lia. }
    rewrite Hmod.
    destruct (N.succ n =? UINT64_MAX) eqn:Hmax.
    + cbn. intros Hv%Hvs. lia.
    + apply N.eqb_neq in Hmax.
      rewrite CreateEntityImplementation_vertices by exact Hmax.
      cbn. intros [->%elem_of_singleton|Hv%Hvs]%elem_of_union; lia.
Qed.

(** Past the largest value the counter wraps around. *)
Lemma CreateEntity_past_maximum s :
  entityCount s = UINT64_MAX →
  0 ∉ graph.vertices (entities s) →
  HasEntity s kNullEntity = false
  ∧ (CreateEntity s).2 = kNullEntity
  ∧ HasEntity (CreateEntity s).1 kNullEntity = true
  ∧ EntityCount (CreateEntity s).1 = S (EntityCount s)
  ∧ (CreateEntity (CreateEntity s).1).2 = 1.
Proof.
  intros Hcount Hzero.
  assert (Hs' : (CreateEntity s).1
                = (CreateEntityImplementation
                     (with_entityCount 0 s) kNullEntity).1).
  { unfold CreateEntity. rewrite Hcount. reflexivity. }
  assert (Hvs' : graph.vertices (entities (CreateEntity s).1)
                 = {[0]} ∪ graph.vertices (entities s)).
  { rewrite Hs'. by rewrite CreateEntityImplementation_vertices. }
  split.
  { apply not_true_is_false. rewrite HasEntity_elem_of. tauto. }
  split.
  { destruct (CreateEntity_result s) as [-> _]. rewrite Hcount.
    reflexivity. }
  split.
  { apply HasEntity_elem_of. rewrite Hvs'. split; [set_solver|done]. }
  split.
  { rewrite !EntityCount_size, Hvs'.
    rewrite size_union by set_solver. by rewrite size_singleton. }
  destruct (CreateEntity_result (CreateEntity s).1) as [-> _].
  destruct (CreateEntity_result s) as [_ ->]. rewrite Hcount.
  reflexivity.
Qed.

(** C7 on the code: a new manager and [2^64 - 1] calls of
    [CreateEntity].  The last of them returned the largest id and
    created nothing; the counter stays at the largest value, so the next
    call makes it wrap around: it returns [kNullEntity], which is not
    greater than the ids returned before, and creates that entity; the
    call after it returns 1, the id the first call returned. *)
Theorem CreateEntity_wraps_around :
  let new : ECM P V := EntityComponentManager in
  let before : ECM P V := before_maximum in
  let s : ECM P V := at_maximum in
  (CreateEntity new).2 = 1
  ∧ (CreateEntity before).2 = UINT64_MAX
  ∧ s = (CreateEntity before).1
  ∧ entityCount s = UINT64_MAX
  ∧ HasEntity s kNullEntity = false
  ∧ (CreateEntity s).2 = kNullEntity
  ∧ HasEntity (CreateEntity s).1 kNullEntity = true
  ∧ EntityCount (CreateEntity s).1 = S (EntityCount s)
  ∧ (CreateEntity (CreateEntity s).1).2 = 1.
Proof.
  assert (Hle : UINT64_MAX - 1 ≤ UINT64_MAX) by apply N.le_sub_l.
  destruct (CreateEntity_times_count UINT64_MAX (N.le_refl _))
    as [Hcount Hvs].
  destruct (CreateEntity_times_count (UINT64_MAX - 1) Hle) as [Hcount' _].
  assert (Hsucc : N.succ (UINT64_MAX - 1) = UINT64_MAX) by reflexivity.
  pose proof (CreateEntity_times_succ (UINT64_MAX - 1)
                (EntityComponentManager : ECM P V)) as Hstep.
  rewrite Hsucc in Hstep.
  intros new before s. subst new before s.
  unfold at_maximum, before_maximum.
  revert Hcount Hvs Hstep Hcount'.
  generalize (CreateEntity_times UINT64_MAX
                (EntityComponentManager : ECM P V)) as s.
  generalize (CreateEntity_times (UINT64_MAX - 1)
                (EntityComponentManager : ECM P V)) as before.
  intros before s Hcount Hvs Hstep Hcount'.
  split; [reflexivity|].
  split.
  { destruct (CreateEntity_result before) as [-> _]. rewrite Hcount'.
    reflexivity. }
  split; [exact Hstep|].
  split; [exact Hcount|].
  apply CreateEntity_past_maximum; [exact Hcount|].
  intros Hv%Hvs. lia.
Qed.

End entity_counter.

(** ** A snapshot and its application *)


Lemma foldlM_app {A B : Type} (f : A → B → option A) (a : A) (l1 l2 : list B) :
  foldlM f a (l1 ++ l2) = foldlM f a l1 ≫= λ a', foldlM f a' l2.
Proof.
  revert a. induction l1 as [|x l1 IH]; intros a; [reflexivity|].
  cbn. destruct (f a x) as [a'|]; cbn; [apply IH | reflexivity].
Qed.

Lemma foldlM_snoc {A B : Type} (f : A → B → option A) (a : A) (l : list B)
    (x : B) :
  foldlM f a (l ++ [x]) = foldlM f a l ≫= λ a', f a' x.
Proof.
  rewrite foldlM_app. destruct (foldlM f a l) as [a'|]; cbn; [|reflexivity].
  by destruct (f a' x).
Qed.

Section round_trip.
Context {P V : Type}.
Context `{!BaseComponent P} `{!Factory P} `{!BaseView V} `{!Declarations}.
Context `{!ComponentLaws P}.
Implicit Types s S : ECM P V.

(** *** What [State] writes for a state that is ready *)







(** *** What [SetState] does with it *)














(** *** The round trip *)





End round_trip.

(** ** The change ledgers and the descendant cache, path by path *)

Section ledgers.
Context {P V : Type}.
Context `{!BaseComponent P} `{!Factory P} `{!BaseView V} `{!Declarations}.
Implicit Types s : ECM P V.

Lemma changed_mem_erase (m : gmap N (gset N)) (k x : N) :
  changed_mem (changed_erase m k x) k x = false.
Proof.
  unfold changed_mem, changed_erase.
  destruct (m !! k) as [xs|] eqn:Hk.
  - rewrite lookup_insert_eq. apply bool_decide_eq_false_2. set_solver.
  - by rewrite Hk.
Qed.

Lemma AddModifiedComponent_ledgers s e :
  oneTimeChangedComponents (AddModifiedComponent s e)
  = oneTimeChangedComponents s
  ∧ periodicChangedComponents (AddModifiedComponent s e)
    = periodicChangedComponents s
  ∧ newlyCreatedEntities (AddModifiedComponent s e) = newlyCreatedEntities s
  ∧ toRemoveEntities (AddModifiedComponent s e) = toRemoveEntities s.
Proof. unfold AddModifiedComponent. break_match; done. Qed.

(** [SetChanged] keeps the two ledgers apart at the pair it is called
    for: whichever state it records, it erases the other. *)
Lemma SetChanged_exclusive s e t c comps :
  entityComponents s !! e = Some comps → t ∈ comps →
  changed_mem (oneTimeChangedComponents (SetChanged s e t c)) t e
  && changed_mem (periodicChangedComponents (SetChanged s e t c)) t e
  = false.
Proof.
  intros He Ht. unfold SetChanged. rewrite He.
  rewrite bool_decide_eq_true_2 by exact Ht. cbn [negb].
  match goal with
  | |- context [AddModifiedComponent ?s' e] =>
      destruct (AddModifiedComponent_ledgers s' e) as (-> & -> & _)
  end.
  destruct c; ecm_simpl; rewrite ?changed_mem_erase, ?andb_false_r; done.
Qed.

(** [AddModifiedComponent] never adds an entity that is new or marked
    for removal. *)
Lemma AddModifiedComponent_guard s e :
  (∀ x, x ∈ modifiedComponents s →
        (x ∉ newlyCreatedEntities s) ∧ (x ∉ toRemoveEntities s)) →
  ∀ x, x ∈ modifiedComponents (AddModifiedComponent s e) →
       (x ∉ newlyCreatedEntities (AddModifiedComponent s e))
       ∧ (x ∉ toRemoveEntities (AddModifiedComponent s e)).
Proof.
  intros Hinv x. unfold AddModifiedComponent.
  destruct (bool_decide (e ∈ newlyCreatedEntities s)) eqn:Hnew;
    [by apply Hinv|].
  destruct (bool_decide (e ∈ toRemoveEntities s)) eqn:Hrem;
    [by apply Hinv|].
  destruct (bool_decide (e ∈ modifiedComponents s)); [by apply Hinv|].
  ecm_simpl. apply bool_decide_eq_false in Hnew, Hrem.
  intros [->%elem_of_singleton|Hx]%elem_of_union; [done | by apply Hinv].
Qed.

(** The two paths that clear the descendant cache, and what a call of
    [Descendants] answers when the cache has no entry. *)
Lemma CreateEntityImplementation_descendantCache s e :
  descendantCache (CreateEntityImplementation s e).1 = ∅.
Proof. unfold CreateEntityImplementation. break_match; reflexivity. Qed.

Lemma ProcessRemoveEntityRequests_descendantCache s :
  descendantCache (ProcessRemoveEntityRequests s) = ∅.
Proof. reflexivity. Qed.

Lemma Descendants_miss s e :
  descendantCache s !! e = None → HasEntity s e = true →
  (Descendants s e).2
  = list_to_set (graph.BreadthFirstSort (entities s) e).
Proof. intros Hc He. unfold Descendants. by rewrite Hc, He. Qed.

Lemma SetParentEntity_descendantCache s child parent :
  descendantCache (SetParentEntity s child parent).1 = descendantCache s.
Proof. unfold SetParentEntity. break_match; reflexivity. Qed.

End ledgers.

(** * The entities that match a set of types *)

Section queries.
Context {P V : Type}.
Context `{!BaseComponent P} `{!Factory P} `{!BaseView V} `{!Declarations}.
Implicit Types s : ECM P V.

(** X1: [EntityMatches] answers true exactly when the entity has an entry in
    the index and every type asked for is one of its types; an entity
    without an entry matches no set of types, not even the empty one. *)
Theorem EntityMatches_subseteq s e types :
  EntityMatches s e types = true
  ↔ ∃ comps, entityComponents s !! e = Some comps ∧ types ⊆ comps.
Proof.
  unfold EntityMatches.
  destruct (entityComponents s !! e) as [comps|]; [|naive_solver].
  split.
  - case_bool_decide; [discriminate|]. intros Hall. exists comps.
    split; [done|]. rewrite forallb_forall in Hall. intros t Ht.
    apply elem_of_elements, list_elem_of_In, Hall in Ht.
    by apply bool_decide_eq_true in Ht.
  - intros (? & [= <-] & Hsub).
    rewrite bool_decide_eq_false_2.
    2: { apply subseteq_size in Hsub. lia. }
    apply forallb_forall. intros t Ht%list_elem_of_In%elem_of_elements.
    apply bool_decide_eq_true. by apply Hsub.
Qed.

End queries.

(** * Components: creation, removal and state *)

Section components.
Context {P V : Type}.
Context `{!BaseComponent P} `{!Factory P} `{!BaseView V} `{!Declarations}.
Implicit Types s : ECM P V.

Lemma changed_mem_insert (m : gmap N (gset N)) (k x : N) :
  changed_mem (changed_insert m k x) k x = true.
Proof.
  unfold changed_mem, changed_insert. rewrite lookup_insert_eq.
  apply bool_decide_eq_true. set_solver.
Qed.

Lemma changed_mem_insert_ne (m : gmap N (gset N)) (k x k' x' : N) :
  (k', x') ≠ (k, x) →
  changed_mem (changed_insert m k x) k' x' = changed_mem m k' x'.
Proof.
  intros Hne. unfold changed_mem, changed_insert.
  destruct (decide (k = k')) as [<-|Hk].
  - rewrite lookup_insert_eq.
    destruct (m !! k) as [xs|]; cbn.
    + apply bool_decide_ext. set_solver.
    + apply bool_decide_eq_false. set_solver.
  - by rewrite lookup_insert_ne.
Qed.

Lemma changed_mem_erase_ne (m : gmap N (gset N)) (k x k' x' : N) :
  (k', x') ≠ (k, x) →
  changed_mem (changed_erase m k x) k' x' = changed_mem m k' x'.
Proof.
  intros Hne. unfold changed_mem, changed_erase.
  destruct (m !! k) as [xs|] eqn:Hk; [|reflexivity].
  destruct (decide (k = k')) as [<-|Hkk].
  - rewrite lookup_insert_eq, Hk. apply bool_decide_ext. set_solver.
  - by rewrite lookup_insert_ne.
Qed.

Lemma changed_mem_erase_prune (m : gmap N (gset N)) (k x : N) :
  changed_mem (changed_erase_prune m k x) k x = false.
Proof.
  unfold changed_mem, changed_erase_prune.
  destruct (m !! k) as [xs|] eqn:Hk; [|by rewrite Hk].
  cbn zeta. case_bool_decide.
  - by rewrite lookup_delete_eq.
  - rewrite lookup_insert_eq. apply bool_decide_eq_false. set_solver.
Qed.

Lemma AddModifiedComponent_entityComponents s e :
  entityComponents (AddModifiedComponent s e) = entityComponents s.
Proof. unfold AddModifiedComponent. break_match; reflexivity. Qed.

Lemma ComponentState_of_AddModifiedComponent s x e t :
  ComponentState_of (AddModifiedComponent s x) e t = ComponentState_of s e t.
Proof. unfold AddModifiedComponent. break_match; reflexivity. Qed.

(** X2: [SetChanged] sets what [ComponentState] reads: the state asked for,
    for a component the entity has, and nothing otherwise; the state of
    every other component is as before. *)
Theorem SetChanged_ComponentState s e t c :
  ComponentState_of (SetChanged s e t c) e t
  = (if bool_decide (t ∈ ComponentTypes_of s e) then c else NoChange)
  ∧ ∀ e' t', (e', t') ≠ (e, t) →
      ComponentState_of (SetChanged s e t c) e' t' = ComponentState_of s e' t'.
Proof.
  unfold SetChanged, ComponentTypes_of.
  destruct (entityComponents s !! e) as [comps|] eqn:Hidx;
    cbn [default from_option id].
  2: { split; [|done]. unfold ComponentState_of. by rewrite Hidx. }
  destruct (decide (t ∈ comps)) as [Ht|Ht].
  2: { rewrite !bool_decide_eq_false_2 by done. cbn [negb].
       split; [|done]. unfold ComponentState_of. rewrite Hidx.
       rewrite bool_decide_eq_false_2 by done. reflexivity. }
  rewrite !bool_decide_eq_true_2 by done. cbn [negb].
  rewrite ComponentState_of_AddModifiedComponent.
  split.
  - unfold ComponentState_of. destruct c; ecm_simpl in *; rewrite Hidx;
      rewrite bool_decide_eq_true_2 by done; cbn [negb];
      rewrite ?changed_mem_insert, ?changed_mem_erase; reflexivity.
  - intros e' t' Hne.
    assert (Hne' : (t', e') ≠ (t, e)) by congruence.
    setoid_rewrite ComponentState_of_AddModifiedComponent.
    unfold ComponentState_of. destruct c; ecm_simpl;
      rewrite ?changed_mem_insert_ne, ?changed_mem_erase_ne by done;
      reflexivity.
Qed.

Lemma HasEntity_entities s s' e :
  entities s' = entities s → HasEntity s' e = HasEntity s e.
Proof. unfold HasEntity. by intros ->. Qed.

Lemma EntityHasComponentType_ext s s' e t :
  entities s' = entities s →
  entityComponents s' !! e = entityComponents s !! e →
  EntityHasComponentType s' e t = EntityHasComponentType s e t.
Proof.
  intros Hg Hidx. unfold EntityHasComponentType.
  by rewrite (HasEntity_entities _ _ _ Hg), Hidx.
Qed.

(** X3: [EntityHasComponent] answers as [EntityHasComponentType] does for
    the type of the key.  It may write an empty entry for the entity to
    the index, which no query by type sees. *)
Theorem EntityHasComponent_EntityHasComponentType s e key :
  (EntityHasComponent s e key).2 = EntityHasComponentType s e key.1
  ∧ (∀ e' t, EntityHasComponentType (EntityHasComponent s e key).1 e' t
             = EntityHasComponentType s e' t)
  ∧ (∀ e', ComponentTypes_of (EntityHasComponent s e key).1 e'
           = ComponentTypes_of s e')
  ∧ (HasEntity s e = true →
     is_Some (entityComponents (EntityHasComponent s e key).1 !! e)).
Proof.
  unfold EntityHasComponent, EntityHasComponentType, ComponentTypes_of.
  destruct (HasEntity s e) eqn:He; cbn [negb].
  2: { cbn. by repeat split. }
  destruct (entityComponents s !! e) as [comps|] eqn:Hidx.
  { cbn. repeat split; try done. }
  cbn [fst snd negb]. split; [done|].
  split; [|split].
  - intros e' t. unfold HasEntity. ecm_simpl in *.
    destruct (negb _); [done|].
    destruct (decide (e' = e)) as [->|Hne].
    + rewrite lookup_insert_eq, Hidx. apply bool_decide_eq_false. set_solver.
    + by rewrite lookup_insert_ne.
  - intros e'. ecm_simpl in *.
    destruct (decide (e' = e)) as [->|Hne].
    + by rewrite lookup_insert_eq, Hidx.
    + by rewrite lookup_insert_ne.
  - intros _. ecm_simpl. rewrite lookup_insert_eq. by eexists.
Qed.

(** X4: [RemoveComponent] returns whether the entity had the component.
    When it had not, nothing changes; when it had, the entity no longer
    has the type, the storage gives no component for it, its state is
    [NoChange], neither ledger holds it, and the removal is recorded. *)
Theorem RemoveComponent_result s e t :
  let r := RemoveComponent s e t in
  r.2 = EntityHasComponentType s e t
  ∧ EntityHasComponentType r.1 e t = false
  ∧ (EntityHasComponentType s e t = false → r.1 = s)
  ∧ (EntityHasComponentType s e t = true →
     ComponentImplementation r.1 e t = None
     ∧ ComponentState_of r.1 e t = NoChange
     ∧ changed_mem (oneTimeChangedComponents r.1) t e = false
     ∧ changed_mem (periodicChangedComponents r.1) t e = false
     ∧ t ∈ default ∅ (removedComponents r.1 !! e)).
Proof.
  cbn zeta. unfold RemoveComponent.
  destruct (EntityHasComponentType s e t) eqn:Hhas; cbn [negb fst snd].
  2: { by repeat split. }
  assert (He : HasEntity s e = true).
  { unfold EntityHasComponentType in Hhas.
    by destruct (HasEntity s e). }
  cbv zeta.
  destruct (storage.RemoveComponent _ e t) as [st removedComp] eqn:Hst.
  ecm_simpl in Hst.
  assert (Hvalid : storage.ValidComponent st e t = None).
  { revert Hst. unfold storage.RemoveComponent, storage.ValidComponent.
    ecm_simpl.
    destruct (_ !! e) as [slots|] eqn:Hslots.
    - destruct (slots !! t) as [[c|]|] eqn:Hslot; intros [= <- <-].
      + by rewrite lookup_insert_eq, lookup_insert_eq.
      + by rewrite Hslots, Hslot.
      + by rewrite Hslots, Hslot.
    - intros [= <- <-]. by rewrite Hslots. }
  assert (Hgoal : ∀ s1 : ECM P V,
    entities s1 = entities s →
    entityComponents s1
      = <[e := default ∅ (entityComponents s !! e) ∖ {[t]}]>
          (entityComponents s) →
    entityCompStorage s1 = st →
    oneTimeChangedComponents s1
      = changed_erase_prune (oneTimeChangedComponents s) t e →
    periodicChangedComponents s1
      = changed_erase_prune (periodicChangedComponents s) t e →
    let s2 := with_removedComponents
                (changed_insert (removedComponents (AddModifiedComponent s1 e))
                   e t) (AddModifiedComponent s1 e) in
    true = true
    ∧ EntityHasComponentType s2 e t = false
    ∧ (true = false → s2 = s)
    ∧ (true = true →
       ComponentImplementation s2 e t = None
       ∧ ComponentState_of s2 e t = NoChange
       ∧ changed_mem (oneTimeChangedComponents s2) t e = false
       ∧ changed_mem (periodicChangedComponents s2) t e = false
       ∧ t ∈ default ∅ (removedComponents s2 !! e))).
  { intros s1 Hg Hidx Hstore Hone Hper s2.
    assert (Hg2 : entities s2 = entities s).
    { transitivity (entities (AddModifiedComponent s1 e)); [reflexivity|].
      by rewrite AddModifiedComponent_entities. }
    assert (Hidx2 : entityComponents s2 !! e
                    = Some (default ∅ (entityComponents s !! e) ∖ {[t]})).
    { transitivity (entityComponents (AddModifiedComponent s1 e) !! e);
        [reflexivity|].
      rewrite AddModifiedComponent_entityComponents, Hidx.
      apply lookup_insert_eq. }
    destruct (AddModifiedComponent_ledgers s1 e) as (Hm1 & Hm2 & _).
    assert (Hone2 : changed_mem (oneTimeChangedComponents s2) t e = false).
    { transitivity
        (changed_mem (oneTimeChangedComponents (AddModifiedComponent s1 e)) t e);
        [reflexivity|].
      rewrite Hm1, Hone. apply changed_mem_erase_prune. }
    assert (Hper2 : changed_mem (periodicChangedComponents s2) t e = false).
    { transitivity
        (changed_mem (periodicChangedComponents (AddModifiedComponent s1 e)) t e);
        [reflexivity|].
      rewrite Hm2, Hper. apply changed_mem_erase_prune. }
    split; [done|]. split.
    { unfold EntityHasComponentType.
      rewrite (HasEntity_entities _ _ _ Hg2), He, Hidx2. cbn.
      apply bool_decide_eq_false. set_solver. }
    split; [done|]. intros _. split.
    { transitivity
        (storage.ValidComponent
           (entityCompStorage (AddModifiedComponent s1 e)) e t);
        [reflexivity|].
      assert (Hm : entityCompStorage (AddModifiedComponent s1 e)
                   = entityCompStorage s1).
      { unfold AddModifiedComponent. break_match; reflexivity. }
      rewrite Hm, Hstore. exact Hvalid. }
    split.
    { unfold ComponentState_of. rewrite Hidx2.
      rewrite bool_decide_eq_false_2 by set_solver. reflexivity. }
    split; [exact Hone2|]. split; [exact Hper2|].
    change (removedComponents s2)
      with (changed_insert (removedComponents (AddModifiedComponent s1 e)) e t).
    unfold changed_insert. rewrite lookup_insert_eq. cbn. set_solver. }
  destruct removedComp; cbn [fst snd];
    match goal with
    | |- context [AddModifiedComponent ?s1 e] => apply (Hgoal s1); reflexivity
    end.
Qed.

Lemma AddModifiedComponent_setter s e :
  AddModifiedComponent s e
  = with_modifiedComponents
      (if bool_decide (e ∈ newlyCreatedEntities s)
          || bool_decide (e ∈ toRemoveEntities s)
          || bool_decide (e ∈ modifiedComponents s)
       then modifiedComponents s
       else {[e]} ∪ modifiedComponents s) s.
Proof. unfold AddModifiedComponent. by destruct (_ || _). Qed.

(** X5: [CreateComponentImplementation] on an entity that exists and that
    the storage knows, for a type that was created before or that the
    factory has: the component is the one the factory makes from the
    data, the entity has the type, its state is [OneTimeChange], the type
    counts as created, and the result tells whether the entity already
    had a slot for the type. *)
Theorem CreateComponentImplementation_attached s e t data slots :
  HasEntity s e = true →
  HasComponentType s t || HasType t = true →
  entityCompStorage s !! e = Some slots →
  TypeId (NewFrom t data) = t →
  let r := CreateComponentImplementation s e t data in
  r.2 = bool_decide (is_Some (slots !! t))
  ∧ ComponentImplementation r.1 e t = Some (NewFrom t data)
  ∧ EntityHasComponentType r.1 e t = true
  ∧ ComponentState_of r.1 e t = OneTimeChange
  ∧ HasComponentType r.1 t = true.
Proof.
  intros He Hreg Hslots Htype. cbn zeta. unfold CreateComponentImplementation.
  rewrite He. cbn [negb].
  assert (Hreg' : negb (HasComponentType s t) && negb (HasType t) = false).
  { by destruct (HasComponentType s t), (HasType t). }
  rewrite Hreg'. rewrite AddModifiedComponent_setter.
  unfold storage.AddComponent, ComponentImplementation, storage.ValidComponent,
    EntityHasComponentType, ComponentState_of, HasComponentType, HasEntity in *.
  ecm_simpl in *. rewrite Hslots, Htype.
  assert (Hidx : changed_insert (entityComponents s) e t !! e
                 = Some ({[t]} ∪ default ∅ (entityComponents s !! e))).
  { unfold changed_insert. apply lookup_insert_eq. }
  ecm_simpl in Hidx.
  assert (Hsome : bool_decide (is_Some (slots !! t))
                  = match slots !! t with Some _ => true | None => false end).
  { destruct (slots !! t) eqn:Hslot.
    - by apply bool_decide_eq_true.
    - apply bool_decide_eq_false. by intros [? [=]]. }
  rewrite Hsome.
  destruct (slots !! t) as [[c|]|] eqn:Hslot; ecm_simpl;
    rewrite He, Hidx, changed_mem_insert, !lookup_insert_eq; cbn;
    (split; [done|]); (split; [done|]);
    rewrite !bool_decide_eq_true_2 by set_solver; done.
Qed.

(** X6: [CreateComponentImplementation] gives the entity the type exactly
    when the entity exists and the type was created before or is one the
    factory has; otherwise it returns false and only writes to the
    console.  The types of the other entities are as before. *)
Theorem CreateComponentImplementation_EntityHasComponentType s e t data :
  let r := CreateComponentImplementation s e t data in
  let accepted := HasEntity s e && (HasComponentType s t || HasType t) in
  EntityHasComponentType r.1 e t = EntityHasComponentType s e t || accepted
  ∧ (accepted = false → r.2 = false ∧ ∃ l, r.1 = log l s)
  ∧ (∀ e', e' ≠ e → ComponentTypes_of r.1 e' = ComponentTypes_of s e').
Proof.
  cbn zeta. unfold CreateComponentImplementation.
  destruct (HasEntity s e) eqn:He; cbn [negb andb].
  2: { rewrite orb_false_r. split; [done|]. split; [|done].
       intros _. split; [done|]. by eexists. }
  destruct (HasComponentType s t || HasType t) eqn:Hreg.
  2: { apply orb_false_elim in Hreg as [-> ->]. cbn.
       rewrite orb_false_r. split; [done|]. split; [|done].
       intros _. split; [done|]. by eexists. }
  assert (Hreg' : negb (HasComponentType s t) && negb (HasType t) = false).
  { by destruct (HasComponentType s t), (HasType t). }
  rewrite Hreg', orb_true_r. rewrite AddModifiedComponent_setter.
  unfold EntityHasComponentType, ComponentTypes_of, HasEntity in *.
  unfold changed_insert.
  destruct (storage.AddComponent _ e _) as [st []]; ecm_simpl in *;
    rewrite He, lookup_insert_eq; cbn;
    (split; [apply bool_decide_eq_true; set_solver|]);
    (split; [done|]); intros e' Hne; by rewrite lookup_insert_ne.
Qed.
End components.

(** * What the removal of entities leaves *)

Section removal_requests.
Context {P V : Type}.
Context `{!BaseComponent P} `{!Factory P} `{!BaseView V} `{!Declarations}.
Implicit Types s : ECM P V.

Lemma ProcessRemoveEntityRequests_one_entities s x :
  entities (ProcessRemoveEntityRequests_one s x)
  = if HasEntity s x then graph.RemoveVertex (entities s) x else entities s.
Proof.
  unfold ProcessRemoveEntityRequests_one.
  destruct (HasEntity s x); cbn [negb]; [|reflexivity].
  ecm_simpl. destruct (_ !! x); reflexivity.
Qed.

Lemma ProcessRemoveEntityRequests_one_entityComponents s x :
  entityComponents (ProcessRemoveEntityRequests_one s x)
  = if HasEntity s x then delete x (entityComponents s) else entityComponents s.
Proof.
  unfold ProcessRemoveEntityRequests_one.
  destruct (HasEntity s x); cbn [negb]; [|reflexivity].
  ecm_simpl. destruct (_ !! x) eqn:Hx; ecm_simpl; [reflexivity|].
  symmetry. by apply delete_id.
Qed.

Lemma ProcessRemoveEntityRequests_one_HasEntity s x e :
  HasEntity (ProcessRemoveEntityRequests_one s x) e
  = HasEntity s e && negb (e =? x).
Proof.
  apply eq_true_iff_eq.
  rewrite andb_true_iff, negb_true_iff, N.eqb_neq, !HasEntity_elem_of.
  rewrite ProcessRemoveEntityRequests_one_entities.
  destruct (HasEntity s x) eqn:Hx.
  - apply HasEntity_elem_of in Hx as [Hx _]. unfold graph.RemoveVertex.
    rewrite bool_decide_eq_true_2 by done. cbn. set_solver.
  - split; [|tauto]. intros He. split; [done|]. intros ->.
    apply HasEntity_elem_of in He. congruence.
Qed.

Lemma ProcessRemoveEntityRequests_loop_HasEntity (l : list Entity) s e :
  HasEntity (foldl ProcessRemoveEntityRequests_one s l) e
  = HasEntity s e && negb (bool_decide (e ∈ l)).
Proof.
  revert s. induction l as [|x l IH]; intros s; cbn [foldl].
  - rewrite bool_decide_eq_false_2 by set_solver. by rewrite andb_true_r.
  - rewrite IH, ProcessRemoveEntityRequests_one_HasEntity.
    rewrite <- andb_assoc. f_equal.
    destruct (decide (e = x)) as [->|Hne].
    + rewrite N.eqb_refl.
      rewrite (bool_decide_eq_true_2 (x ∈ x :: l)) by left. reflexivity.
    + apply N.eqb_neq in Hne as Hne'. rewrite Hne'. cbn.
      f_equal. apply bool_decide_ext. set_solver.
Qed.

Lemma ProcessRemoveEntityRequests_loop_entityComponents (l : list Entity) s e :
  entityComponents (foldl ProcessRemoveEntityRequests_one s l) !! e
  = if HasEntity s e && bool_decide (e ∈ l) then None
    else entityComponents s !! e.
Proof.
  revert s. induction l as [|x l IH]; intros s; cbn [foldl].
  - rewrite bool_decide_eq_false_2 by set_solver. by rewrite andb_false_r.
  - rewrite IH, ProcessRemoveEntityRequests_one_HasEntity,
      ProcessRemoveEntityRequests_one_entityComponents.
    destruct (decide (e = x)) as [->|Hne].
    + rewrite N.eqb_refl, andb_false_r. cbn [andb negb].
      rewrite (bool_decide_eq_true_2 (x ∈ x :: l)) by left.
      rewrite andb_true_r. destruct (HasEntity s x); [|reflexivity].
      apply lookup_delete_eq.
    + apply N.eqb_neq in Hne as Hne'. rewrite Hne'. cbn [negb].
      rewrite andb_true_r.
      rewrite (bool_decide_ext (e ∈ x :: l) (e ∈ l)) by set_solver.
      destruct (_ && _); [reflexivity|].
      destruct (HasEntity s x); [|reflexivity]. by apply lookup_delete_ne.
Qed.

(** X7: [ProcessRemoveEntityRequests] removes the entities that
    [IsMarkedForRemoval] answered for, and only them: afterwards an
    entity exists when it existed and was not marked, and it has the
    component types it had. *)
Theorem ProcessRemoveEntityRequests_HasEntity s e :
  let s' := ProcessRemoveEntityRequests s in
  HasEntity s' e = HasEntity s e && negb (IsMarkedForRemoval s e)
  ∧ ∀ t, EntityHasComponentType s' e t
         = EntityHasComponentType s e t && negb (IsMarkedForRemoval s e).
Proof.
  cbn zeta. unfold ProcessRemoveEntityRequests, IsMarkedForRemoval.
  destruct (removeAllEntities s) eqn:Hall.
  { cbn [negb]. split; [by rewrite andb_false_r|].
    intros t. by rewrite andb_false_r. }
  set (s1 := foldl _ _ _).
  assert (Hhas : HasEntity (with_descendantCache ∅ (with_toRemoveEntities ∅ s1)) e
                 = HasEntity s e && negb (bool_decide (e ∈ toRemoveEntities s))).
  { transitivity (HasEntity s1 e); [reflexivity|]. subst s1.
    rewrite ProcessRemoveEntityRequests_loop_HasEntity. f_equal. f_equal.
    apply bool_decide_ext. apply elem_of_elements. }
  split; [exact Hhas|]. intros t.
  unfold EntityHasComponentType at 1. rewrite Hhas.
  change (entityComponents (with_descendantCache ∅ (with_toRemoveEntities ∅ s1)))
    with (entityComponents s1).
  subst s1. rewrite ProcessRemoveEntityRequests_loop_entityComponents.
  rewrite (bool_decide_ext (e ∈ elements (toRemoveEntities s))
             (e ∈ toRemoveEntities s)) by apply elem_of_elements.
  unfold EntityHasComponentType.
  destruct (HasEntity s e), (bool_decide (e ∈ toRemoveEntities s)); cbn;
    try reflexivity.
  all: by rewrite ?andb_true_r, ?andb_false_r.
Qed.

End removal_requests.

(** * The graph of a reachable state *)

Section graph_invariant.
Context {P V : Type}.
Context `{!BaseComponent P} `{!Factory P} `{!BaseView V} `{!Declarations}.
Implicit Types s : ECM P V.

Lemma graph_ok_empty : graph_ok graph.empty.
Proof.
  split; [constructor|]. split; [set_solver|].
  split; intros *; cbn; by intros ?%elem_of_nil.
Qed.

Lemma AddVertex_vertices (g : EntityGraph) (e : N) :
  graph.vertices (graph.AddVertex g e).1 = graph.vertices g
  ∨ ∃ v, v ≠ kNullId
         ∧ graph.vertices (graph.AddVertex g e).1 = {[v]} ∪ graph.vertices g.
Proof.
  unfold graph.AddVertex.
  destruct (e =? kNullId); cbn iota beta;
    (destruct (_ =? kNullId) eqn:Hnull; [by left|]);
    (destruct (bool_decide _); [by left|]);
    right; eexists; (split; [by apply N.eqb_neq|reflexivity]).
Qed.

Lemma graph_ok_AddVertex (g : EntityGraph) (e : N) :
  graph_ok g → graph_ok (graph.AddVertex g e).1.
Proof.
  intros (Hnd & Hnull & Hends & Hone). unfold graph_ok.
  rewrite AddVertex_edges.
  destruct (AddVertex_vertices g e) as [->|(v & Hv & ->)]; [done|].
  split; [done|]. split; [set_solver|]. split; [|done].
  intros a b Hab. apply Hends in Hab. set_solver.
Qed.

Lemma graph_ok_RemoveVertex (g : EntityGraph) (x : N) :
  graph_ok g → graph_ok (graph.RemoveVertex g x).
Proof.
  intros (Hnd & Hnull & Hends & Hone). unfold graph.RemoveVertex.
  destruct (bool_decide _); [|done]. unfold graph_ok. cbn.
  split; [by apply NoDup_filter|]. split; [set_solver|]. split.
  - intros a b [[Ha Hb] Hab%Hends]%list_elem_of_filter. cbn in *. set_solver.
  - intros p q c [_ Hp]%list_elem_of_filter [_ Hq]%list_elem_of_filter.
    by eapply Hone.
Qed.

Lemma graph_ok_SetParentEntity s child parent :
  graph_ok (entities s) → graph_ok (entities (SetParentEntity s child parent).1).
Proof.
  intros (Hnd & Hnull & Hends & Hone). unfold SetParentEntity.
  destruct (remove_parent_edges child
              (graph.AdjacentsTo (entities s) child) (entities s) Hnd)
    as (Hnd' & Hvs & Hin).
  assert (Hnone : ∀ q,
    ¬ (q, child) ∈ graph.edges
        (foldl (λ g p, graph.RemoveEdge g (graph.EdgeFromVertices g p child))
           (entities s) (graph.AdjacentsTo (entities s) child))).
  { intros q Hq. apply Hin in Hq as [Hq Hnot]. apply Hnot. cbn.
    split; [reflexivity|]. by apply elem_of_AdjacentsTo. }
  set (g1 := foldl _ _ _) in *.
  assert (Hok1 : graph_ok g1).
  { split; [done|]. rewrite Hvs. split; [done|]. split.
    - intros a b [Hab _]%Hin. by apply Hends.
    - intros p q c [Hp _]%Hin [Hq _]%Hin. by eapply Hone. }
  destruct (parent =? kNullEntity); [exact Hok1|].
  unfold graph.AddEdge.
  destruct (bool_decide (parent ∈ _) && _) eqn:Hboth; cbn; [|exact Hok1].
  apply andb_true_iff in Hboth as [Hp%bool_decide_eq_true Hc%bool_decide_eq_true].
  destruct Hok1 as (_ & Hnull1 & Hends1 & Hone1).
  split; cbn.
  { apply NoDup_app. split; [exact Hnd'|]. split; [|apply NoDup_singleton].
    intros y Hy ->%list_elem_of_singleton. by apply Hnone in Hy. }
  split; [done|]. split.
  - intros a b [Hab|Hab%list_elem_of_singleton]%elem_of_app;
      [by apply Hends1|]. by simplify_eq.
  - intros p q c [Hp'|Hp'%list_elem_of_singleton]%elem_of_app
                 [Hq'|Hq'%list_elem_of_singleton]%elem_of_app;
      simplify_eq.
    + by eapply Hone1.
    + by apply Hnone in Hp'.
    + by apply Hnone in Hq'.
    + done.
Qed.

Lemma CreateEntityImplementation_entities s e :
  entities (CreateEntityImplementation s e).1
  = (graph.AddVertex (entities s) e).1.
Proof. unfold CreateEntityImplementation. break_match; reflexivity. Qed.

Lemma graph_ok_CreateEntity s :
  graph_ok (entities s) → graph_ok (entities (CreateEntity s).1).
Proof.
  intros Hs. unfold CreateEntity. break_match; [exact Hs|].
  rewrite CreateEntityImplementation_entities. by apply graph_ok_AddVertex.
Qed.

Lemma graph_ok_SetState_entity s entityMsg s' :
  SetState_entity s entityMsg = Some s' →
  graph_ok (entities s) → graph_ok (entities s').
Proof.
  unfold SetState_entity.
  destruct (msgs.entity_remove entityMsg).
  - intros Hr. by rewrite (RequestRemoveEntity_entities _ _ _ _ Hr).
  - intros [= <-] Hs.
    rewrite foldl_entities by (intros; apply SetState_component_entities).
    destruct (negb (HasEntity s (msgs.id entityMsg))); [|exact Hs].
    rewrite CreateEntityImplementation_entities. by apply graph_ok_AddVertex.
Qed.

Lemma graph_ok_SetState_map_entity one_time s iter s' :
  SetState_map_entity one_time s iter = Some s' →
  graph_ok (entities s) → graph_ok (entities s').
Proof.
  unfold SetState_map_entity.
  destruct (msgs.map_remove iter.2).
  - intros Hr. by rewrite (RequestRemoveEntity_entities _ _ _ _ Hr).
  - intros [= <-] Hs.
    rewrite foldl_entities by (intros; apply SetState_map_component_entities).
    destruct (negb (HasEntity s (msgs.map_id iter.2))); [|exact Hs].
    rewrite CreateEntityImplementation_entities. by apply graph_ok_AddVertex.
Qed.

Lemma graph_ok_ProcessRemoveEntityRequests s :
  graph_ok (entities s) → graph_ok (entities (ProcessRemoveEntityRequests s)).
Proof.
  intros Hs. unfold ProcessRemoveEntityRequests.
  destruct (removeAllEntities s); [apply graph_ok_empty|].
  change (graph_ok (entities (foldl ProcessRemoveEntityRequests_one s
                                (elements (toRemoveEntities s))))).
  generalize (elements (toRemoveEntities s)) as l.
  intros l. revert s Hs. induction l as [|e l IH]; intros s Hs; [exact Hs|].
  cbn [foldl]. apply IH. rewrite ProcessRemoveEntityRequests_one_entities.
  destruct (HasEntity s e); [|exact Hs]. by apply graph_ok_RemoveVertex.
Qed.

Lemma exec_graph_ok op s s' :
  graph_ok (entities s) → exec op s = Some s' → graph_ok (entities s').
Proof.
  intros Hs. destruct op; cbn [exec].
  - intros [= <-]. by apply graph_ok_CreateEntity.
  - intros [= <-]. exact Hs.
  - intros [= <-]. exact Hs.
  - intros Hr. by rewrite (RequestRemoveEntity_entities _ _ _ _ Hr).
  - intros [= <-]. exact Hs.
  - intros [= <-]. by apply graph_ok_ProcessRemoveEntityRequests.
  - intros [= <-]. by rewrite RemoveComponent_entities.
  - intros [= <-]. unfold EntityHasComponent. break_match; exact Hs.
  - intros [= <-]. by apply graph_ok_SetParentEntity.
  - intros [= <-]. by rewrite CreateComponentImplementation_entities.
  - intros [= <-]. unfold AddView. break_match; exact Hs.
  - intros [= <-]. exact Hs.
  - destruct (State_map _ _ _ _ _).2 eqn:Hst; [|discriminate].
    cbn [mbind option_bind]. intros [= <-].
    destruct (State_map_manager s state entities0 types full)
      as [->|(its & m & ->)]; exact Hs.
  - unfold SetState.
    apply (foldlM_invariant (λ s, graph_ok (entities s))); [|exact Hs].
    intros a x a' Ha Hx. by eapply graph_ok_SetState_entity.
  - unfold SetState_map.
    apply (foldlM_invariant (λ s, graph_ok (entities s))); [|exact Hs].
    intros a x a' Ha Hx. by eapply graph_ok_SetState_map_entity.
  - intros [= <-]. unfold Descendants. break_match; exact Hs.
  - intros [= <-]. exact Hs.
  - intros [= <-]. by rewrite SetChanged_entities.
  - intros [= <-]. unfold SetEntityCreateOffset. break_match; exact Hs.
Qed.

Lemma reachable_graph_ok s : reachable s → graph_ok (entities s).
Proof.
  induction 1 as [|s op s' _ IH Hop]; [apply graph_ok_empty|].
  eapply exec_graph_ok; eassumption.
Qed.

Lemma HasEntity_graph_ok s e :
  graph_ok (entities s) →
  HasEntity s e = bool_decide (e ∈ graph.vertices (entities s)).
Proof.
  intros (_ & Hnull & _). apply eq_true_iff_eq.
  rewrite HasEntity_elem_of, bool_decide_eq_true. split; [tauto|].
  intros He. split; [done|]. by intros ->.
Qed.

(** X8: in a reachable state an entity has at most one parent, which
    [ParentEntity] returns, and a parent and its child both exist. *)
Theorem reachable_single_parent s e p :
  reachable s →
  p ∈ graph.AdjacentsTo (entities s) e →
  ParentEntity s e = p ∧ HasEntity s p = true ∧ HasEntity s e = true.
Proof.
  intros Hok%reachable_graph_ok Hp.
  pose proof Hok as (_ & _ & Hends & Hone).
  split.
  - unfold ParentEntity.
    destruct (graph.AdjacentsTo (entities s) e) as [|q l] eqn:Hadj;
      [by apply elem_of_nil in Hp|].
    assert (Hq : q ∈ graph.AdjacentsTo (entities s) e)
      by (rewrite Hadj; left).
    apply elem_of_AdjacentsTo in Hq. rewrite <- Hadj in Hp.
    apply elem_of_AdjacentsTo in Hp. by eapply Hone.
  - apply elem_of_AdjacentsTo, Hends in Hp as [Hp He].
    rewrite !HasEntity_graph_ok by done. by rewrite !bool_decide_eq_true_2.
Qed.


Lemma ParentEntity_none s e :
  (∀ q, (q, e) ∉ graph.edges (entities s)) → ParentEntity s e = kNullEntity.
Proof.
  intros Hnone. unfold ParentEntity.
  destruct (graph.AdjacentsTo (entities s) e) as [|q l] eqn:Hadj; [done|].
  assert (Hq : q ∈ graph.AdjacentsTo (entities s) e) by (rewrite Hadj; left).
  apply elem_of_AdjacentsTo in Hq. by apply Hnone in Hq.
Qed.

Lemma ParentEntity_edge s e p :
  graph_ok (entities s) → (p, e) ∈ graph.edges (entities s) →
  ParentEntity s e = p.
Proof.
  intros (_ & _ & _ & Hone) Hp. unfold ParentEntity.
  destruct (graph.AdjacentsTo (entities s) e) as [|q l] eqn:Hadj.
  - apply elem_of_AdjacentsTo in Hp. rewrite Hadj in Hp.
    by apply elem_of_nil in Hp.
  - assert (Hq : q ∈ graph.AdjacentsTo (entities s) e) by (rewrite Hadj; left).
    apply elem_of_AdjacentsTo in Hq. by eapply Hone.
Qed.

Lemma ParentEntity_cases s e :
  (∀ q, (q, e) ∉ graph.edges (entities s))
  ∨ ∃ p, (p, e) ∈ graph.edges (entities s).
Proof.
  destruct (graph.AdjacentsTo (entities s) e) as [|q l] eqn:Hadj.
  - left. intros q Hq%elem_of_AdjacentsTo. rewrite Hadj in Hq.
    by apply elem_of_nil in Hq.
  - right. exists q. apply elem_of_AdjacentsTo. rewrite Hadj. left.
Qed.

Lemma ParentEntity_ext s s' e :
  graph_ok (entities s) → graph_ok (entities s') →
  (∀ q, (q, e) ∈ graph.edges (entities s')
        ↔ (q, e) ∈ graph.edges (entities s)) →
  ParentEntity s' e = ParentEntity s e.
Proof.
  intros Hs Hs' Hiff.
  destruct (ParentEntity_cases s e) as [Hnone|[p Hp]].
  - rewrite (ParentEntity_none s) by done.
    apply ParentEntity_none. intros q Hq%Hiff. by apply Hnone in Hq.
  - rewrite (ParentEntity_edge s e p) by done.
    apply ParentEntity_edge; [done|]. by apply Hiff.
Qed.

(** X9: [SetParentEntity] in a reachable state returns true for
    [kNullEntity], and otherwise when the parent and the child both
    exist.  When it returns false the child has lost the parent it had.
    The parents of the other entities are as before. *)
Theorem SetParentEntity_refused s child parent :
  reachable s →
  let r := SetParentEntity s child parent in
  r.2 = (parent =? kNullEntity) || (HasEntity s parent && HasEntity s child)
  ∧ (r.2 = false → ParentEntity r.1 child = kNullEntity)
  ∧ (∀ e, e ≠ child → ParentEntity r.1 e = ParentEntity s e).
Proof.
  intros Hok%reachable_graph_ok. cbn zeta.
  pose proof (graph_ok_SetParentEntity s child parent Hok) as Hok'.
  rewrite !(HasEntity_graph_ok s) by done.
  destruct Hok as (Hnd & Hnull & Hends & Hone).
  revert Hok'. unfold SetParentEntity.
  destruct (remove_parent_edges child
              (graph.AdjacentsTo (entities s) child) (entities s) Hnd)
    as (Hnd' & Hvs & Hin).
  assert (Hnone : ∀ q,
    ¬ (q, child) ∈ graph.edges
        (foldl (λ g p, graph.RemoveEdge g (graph.EdgeFromVertices g p child))
           (entities s) (graph.AdjacentsTo (entities s) child))).
  { intros q Hq. apply Hin in Hq as [Hq Hnot]. apply Hnot. cbn.
    split; [reflexivity|]. by apply elem_of_AdjacentsTo. }
  set (g1 := foldl _ _ _) in *.
  assert (Hother : ∀ e q, e ≠ child →
            (q, e) ∈ graph.edges g1 ↔ (q, e) ∈ graph.edges (entities s)).
  { intros e q He. rewrite Hin. cbn. naive_solver. }
  destruct (parent =? kNullEntity) eqn:Hp; cbn [orb fst snd].
  { intros Hok'. split; [done|]. split; [done|].
    intros e He. apply ParentEntity_ext; [done..|].
    intros q. by apply Hother. }
  unfold graph.AddEdge. rewrite Hvs.
  destruct (bool_decide (parent ∈ _) && _) eqn:Hboth; cbn [fst snd];
    intros Hok'.
  - split; [done|]. split; [done|].
    intros e He. apply ParentEntity_ext; [done..|].
    intros q. cbn. rewrite elem_of_app, list_elem_of_singleton, Hother by done.
    naive_solver.
  - split; [done|]. split.
    + intros _. by apply ParentEntity_none.
    + intros e He. apply ParentEntity_ext; [done..|].
      intros q. by apply Hother.
Qed.

Lemma ProcessRemoveEntityRequests_one_edges s x y :
  y ∈ graph.edges (entities (ProcessRemoveEntityRequests_one s x))
  ↔ y ∈ graph.edges (entities s)
    ∧ (HasEntity s x = true → y.1 ≠ x ∧ y.2 ≠ x).
Proof.
  rewrite ProcessRemoveEntityRequests_one_entities.
  destruct (HasEntity s x) eqn:Hx; [|naive_solver].
  apply HasEntity_elem_of in Hx as [Hx _]. unfold graph.RemoveVertex.
  rewrite bool_decide_eq_true_2 by done. cbn.
  rewrite list_elem_of_filter.
  split; [intros [? ?]; split; [done|by intros _]|].
  intros [? Hx']; split; [by apply Hx'|done].
Qed.

Lemma ProcessRemoveEntityRequests_loop_edges (l : list Entity) s y :
  y ∈ graph.edges (entities (foldl ProcessRemoveEntityRequests_one s l))
  ↔ y ∈ graph.edges (entities s)
    ∧ ¬ (HasEntity s y.1 = true ∧ y.1 ∈ l)
    ∧ ¬ (HasEntity s y.2 = true ∧ y.2 ∈ l).
Proof.
  revert s. induction l as [|x l IH]; intros s; cbn [foldl].
  - split; [|tauto]. intros Hy. split; [done|].
    split; intros [_ ?%elem_of_nil]; done.
  - rewrite IH, ProcessRemoveEntityRequests_one_edges.
    rewrite !ProcessRemoveEntityRequests_one_HasEntity.
    rewrite !andb_true_iff, !negb_true_iff, !N.eqb_neq, !elem_of_cons.
    destruct (HasEntity s x) eqn:Hx.
    + destruct (decide (y.1 = x)), (decide (y.2 = x)); naive_solver.
    + destruct (decide (y.1 = x)) as [H1|H1], (decide (y.2 = x)) as [H2|H2];
        try rewrite H1; try rewrite H2; rewrite ?Hx; naive_solver.
Qed.

(** X10: after [ProcessRemoveEntityRequests] in a reachable state an entity
    has the parent it had, unless the entity or that parent was marked
    for removal: then it has none. *)
Theorem ProcessRemoveEntityRequests_ParentEntity s c :
  reachable s →
  ParentEntity (ProcessRemoveEntityRequests s) c
  = if IsMarkedForRemoval s c || IsMarkedForRemoval s (ParentEntity s c)
    then kNullEntity else ParentEntity s c.
Proof.
  intros Hok%reachable_graph_ok.
  pose proof (graph_ok_ProcessRemoveEntityRequests s Hok) as Hok'.
  assert (Hsub : ∀ y,
    y ∈ graph.edges (entities (ProcessRemoveEntityRequests s))
    ↔ removeAllEntities s = false
      ∧ y ∈ graph.edges (entities s)
      ∧ ¬ (HasEntity s y.1 = true ∧ y.1 ∈ toRemoveEntities s)
      ∧ ¬ (HasEntity s y.2 = true ∧ y.2 ∈ toRemoveEntities s)).
  { intros y. unfold ProcessRemoveEntityRequests.
    destruct (removeAllEntities s).
    - cbn. split; [by intros ?%elem_of_nil|]. by intros [? _].
    - transitivity
        (y ∈ graph.edges
               (entities (foldl ProcessRemoveEntityRequests_one s
                            (elements (toRemoveEntities s)))));
        [reflexivity|].
      rewrite ProcessRemoveEntityRequests_loop_edges.
      rewrite !elem_of_elements. naive_solver. }
  destruct (ParentEntity_cases s c) as [Hnone|[p Hp]].
  - rewrite (ParentEntity_none s c) by done.
    rewrite ParentEntity_none; [by destruct (_ || _)|].
    intros q Hq%Hsub. destruct Hq as (_ & Hq & _). by apply Hnone in Hq.
  - rewrite (ParentEntity_edge s c p) by done.
    pose proof Hok as (_ & _ & Hends & Hone).
    destruct (Hends _ _ Hp) as [Hpv Hcv].
    assert (Hph : HasEntity s p = true)
      by (rewrite HasEntity_graph_ok by done; by apply bool_decide_eq_true).
    assert (Hch : HasEntity s c = true)
      by (rewrite HasEntity_graph_ok by done; by apply bool_decide_eq_true).
    unfold IsMarkedForRemoval.
    destruct (removeAllEntities s) eqn:Hall; cbn [orb].
    { apply ParentEntity_none. intros q Hq%Hsub. by destruct Hq. }
    destruct (decide (c ∈ toRemoveEntities s)) as [Hc|Hc].
    { rewrite (bool_decide_eq_true_2 _ Hc). cbn [orb].
      apply ParentEntity_none. intros q Hq%Hsub. cbn in Hq. naive_solver. }
    rewrite (bool_decide_eq_false_2 _ Hc). cbn [orb].
    destruct (decide (p ∈ toRemoveEntities s)) as [Hpr|Hpr].
    { rewrite (bool_decide_eq_true_2 _ Hpr).
      apply ParentEntity_none. intros q Hq%Hsub. cbn in Hq.
      destruct Hq as (_ & Hq & Hnot & _).
      assert (q = p) by (by eapply Hone). subst q. naive_solver. }
    rewrite (bool_decide_eq_false_2 _ Hpr).
    apply ParentEntity_edge; [done|]. apply Hsub. cbn. naive_solver.
Qed.

End graph_invariant.

(** * Descendants and the recursive removal *)

Section descendants.
Context {P V : Type}.
Context `{!BaseComponent P} `{!Factory P} `{!BaseView V} `{!Declarations}.
Implicit Types s : ECM P V.

Lemma elem_of_AdjacentsFrom (g : EntityGraph) (v c : N) :
  c ∈ graph.AdjacentsFrom g v ↔ child_of g v c.
Proof.
  unfold graph.AdjacentsFrom, child_of.
  assert (Hgen : ∀ acc,
    c ∈ foldl (λ acc e, if e.1 =? v then graph.map_emplace e.2 acc else acc)
          acc (graph.edges g)
    ↔ c ∈ acc ∨ (v, c) ∈ graph.edges g).
  { induction (graph.edges g) as [|[a b] l IH]; intros acc; cbn [foldl].
    - set_solver.
    - rewrite IH. cbn. destruct (a =? v) eqn:Ha.
      + apply N.eqb_eq in Ha as ->. rewrite elem_of_map_emplace.
        rewrite elem_of_cons. naive_solver.
      + apply N.eqb_neq in Ha. rewrite elem_of_cons. naive_solver. }
  rewrite Hgen. set_solver.
Qed.

(** *** [BreadthFirstSort] visits the vertices that can be reached *)

Lemma BreadthFirstSort_loop_spec (g : EntityGraph) (root : N) (fuel : nat)
    (visited pending : list N) :
  (length pending
   + length (filter (λ e, e.1 ∉ visited) (graph.edges g)) < fuel)%nat →
  (∀ x, x ∈ visited ∨ x ∈ pending → rtc (child_of g) root x) →
  (∀ v c, v ∈ visited → child_of g v c → c ∈ visited ∨ c ∈ pending) →
  let r := graph.BreadthFirstSort_loop fuel g visited pending in
  (∀ x, x ∈ visited ∨ x ∈ pending → x ∈ r)
  ∧ (∀ x, x ∈ r → rtc (child_of g) root x)
  ∧ (∀ v c, v ∈ r → child_of g v c → c ∈ r).
Proof.
  revert visited pending.
  induction fuel as [|fuel IH]; intros visited pending Hfuel Hreach Hclosed;
    [lia|].
  cbn [graph.BreadthFirstSort_loop].
  destruct pending as [|v rest].
  { cbn zeta. split; [|split].
    - intros x [Hx|Hx%elem_of_nil]; done.
    - intros x Hx. apply Hreach. by left.
    - intros v c Hv Hc. destruct (Hclosed v c Hv Hc) as [?|?%elem_of_nil];
        done. }
  cbn [length] in Hfuel.
  destruct (decide (v ∈ visited)) as [Hin|Hout].
  - rewrite bool_decide_eq_true_2 by exact Hin.
    destruct (IH visited rest) as (Hsub & Hr & Hc); [lia| |  |].
    + intros x [Hx|Hx]; apply Hreach; [by left|by right; right].
    + intros u c Hu Huc.
      destruct (Hclosed u c Hu Huc) as [?|[->|?]%elem_of_cons]; auto.
    + cbn zeta. split; [|done].
      intros x [Hx|[->|Hx]%elem_of_cons]; apply Hsub; auto.
  - rewrite bool_decide_eq_false_2 by exact Hout.
    pose proof (length_AdjacentsFrom g v).
    pose proof (unvisited_edges_visit (graph.edges g) visited v Hout).
    destruct (IH (visited ++ [v]) (rest ++ graph.AdjacentsFrom g v))
      as (Hsub & Hr & Hc).
    + rewrite length_app. lia.
    + intros x [[Hx| ->%list_elem_of_singleton]%elem_of_app
               |[Hx|Hx%elem_of_AdjacentsFrom]%elem_of_app].
      * apply Hreach. by left.
      * apply Hreach. right. left.
      * apply Hreach. right. by right.
      * eapply rtc_r; [|exact Hx]. apply Hreach. right. left.
    + intros u c [Hu| ->%list_elem_of_singleton]%elem_of_app Huc.
      * destruct (Hclosed u c Hu Huc) as [?|[->|?]%elem_of_cons].
        -- left. apply elem_of_app. by left.
        -- left. apply elem_of_app. right. by apply list_elem_of_singleton.
        -- right. apply elem_of_app. by left.
      * right. apply elem_of_app. right. by apply elem_of_AdjacentsFrom.
    + cbn zeta. split; [|done].
      intros x [Hx|[->|Hx]%elem_of_cons]; apply Hsub.
      * left. apply elem_of_app. by left.
      * left. apply elem_of_app. right. by apply list_elem_of_singleton.
      * right. apply elem_of_app. by left.
Qed.

Lemma elem_of_BreadthFirstSort (g : EntityGraph) (root x : N) :
  x ∈ graph.BreadthFirstSort g root ↔ rtc (child_of g) root x.
Proof.
  unfold graph.BreadthFirstSort.
  destruct (BreadthFirstSort_loop_spec g root
              (S (S (length (graph.edges g)))) [] [root])
    as (Hsub & Hr & Hc).
  - pose proof (length_filter (λ e : N * N, e.1 ∉ @nil N) (graph.edges g)).
    cbn [length]. lia.
  - intros y [Hy%elem_of_nil| ->%list_elem_of_singleton]; done.
  - intros v c Hv%elem_of_nil. done.
  - split; [apply Hr|].
    intros Hx. revert x Hx. apply rtc_ind_r.
    + apply Hsub. right. by apply list_elem_of_singleton.
    + intros b c _ Hbc Hb. by eapply Hc.
Qed.

(** X11: [Descendants] of an entity that exists, when the cache has no entry
    for it, is the set of the entities that can be reached from it along
    the edges from parent to child, the entity among them; the answer is
    then in the cache, and a second call gives it again and changes
    nothing. *)
Theorem Descendants_reached s e :
  descendantCache s !! e = None → HasEntity s e = true →
  let r := Descendants s e in
  (∀ x, x ∈ r.2 ↔ rtc (child_of (entities s)) e x)
  ∧ descendantCache r.1 !! e = Some r.2
  ∧ Descendants r.1 e = r.
Proof.
  intros Hmiss He. cbn zeta.
  assert (Hr : Descendants s e
               = (with_descendantCache
                    (<[e := list_to_set (graph.BreadthFirstSort (entities s) e)]>
                       (descendantCache s)) s,
                  list_to_set (graph.BreadthFirstSort (entities s) e))).
  { unfold Descendants. by rewrite Hmiss, He. }
  rewrite Hr. cbn [fst snd]. split; [|split].
  - intros x. rewrite elem_of_list_to_set. apply elem_of_BreadthFirstSort.
  - ecm_simpl. apply lookup_insert_eq.
  - unfold Descendants. ecm_simpl. by rewrite lookup_insert_eq.
Qed.


(** *** [InsertEntityRecursive] *)

Lemma InsertEntityRecursive_loop_None (f : Entity → gset Entity → option (gset Entity))
    (l : list Entity) :
  foldl (λ acc v, acc ≫= f v) None l = None.
Proof. induction l as [|v l IH]; [reflexivity|]. exact IH. Qed.

(** What a recursion that ends has inserted: the entity, and with every
    entity it inserted the children of that entity; all of them can be
    reached from the entity. *)
Lemma InsertEntityRecursive_fuel_spec (g : EntityGraph) (fuel : nat)
    (e : Entity) (set r : gset Entity) :
  InsertEntityRecursive_fuel fuel g e set = Some r →
  set ⊆ r ∧ e ∈ r
  ∧ (∀ x, x ∈ r → x ∈ set ∨ rtc (child_of g) e x)
  ∧ (∀ x c, x ∈ r → x ∉ set → child_of g x c → c ∈ r).
Proof.
  revert e set r. induction fuel as [|fuel IH]; intros e set r; [done|].
  cbn [InsertEntityRecursive_fuel].
  assert (Hloop : ∀ (l : list Entity) (set set' : gset Entity),
    (∀ c, c ∈ l → child_of g e c) →
    foldl (λ acc v, acc ≫= InsertEntityRecursive_fuel fuel g v) (Some set) l
    = Some set' →
    set ⊆ set' ∧ (∀ c, c ∈ l → c ∈ set')
    ∧ (∀ x, x ∈ set' → x ∈ set ∨ tc (child_of g) e x)
    ∧ (∀ x c, x ∈ set' → x ∉ set → child_of g x c → c ∈ set')).
  { clear set r. induction l as [|v l IHl]; intros set set' Hl; cbn [foldl].
    - intros [= <-]. split; [done|]. split; [by intros c ?%elem_of_nil|].
      split; [by left|done].
    - cbn [mbind option_bind].
      destruct (InsertEntityRecursive_fuel fuel g v set) as [s1|] eqn:Hv.
      2: { by rewrite InsertEntityRecursive_loop_None. }
      apply IH in Hv as (Hsub1 & Hv1 & Hreach1 & Hclosed1).
      intros (Hsub2 & Hl2 & Hreach2 & Hclosed2)%IHl.
      2: { intros c Hc. apply Hl. by right. }
      assert (Hev : child_of g e v) by (apply Hl; left).
      split; [set_solver|]. split.
      { intros c [->|Hc]%elem_of_cons; [set_solver|by apply Hl2]. }
      split.
      { intros x Hx. destruct (Hreach2 x Hx) as [Hx1|Hx1]; [|by right].
        destruct (Hreach1 x Hx1) as [?|Hvx]; [by left|right].
        by eapply tc_rtc_r; [apply tc_once|]. }
      intros x c Hx Hxs Hxc.
      destruct (decide (x ∈ s1)) as [Hx1|Hx1].
      + apply Hsub2. by eapply Hclosed1.
      + by eapply Hclosed2. }
  destruct (foldl _ _ _) as [set'|] eqn:Hfold; [|done].
  cbn [mbind option_bind]. intros [= <-].
  apply Hloop in Hfold as (Hsub & Hchildren & Hreach & Hclosed).
  2: { intros c. apply elem_of_AdjacentsFrom. }
  split; [set_solver|]. split; [set_solver|]. split.
  - intros x [->%elem_of_singleton|Hx]%elem_of_union; [by right|].
    destruct (Hreach x Hx) as [?|?%tc_rtc]; auto.
  - intros x c [->%elem_of_singleton|Hx]%elem_of_union Hxs Hxc.
    + apply elem_of_union. right. by apply Hchildren, elem_of_AdjacentsFrom.
    + apply elem_of_union. right. by eapply Hclosed.
Qed.

(** The recursion ends when no cycle can be reached: its depth is then
    at most the number of vertices. *)
Lemma InsertEntityRecursive_fuel_ends (g : EntityGraph) (fuel : nat)
    (A : gset Entity) (e : Entity) (set : gset Entity) :
  (∀ x, rtc (child_of g) e x → ¬ tc (child_of g) x x) →
  (∀ a b, child_of g a b → a ∈ graph.vertices g) →
  (∀ a, a ∈ A → tc (child_of g) a e) →
  A ⊆ graph.vertices g →
  (size (graph.vertices g ∖ A) < fuel)%nat →
  is_Some (InsertEntityRecursive_fuel fuel g e set).
Proof.
  intros Hacyclic Htails.
  revert A e set Hacyclic.
  induction fuel as [|fuel IH]; intros A e set Hacyclic HA Hsub Hsize; [lia|].
  cbn [InsertEntityRecursive_fuel].
  assert (Hloop : ∀ (l : list Entity) (set : gset Entity),
    (∀ c, c ∈ l → child_of g e c) →
    is_Some (foldl (λ acc v, acc ≫= InsertEntityRecursive_fuel fuel g v)
               (Some set) l)).
  { induction l as [|v l IHl]; intros set0 Hl; cbn [foldl]; [by eexists|].
    assert (Hev : child_of g e v) by (apply Hl; left).
    assert (HeV : e ∈ graph.vertices g) by (by eapply Htails).
    assert (HeA : e ∉ A).
    { intros Hin%HA. by apply (Hacyclic e). }
    destruct (IH ({[e]} ∪ A) v set0) as [s1 Hs1].
    - intros x Hx. apply Hacyclic. by eapply rtc_l.
    - intros a [->%elem_of_singleton|Ha]%elem_of_union; [by apply tc_once|].
      eapply tc_r; [by apply HA|done].
    - set_solver.
    - assert (Hlt : graph.vertices g ∖ ({[e]} ∪ A) ⊂ graph.vertices g ∖ A)
        by set_solver.
      pose proof (subset_size _ _ Hlt). lia.
    - cbn [mbind option_bind]. rewrite Hs1. apply IHl.
      intros c Hc. apply Hl. by right. }
  destruct (Hloop (graph.AdjacentsFrom g e) set) as [set' ->].
  { intros c. apply elem_of_AdjacentsFrom. }
  by eexists.
Qed.

(** The recursion does not end when a cycle can be reached, whatever
    the fuel. *)
Lemma InsertEntityRecursive_fuel_cycle (g : EntityGraph) (fuel : nat)
    (e x : Entity) (set : gset Entity) :
  rtc (child_of g) e x → tc (child_of g) x x →
  InsertEntityRecursive_fuel fuel g e set = None.
Proof.
  revert e set. induction fuel as [|fuel IH]; intros e set Hex Hxx; [done|].
  cbn [InsertEntityRecursive_fuel].
  assert (Hchild : ∃ c, child_of g e c ∧ rtc (child_of g) c x).
  { destruct Hex as [e|e c x' Hec Hcx]; [|by exists c].
    inversion Hxx as [? c Hec|? c ? Hec Hcz]; subst.
    - by exists e.
    - exists c. split; [done|]. by apply tc_rtc. }
  destruct Hchild as (c & Hec & Hcx).
  apply elem_of_AdjacentsFrom in Hec.
  assert (Hloop : ∀ (l : list Entity) (acc : option (gset Entity)),
    c ∈ l →
    foldl (λ acc v, acc ≫= InsertEntityRecursive_fuel fuel g v) acc l = None).
  { induction l as [|v l IHl]; intros acc Hc; [by apply elem_of_nil in Hc|].
    cbn [foldl]. apply elem_of_cons in Hc as [<-|Hc]; [|by apply IHl].
    destruct acc as [set0|]; cbn [mbind option_bind];
      [rewrite (IH c set0 Hcx Hxx)|]; apply InsertEntityRecursive_loop_None. }
  by rewrite Hloop.
Qed.

(** X12: [RequestRemoveEntity] with [recursive] set, in a reachable state
    where no cycle can be reached from the entity: the entities marked
    are the ones that were, the entity, and the entities that can be
    reached from it, which are its [Descendants]; none is removed yet. *)
Theorem RequestRemoveEntity_recursive s e :
  reachable s →
  (∀ x, rtc (child_of (entities s)) e x → ¬ tc (child_of (entities s)) x x) →
  ∃ s', RequestRemoveEntity s e true = Some s'
        ∧ (∀ x, x ∈ toRemoveEntities s'
                ↔ x ∈ toRemoveEntities s ∨ rtc (child_of (entities s)) e x)
        ∧ (∀ x, HasEntity s' x = HasEntity s x).
Proof.
  intros (_ & _ & Hends & _)%reachable_graph_ok Hacyclic.
  unfold RequestRemoveEntity. cbn [negb].
  destruct (InsertEntityRecursive_fuel_ends (entities s)
              (S (S (size (graph.vertices (entities s))))) ∅ e ∅)
    as [tmp Htmp]; [done| |set_solver|set_solver| |].
  { intros a b Hab. by apply (Hends a b). }
  { rewrite difference_empty_L. lia. }
  unfold InsertEntityRecursive. rewrite Htmp. cbn [mbind option_bind].
  eexists. split; [reflexivity|].
  apply InsertEntityRecursive_fuel_spec in Htmp
    as (_ & He & Hreach & Hclosed).
  split; [|done].
  intros x. ecm_simpl. rewrite elem_of_union. split.
  - intros [?|Hx]; [by left|]. right.
    destruct (Hreach x Hx) as [?|?]; [set_solver|done].
  - intros [?|Hx]; [by left|]. right.
    revert x Hx. apply rtc_ind_r; [done|].
    intros b c _ Hbc Hb. eapply Hclosed; [done|set_solver|done].
Qed.

(** X13: [RequestRemoveEntity] with [recursive] set has no result when a
    cycle of the graph can be reached from the entity: the recursion of
    [InsertEntityRecursive] does not end, whatever the depth allowed. *)
Theorem RequestRemoveEntity_recursive_cycle s e x :
  rtc (child_of (entities s)) e x → tc (child_of (entities s)) x x →
  (∀ fuel set, InsertEntityRecursive_fuel fuel (entities s) e set = None)
  ∧ RequestRemoveEntity s e true = None.
Proof.
  intros Hex Hxx.
  assert (Hnone : ∀ fuel set,
            InsertEntityRecursive_fuel fuel (entities s) e set = None).
  { intros fuel set. by eapply InsertEntityRecursive_fuel_cycle. }
  split; [exact Hnone|].
  unfold RequestRemoveEntity, InsertEntityRecursive. cbn [negb].
  by rewrite Hnone.
Qed.

End descendants.

(** * The index of a reachable state *)

Section index_invariant.
Context {P V : Type}.
Context `{!BaseComponent P} `{!Factory P} `{!BaseView V} `{!Declarations}.
Implicit Types s : ECM P V.

Lemma RemoveComponent_entityComponents s e t :
  entityComponents (RemoveComponent s e t).1
  = if EntityHasComponentType s e t
    then <[e := default ∅ (entityComponents s !! e) ∖ {[t]}]>
           (entityComponents s)
    else entityComponents s.
Proof.
  unfold RemoveComponent.
  destruct (EntityHasComponentType s e t); cbn [negb]; [|reflexivity].
  cbv zeta. destruct (storage.RemoveComponent _ e t) as [st [c|]];
    rewrite AddModifiedComponent_setter; reflexivity.
Qed.

Lemma CreateComponentImplementation_entityComponents s e t data :
  entityComponents (CreateComponentImplementation s e t data).1
  = if HasEntity s e && (HasComponentType s t || HasType t)
    then changed_insert (entityComponents s) e t
    else entityComponents s.
Proof.
  unfold CreateComponentImplementation.
  destruct (HasEntity s e); cbn [negb andb]; [|reflexivity].
  destruct (HasComponentType s t), (HasType t); cbn [negb andb orb];
    try reflexivity;
    rewrite AddModifiedComponent_setter; cbv zeta;
    destruct (storage.AddComponent _ e _) as [st []]; reflexivity.
Qed.

Lemma SetChanged_entityComponents s e t c :
  entityComponents (SetChanged s e t c) = entityComponents s.
Proof.
  unfold SetChanged. destruct (_ !! e); [|reflexivity].
  destruct (negb _); [reflexivity|].
  rewrite AddModifiedComponent_setter. by destruct c.
Qed.

Lemma CreateEntityImplementation_entityComponents s e :
  entityComponents (CreateEntityImplementation s e).1 = entityComponents s.
Proof. unfold CreateEntityImplementation. break_match; reflexivity. Qed.

Lemma CreateEntityImplementation_HasEntity s x e :
  HasEntity s e = true → HasEntity (CreateEntityImplementation s x).1 e = true.
Proof.
  rewrite !HasEntity_elem_of, CreateEntityImplementation_entities.
  destruct (AddVertex_vertices (entities s) x) as [->|(v & _ & ->)];
    set_solver.
Qed.

Lemma CreateEntityImplementation_HasEntity_new s e :
  e ≠ kNullId → HasEntity (CreateEntityImplementation s e).1 e = true.
Proof.
  intros He. rewrite HasEntity_elem_of.
  rewrite CreateEntityImplementation_vertices by done. set_solver.
Qed.

Lemma SetParentEntity_vertices s child parent :
  graph.vertices (entities (SetParentEntity s child parent).1)
  = graph.vertices (entities s).
Proof.
  unfold SetParentEntity.
  assert (Hloop : ∀ (l : list N) (g : EntityGraph),
    graph.vertices
      (foldl (λ g p, graph.RemoveEdge g (graph.EdgeFromVertices g p child)) g l)
    = graph.vertices g).
  { induction l as [|p l IH]; intros g; [reflexivity|].
    cbn [foldl]. rewrite IH. unfold graph.RemoveEdge, graph.EdgeFromVertices.
    by destruct (bool_decide _). }
  destruct (parent =? kNullEntity); [apply Hloop|].
  unfold graph.AddEdge. destruct (_ && _); apply Hloop.
Qed.

Lemma SetParentEntity_HasEntity s child parent e :
  HasEntity (SetParentEntity s child parent).1 e = HasEntity s e.
Proof.
  apply eq_true_iff_eq. by rewrite !HasEntity_elem_of, SetParentEntity_vertices.
Qed.

Lemma SetParentEntity_entityComponents s child parent :
  entityComponents (SetParentEntity s child parent).1 = entityComponents s.
Proof.
  unfold SetParentEntity. destruct (parent =? kNullEntity); [reflexivity|].
  by destruct (graph.AddEdge _ parent child).
Qed.

Lemma index_ok_frame s s' :
  entities s' = entities s → entityComponents s' = entityComponents s →
  index_ok s → index_ok s'.
Proof.
  intros Hg Hidx Hs e. rewrite Hidx, (HasEntity_entities _ _ _ Hg). apply Hs.
Qed.

Lemma index_ok_RemoveComponent s e t :
  index_ok s → index_ok (RemoveComponent s e t).1.
Proof.
  intros Hs e'. rewrite RemoveComponent_entityComponents.
  rewrite (HasEntity_entities s (RemoveComponent s e t).1)
    by apply RemoveComponent_entities.
  destruct (EntityHasComponentType s e t) eqn:Hhas; [|apply Hs].
  destruct (decide (e' = e)) as [->|Hne].
  - intros _. unfold EntityHasComponentType in Hhas.
    by destruct (HasEntity s e).
  - rewrite lookup_insert_ne by done. apply Hs.
Qed.

Lemma index_ok_CreateComponentImplementation s e t data :
  index_ok s → index_ok (CreateComponentImplementation s e t data).1.
Proof.
  intros Hs e'. rewrite CreateComponentImplementation_entityComponents.
  rewrite (HasEntity_entities s (CreateComponentImplementation s e t data).1)
    by apply CreateComponentImplementation_entities.
  destruct (HasEntity s e) eqn:He; cbn [andb]; [|apply Hs].
  destruct (_ || _); [|apply Hs]. unfold changed_insert.
  destruct (decide (e' = e)) as [->|Hne]; [done|].
  rewrite lookup_insert_ne by done. apply Hs.
Qed.

Lemma index_ok_SetChanged s e t c : index_ok s → index_ok (SetChanged s e t c).
Proof.
  apply index_ok_frame; [apply SetChanged_entities|].
  apply SetChanged_entityComponents.
Qed.

Lemma index_ok_CreateEntityImplementation s e :
  index_ok s → index_ok (CreateEntityImplementation s e).1.
Proof.
  intros Hs e'. rewrite CreateEntityImplementation_entityComponents.
  intros He'%Hs. by apply CreateEntityImplementation_HasEntity.
Qed.

Lemma index_ok_SetState_component s e compMsg :
  index_ok s → index_ok (SetState_component s e compMsg).
Proof.
  intros Hs. unfold SetState_component.
  repeat match goal with
         | |- context [match ?x with _ => _ end] => destruct x eqn:?
         end;
    try exact Hs;
    try (by apply index_ok_RemoveComponent);
    try (by apply index_ok_CreateComponentImplementation,
              index_ok_RemoveComponent);
    try (eapply index_ok_frame; [| |apply index_ok_RemoveComponent, Hs];
         reflexivity);
    (eapply index_ok_frame; [| |exact Hs]; reflexivity).
Qed.

Lemma index_ok_SetState_map_component s e one_time compIter :
  index_ok s → index_ok (SetState_map_component s e one_time compIter).
Proof.
  intros Hs. unfold SetState_map_component.
  repeat match goal with
         | |- context [match ?x with _ => _ end] => destruct x eqn:?
         end;
    try exact Hs;
    try (by apply index_ok_RemoveComponent);
    try (by apply index_ok_CreateComponentImplementation);
    try (apply index_ok_SetChanged;
         eapply index_ok_frame; [| |exact Hs]; reflexivity);
    (eapply index_ok_frame; [| |exact Hs]; reflexivity).
Qed.

Lemma index_ok_foldl {A : Type} (f : ECM P V → A → ECM P V) (l : list A) s :
  (∀ s x, index_ok s → index_ok (f s x)) →
  index_ok s → index_ok (foldl f s l).
Proof.
  intros Hf. revert s. induction l as [|x l IH]; intros s Hs; [exact Hs|].
  cbn [foldl]. by apply IH, Hf.
Qed.

Lemma index_ok_RequestRemoveEntity s e recursive s' :
  RequestRemoveEntity s e recursive = Some s' → index_ok s → index_ok s'.
Proof.
  unfold RequestRemoveEntity.
  destruct (if negb recursive then _ else _); cbn [mbind option_bind];
    [|discriminate].
  intros [= <-]. by apply index_ok_frame.
Qed.

Lemma index_ok_ProcessRemoveEntityRequests s :
  index_ok s → index_ok (ProcessRemoveEntityRequests s).
Proof.
  intros Hs e. unfold ProcessRemoveEntityRequests.
  destruct (removeAllEntities s).
  { ecm_simpl. rewrite lookup_empty. by intros [? [=]]. }
  intros Hsome.
  assert (Hsome' : is_Some (entityComponents
                              (foldl ProcessRemoveEntityRequests_one s
                                 (elements (toRemoveEntities s))) !! e))
    by exact Hsome.
  clear Hsome.
  change (HasEntity (foldl ProcessRemoveEntityRequests_one s
                       (elements (toRemoveEntities s))) e = true).
  revert Hsome'.
  rewrite ProcessRemoveEntityRequests_loop_entityComponents,
    ProcessRemoveEntityRequests_loop_HasEntity.
  destruct (HasEntity s e) eqn:He; cbn [andb].
  - destruct (bool_decide _); [by intros [? [=]]|done].
  - intros Hsome%Hs. congruence.
Qed.

Lemma exec_index_ok op s s' :
  index_ok s → exec op s = Some s' → index_ok s'.
Proof.
  intros Hs. destruct op; cbn [exec].
  - intros [= <-]. unfold CreateEntity. break_match.
    + revert Hs. by apply index_ok_frame.
    + apply index_ok_CreateEntityImplementation. revert Hs.
      by apply index_ok_frame.
  - intros [= <-]. revert Hs. by apply index_ok_frame.
  - intros [= <-]. revert Hs. by apply index_ok_frame.
  - intros Hr. by eapply index_ok_RequestRemoveEntity.
  - intros [= <-]. revert Hs. by apply index_ok_frame.
  - intros [= <-]. by apply index_ok_ProcessRemoveEntityRequests.
  - intros [= <-]. by apply index_ok_RemoveComponent.
  - intros [= <-]. unfold EntityHasComponent.
    destruct (HasEntity s e) eqn:He; cbn [negb fst]; [|done].
    destruct (entityComponents s !! e) eqn:Hidx; cbn [fst]; [done|].
    intros e'. ecm_simpl. destruct (decide (e' = e)) as [->|Hne].
    + intros _. exact He.
    + rewrite lookup_insert_ne by done. apply Hs.
  - intros [= <-] e.
    rewrite SetParentEntity_HasEntity, SetParentEntity_entityComponents.
    apply Hs.
  - intros [= <-]. by apply index_ok_CreateComponentImplementation.
  - intros [= <-]. unfold AddView. break_match; revert Hs;
      by apply index_ok_frame.
  - intros [= <-]. revert Hs. by apply index_ok_frame.
  - destruct (State_map _ _ _ _ _).2 eqn:Hst; [|discriminate].
    cbn [mbind option_bind]. intros [= <-].
    destruct (State_map_manager s state entities0 types full)
      as [->|(its & m & ->)]; revert Hs; by apply index_ok_frame.
  - unfold SetState.
    apply (foldlM_invariant index_ok); [|exact Hs].
    intros a x a' Ha. unfold SetState_entity.
    destruct (msgs.entity_remove x).
    + intros Hr. by eapply index_ok_RequestRemoveEntity.
    + intros [= <-]. apply index_ok_foldl.
      * intros. by apply index_ok_SetState_component.
      * destruct (negb _); [|done].
        by apply index_ok_CreateEntityImplementation.
  - unfold SetState_map.
    apply (foldlM_invariant index_ok); [|exact Hs].
    intros a x a' Ha. unfold SetState_map_entity.
    destruct (msgs.map_remove x.2).
    + intros Hr. by eapply index_ok_RequestRemoveEntity.
    + intros [= <-]. apply index_ok_foldl.
      * intros. by apply index_ok_SetState_map_component.
      * destruct (negb _); [|done].
        by apply index_ok_CreateEntityImplementation.
  - intros [= <-]. unfold Descendants. break_match; revert Hs;
      by apply index_ok_frame.
  - intros [= <-]. revert Hs. by apply index_ok_frame.
  - intros [= <-]. by apply index_ok_SetChanged.
  - intros [= <-]. unfold SetEntityCreateOffset. break_match; revert Hs;
      by apply index_ok_frame.
Qed.


Lemma reachable_index_ok s : reachable s → index_ok s.
Proof.
  induction 1 as [|s op s' _ IH Hop].
  - intros e. cbn. rewrite lookup_empty. by intros [? [=]].
  - eapply exec_index_ok; eassumption.
Qed.

(** X14: in a reachable state every entity of the index exists: the types
    [ComponentTypes] gives for an entity are the ones
    [EntityHasComponentType] answers for, and a component whose state is
    not [NoChange] is a component of an entity that exists. *)
Theorem reachable_index_entities s e :
  reachable s →
  (is_Some (entityComponents s !! e) → HasEntity s e = true)
  ∧ (∀ t, EntityHasComponentType s e t
          = bool_decide (t ∈ ComponentTypes_of s e))
  ∧ (∀ t, ComponentState_of s e t ≠ NoChange →
          EntityHasComponentType s e t = true).
Proof.
  intros Hok%reachable_index_ok. specialize (Hok e).
  split; [exact Hok|].
  unfold EntityHasComponentType, ComponentTypes_of, ComponentState_of.
  destruct (entityComponents s !! e) as [comps|] eqn:Hidx.
  - rewrite Hok by done. cbn. split; [done|].
    intros t. by destruct (bool_decide (t ∈ comps)).
  - cbn. split.
    + intros t. rewrite bool_decide_eq_false_2 by set_solver.
      by destruct (negb _).
    + done.
Qed.

(** *** The types that were created *)

Lemma RemoveComponent_createdCompTypes s e t :
  createdCompTypes (RemoveComponent s e t).1 = createdCompTypes s.
Proof.
  unfold RemoveComponent. destruct (negb _); [reflexivity|].
  cbv zeta. destruct (storage.RemoveComponent _ e t) as [st [c|]];
    rewrite AddModifiedComponent_setter; reflexivity.
Qed.

Lemma CreateComponentImplementation_createdCompTypes s e t data :
  createdCompTypes s
  ⊆ createdCompTypes (CreateComponentImplementation s e t data).1.
Proof.
  unfold CreateComponentImplementation.
  destruct (negb (HasEntity s e)); [done|].
  destruct (_ && _); [done|].
  rewrite AddModifiedComponent_setter. cbv zeta.
  destruct (storage.AddComponent _ e _) as [st []]; cbn; set_solver.
Qed.

Lemma SetChanged_createdCompTypes s e t c :
  createdCompTypes (SetChanged s e t c) = createdCompTypes s.
Proof.
  unfold SetChanged. destruct (_ !! e); [|reflexivity].
  destruct (negb _); [reflexivity|].
  rewrite AddModifiedComponent_setter. by destruct c.
Qed.

Lemma CreateEntityImplementation_createdCompTypes s e :
  createdCompTypes (CreateEntityImplementation s e).1 = createdCompTypes s.
Proof. unfold CreateEntityImplementation. break_match; reflexivity. Qed.

Lemma createdCompTypes_log (l : LogEntry) s :
  createdCompTypes (log l s) = createdCompTypes s.
Proof. reflexivity. Qed.

Lemma SetState_component_createdCompTypes s e compMsg :
  createdCompTypes s ⊆ createdCompTypes (SetState_component s e compMsg).
Proof.
  unfold SetState_component.
  repeat match goal with
         | |- context [match ?x with _ => _ end] => destruct x eqn:?
         end;
    rewrite ?createdCompTypes_log;
    try done; try (by rewrite RemoveComponent_createdCompTypes);
    etrans; [|apply CreateComponentImplementation_createdCompTypes];
    by rewrite RemoveComponent_createdCompTypes.
Qed.

Lemma SetState_map_component_createdCompTypes s e one_time compIter :
  createdCompTypes s
  ⊆ createdCompTypes (SetState_map_component s e one_time compIter).
Proof.
  unfold SetState_map_component.
  repeat match goal with
         | |- context [match ?x with _ => _ end] => destruct x eqn:?
         end;
    try done; try (by rewrite RemoveComponent_createdCompTypes);
    try apply CreateComponentImplementation_createdCompTypes;
    by rewrite SetChanged_createdCompTypes.
Qed.

Lemma createdCompTypes_foldl {A : Type} (f : ECM P V → A → ECM P V)
    (l : list A) s :
  (∀ s x, createdCompTypes s ⊆ createdCompTypes (f s x)) →
  createdCompTypes s ⊆ createdCompTypes (foldl f s l).
Proof.
  intros Hf. revert s. induction l as [|x l IH]; intros s; [done|].
  cbn [foldl]. etrans; [apply (Hf s x)|apply IH].
Qed.

Lemma RequestRemoveEntity_createdCompTypes s e recursive s' :
  RequestRemoveEntity s e recursive = Some s' →
  createdCompTypes s' = createdCompTypes s.
Proof.
  unfold RequestRemoveEntity.
  destruct (if negb recursive then _ else _); cbn [mbind option_bind];
    [|discriminate].
  by intros [= <-].
Qed.

Lemma ProcessRemoveEntityRequests_createdCompTypes s :
  createdCompTypes (ProcessRemoveEntityRequests s) = createdCompTypes s.
Proof.
  unfold ProcessRemoveEntityRequests.
  destruct (removeAllEntities s); [reflexivity|].
  change (createdCompTypes (foldl ProcessRemoveEntityRequests_one s
                              (elements (toRemoveEntities s)))
          = createdCompTypes s).
  generalize (elements (toRemoveEntities s)) as l.
  intros l. revert s. induction l as [|e l IH]; intros s; [reflexivity|].
  cbn [foldl]. rewrite IH. unfold ProcessRemoveEntityRequests_one.
  break_match; reflexivity.
Qed.

Lemma exec_createdCompTypes op s s' :
  exec op s = Some s' → createdCompTypes s ⊆ createdCompTypes s'.
Proof.
  destruct op; cbn [exec].
  - intros [= <-]. unfold CreateEntity. break_match; [done|].
    by rewrite CreateEntityImplementation_createdCompTypes.
  - by intros [= <-].
  - by intros [= <-].
  - intros Hr. by rewrite (RequestRemoveEntity_createdCompTypes _ _ _ _ Hr).
  - by intros [= <-].
  - intros [= <-]. by rewrite ProcessRemoveEntityRequests_createdCompTypes.
  - intros [= <-]. by rewrite RemoveComponent_createdCompTypes.
  - intros [= <-]. unfold EntityHasComponent. break_match; done.
  - intros [= <-]. unfold SetParentEntity.
    destruct (parent =? kNullEntity); [done|].
    by destruct (graph.AddEdge _ parent child).
  - intros [= <-]. apply CreateComponentImplementation_createdCompTypes.
  - intros [= <-]. unfold AddView. break_match; done.
  - by intros [= <-].
  - destruct (State_map _ _ _ _ _).2 eqn:Hst; [|discriminate].
    cbn [mbind option_bind]. intros [= <-].
    destruct (State_map_manager s state entities0 types full)
      as [->|(its & m & ->)]; done.
  - unfold SetState.
    apply (foldlM_invariant (λ s', createdCompTypes s ⊆ createdCompTypes s'));
      [|done].
    intros a x a' Ha. unfold SetState_entity.
    destruct (msgs.entity_remove x).
    + intros Hr. by rewrite (RequestRemoveEntity_createdCompTypes _ _ _ _ Hr).
    + intros [= <-]. etrans; [exact Ha|]. etrans; [|apply createdCompTypes_foldl].
      * destruct (negb _); [|done].
        by rewrite CreateEntityImplementation_createdCompTypes.
      * intros. apply SetState_component_createdCompTypes.
  - unfold SetState_map.
    apply (foldlM_invariant (λ s', createdCompTypes s ⊆ createdCompTypes s'));
      [|done].
    intros a x a' Ha. unfold SetState_map_entity.
    destruct (msgs.map_remove x.2).
    + intros Hr. by rewrite (RequestRemoveEntity_createdCompTypes _ _ _ _ Hr).
    + intros [= <-]. etrans; [exact Ha|]. etrans; [|apply createdCompTypes_foldl].
      * destruct (negb _); [|done].
        by rewrite CreateEntityImplementation_createdCompTypes.
      * intros. apply SetState_map_component_createdCompTypes.
  - intros [= <-]. unfold Descendants. break_match; done.
  - by intros [= <-].
  - intros [= <-]. by rewrite SetChanged_createdCompTypes.
  - intros [= <-]. unfold SetEntityCreateOffset. break_match; done.
Qed.

(** X15: a type that [HasComponentType] answers for stays one whatever the
    manager does next: no operation takes a type out of the set of the
    types created, not even the removal of all entities. *)
Theorem HasComponentType_stays (ops : list (Op P V)) s s' t :
  run ops s = Some s' →
  HasComponentType s t = true → HasComponentType s' t = true.
Proof.
  unfold HasComponentType. rewrite !bool_decide_eq_true. intros Hrun Ht.
  assert (Hsub : createdCompTypes s ⊆ createdCompTypes s'); [|set_solver].
  revert Hrun. unfold run.
  apply (foldlM_invariant (λ s', createdCompTypes s ⊆ createdCompTypes s'));
    [|done].
  intros a op a' Ha Hop. etrans; [exact Ha|].
  by eapply exec_createdCompTypes.
Qed.

End index_invariant.

(** * Entity ids and views *)

Section creation.
Context {P V : Type}.
Context `{!BaseComponent P} `{!Factory P} `{!BaseView V} `{!Declarations}.
Implicit Types s : ECM P V.

(** X16: [CreateEntity] after [SetEntityCreateOffset] returns the offset plus
    one, wrapped at 64 bits.  The offset is taken whatever it is, with a
    warning when it is below the counter; when the id after it is the id
    of an entity that exists, [CreateEntity] returns that id again and
    no entity is added. *)
Theorem SetEntityCreateOffset_CreateEntity s offset :
  let s1 := SetEntityCreateOffset s offset in
  let e := (offset + 1) mod UINT64_MOD in
  (CreateEntity s1).2 = e
  ∧ console s1
    = console s ++ (if offset <? entityCount s
                    then [WarnOffset offset (entityCount s)] else [])
  ∧ (HasEntity s e = true →
     EntityCount (CreateEntity s1).1 = EntityCount s
     ∧ HasEntity (CreateEntity s1).1 e = true).
Proof.
  cbn zeta. split; [|split].
  - destruct (CreateEntity_result (SetEntityCreateOffset s offset)) as [-> _].
    reflexivity.
  - unfold SetEntityCreateOffset. destruct (offset <? entityCount s); cbn.
    + reflexivity.
    + by rewrite app_nil_r.
  - intros He. pose proof He as [Hin Hnull]%HasEntity_elem_of.
    unfold CreateEntity.
    change (entityCount (SetEntityCreateOffset s offset)) with offset.
    apply N.eqb_neq in Hnull as Hnull'. unfold kNullId in Hnull'.
    rewrite Hnull'. split.
    + rewrite !EntityCount_size.
      rewrite CreateEntityImplementation_vertices by done.
      f_equal. cbn. unfold SetEntityCreateOffset.
      destruct (offset <? entityCount s); cbn; set_solver.
    + by apply CreateEntityImplementation_HasEntity_new.
Qed.

(** X17: [CreateEntity] below the largest id: the entity returned exists and
    is new, it has the component types the index had for its id, and
    [ClearNewlyCreatedEntities] makes it no longer new without removing
    it. *)
Theorem CreateEntity_new s :
  (CreateEntity s).2 ≠ UINT64_MAX →
  let r := CreateEntity s in
  HasEntity r.1 r.2 = true
  ∧ IsNewEntity r.1 r.2 = true
  ∧ HasNewEntities r.1 = true
  ∧ ComponentTypes_of r.1 r.2 = ComponentTypes_of s r.2
  ∧ IsNewEntity (ClearNewlyCreatedEntities r.1) r.2 = false
  ∧ HasNewEntities (ClearNewlyCreatedEntities r.1) = false
  ∧ HasEntity (ClearNewlyCreatedEntities r.1) r.2 = true.
Proof.
  cbn zeta. destruct (CreateEntity_result s) as [Hres _]. rewrite Hres.
  intros Hmax. unfold CreateEntity.
  apply N.eqb_neq in Hmax as Hmax'. rewrite Hmax'.
  set (e := (entityCount s + 1) mod UINT64_MOD) in *.
  set (s1 := with_entityCount e s).
  assert (He : HasEntity (CreateEntityImplementation s1 e).1 e = true)
    by (by apply CreateEntityImplementation_HasEntity_new).
  assert (Hnew : e ∈ newlyCreatedEntities (CreateEntityImplementation s1 e).1).
  { unfold CreateEntityImplementation. break_match; cbn; set_solver. }
  split; [exact He|]. split; [by apply bool_decide_eq_true|]. split.
  { unfold HasNewEntities. apply negb_true_iff, bool_decide_eq_false.
    set_solver. }
  split.
  { unfold ComponentTypes_of.
    by rewrite CreateEntityImplementation_entityComponents. }
  split; [by apply bool_decide_eq_false; set_solver|].
  split; [unfold HasNewEntities; by rewrite bool_decide_eq_true_2|].
  exact He.
Qed.

(** X18: [AddView] does not replace a view: [FindView] for the key gives the
    view that was there if there was one, and the new view otherwise;
    the views of the other keys are as before. *)
Theorem AddView_FindView s types view :
  FindView (AddView s types view) types
  = Some (default view (FindView s types))
  ∧ ∀ types', types' ≠ types →
      FindView (AddView s types view) types' = FindView s types'.
Proof.
  unfold FindView, AddView.
  destruct (views s !! types) as [v|] eqn:Hv; cbn.
  - by rewrite Hv.
  - split; [apply lookup_insert_eq|].
    intros types' Hne. by apply lookup_insert_ne.
Qed.

End creation.

(** * The entities of the flat snapshot *)

Section flat_state.
Context {P V : Type}.
Context `{!BaseComponent P} `{!Factory P} `{!BaseView V} `{!Declarations}.
Implicit Types s : ECM P V.

Lemma storage_complete_spec s e comps t :
  storage_complete s = true →
  entityComponents s !! e = Some comps → t ∈ comps →
  is_Some (ComponentImplementation s e t).
Proof.
  unfold storage_complete. rewrite forallb_forall.
  intros Hall Hidx Ht.
  assert (Hin : In (e, comps) (map_to_list (entityComponents s))).
  { apply list_elem_of_In. by apply elem_of_map_to_list. }
  apply Hall in Hin. cbn [fst snd] in Hin. rewrite forallb_forall in Hin.
  apply (bool_decide_unpack _). apply Is_true_true, Hin.
  by apply list_elem_of_In, elem_of_elements.
Qed.

Lemma SetRemovedComponentsMsgs_header s e entityMsg types :
  msgs.id (SetRemovedComponentsMsgs s e entityMsg types) = msgs.id entityMsg
  ∧ msgs.entity_remove (SetRemovedComponentsMsgs s e entityMsg types)
    = msgs.entity_remove entityMsg.
Proof.
  unfold SetRemovedComponentsMsgs. destruct (_ !! e); [|done].
  by rewrite SetRemovedComponentsMsgs_loop.
Qed.

(** The flat [AddEntityToMessage] for an entity of the index whose
    components are all in the storage: one entity message is appended,
    with the id of the entity, and with the removal flag exactly when
    the entity is to be removed. *)
Lemma AddEntityToMessage_entity s msg e types comps :
  entityComponents s !! e = Some comps →
  (∀ t, t ∈ comps → is_Some (ComponentImplementation s e t)) →
  ∃ entityMsg,
    AddEntityToMessage s msg e types = Some (msg ++ [entityMsg])
    ∧ msgs.id entityMsg = e
    ∧ msgs.entity_remove entityMsg = bool_decide (e ∈ toRemoveEntities s).
Proof.
  intros Hidx Hstore. unfold AddEntityToMessage. rewrite Hidx.
  assert (Hloop : ∀ (l : list ComponentTypeId) (m : msgs.SerializedEntity),
    ∃ m',
      foldlM (λ entityMsg t,
                if negb (bool_decide (t ∈ comps)) then Some entityMsg
                else
                  compBase ← ComponentImplementation s e t;
                  Some (add_components entityMsg
                          {| msgs.type := TypeId compBase;
                             msgs.component := Serialize compBase;
                             msgs.remove := false |}))
             m l = Some m'
      ∧ msgs.id m' = msgs.id m
      ∧ msgs.entity_remove m' = msgs.entity_remove m).
  { induction l as [|t l IH]; intros m; cbn [foldlM]; [by eexists|].
    destruct (decide (t ∈ comps)) as [Ht|Ht].
    - rewrite bool_decide_eq_true_2 by done. cbn [negb].
      destruct (Hstore t Ht) as [c ->]. cbn [mbind option_bind].
      destruct (IH (add_components m
                      {| msgs.type := TypeId c; msgs.component := Serialize c;
                         msgs.remove := false |})) as (m' & -> & ? & ?).
      by exists m'.
    - rewrite bool_decide_eq_false_2 by done. cbn [negb mbind option_bind].
      apply IH. }
  cbv zeta.
  match goal with
  | |- context [foldlM ?f ?m ?l] => destruct (Hloop l m) as (m' & -> & Hid & Hrm)
  end.
  cbn [mbind option_bind]. eexists. split; [reflexivity|].
  destruct (SetRemovedComponentsMsgs_header s e m' types) as [-> ->].
  rewrite Hid, Hrm. by destruct (bool_decide _).
Qed.

(** X19: the flat [State], when the storage has every component of the
    index: one entity message for each entity of the index that is
    asked for (every entity, when the set of entities given is empty),
    in the order of the index and none twice, with the removal flag
    exactly when the entity is to be removed. *)
Theorem State_entities s ents types :
  storage_complete s = true →
  ∃ stateMsg,
    State s ents types = Some stateMsg
    ∧ msgs.id <$> stateMsg
      = filter (λ e, ents = ∅ ∨ e ∈ ents) (map_to_list (entityComponents s)).*1
    ∧ NoDup (msgs.id <$> stateMsg)
    ∧ ∀ m, m ∈ stateMsg →
           msgs.entity_remove m
           = bool_decide (msgs.id m ∈ toRemoveEntities s).
Proof.
  intros Hstore. unfold State.
  pose proof (λ e comps t, storage_complete_spec s e comps t Hstore) as Hst.
  clear Hstore. rename Hst into Hstore.
  assert (Hloop : ∀ (l : list (Entity * gset ComponentTypeId))
                    (msg : msgs.SerializedState),
    (∀ it, it ∈ l → entityComponents s !! it.1 = Some it.2) →
    ∃ added,
      foldlM (λ stateMsg it,
                let entity := it.1 in
                if negb (bool_decide (ents = ∅))
                   && negb (bool_decide (entity ∈ ents))
                then Some stateMsg
                else AddEntityToMessage s stateMsg entity types)
             msg l = Some (msg ++ added)
      ∧ msgs.id <$> added = filter (λ e, ents = ∅ ∨ e ∈ ents) l.*1
      ∧ ∀ m, m ∈ added →
             msgs.entity_remove m
             = bool_decide (msgs.id m ∈ toRemoveEntities s)).
  { induction l as [|[e comps] l IH]; intros msg Hl; cbn [foldlM].
    - exists []. rewrite app_nil_r. split; [done|]. split; [done|].
      by intros m ?%elem_of_nil.
    - cbn [fst]. rewrite fmap_cons, filter_cons. cbn [fst].
      assert (Hl' : ∀ it, it ∈ l → entityComponents s !! it.1 = Some it.2).
      { intros it Hit. apply Hl. by right. }
      destruct (decide (ents = ∅ ∨ e ∈ ents)) as [Hsel|Hsel].
      + assert (Hcond : negb (bool_decide (ents = ∅))
                        && negb (bool_decide (e ∈ ents)) = false).
        { destruct Hsel as [Hsel|Hsel].
          - by rewrite (bool_decide_eq_true_2 _ Hsel).
          - rewrite (bool_decide_eq_true_2 (e ∈ ents)) by done.
            apply andb_false_r. }
        rewrite Hcond.
        destruct (AddEntityToMessage_entity s msg e types comps)
          as (m & -> & Hid & Hrm).
        { apply (Hl (e, comps)). left. }
        { intros t Ht. eapply Hstore; [|done]. apply (Hl (e, comps)). left. }
        cbn [mbind option_bind].
        destruct (IH (msg ++ [m]) Hl') as (added & Hrun & Hids & Hrms).
        exists (m :: added). rewrite <- app_assoc in Hrun.
        split; [exact Hrun|].
        split; [by rewrite fmap_cons, Hid, Hids|].
        intros m0 [->|Hm0]%elem_of_cons; [by rewrite Hrm, Hid|by apply Hrms].
      + assert (Hcond : negb (bool_decide (ents = ∅))
                        && negb (bool_decide (e ∈ ents)) = true).
        { rewrite !bool_decide_eq_false_2 by tauto. done. }
        rewrite Hcond. cbn [mbind option_bind]. by apply IH. }
  destruct (Hloop (map_to_list (entityComponents s)) []) as (added & Hrun & Hids & Hrms).
  { intros [e comps] Hit. by apply elem_of_map_to_list in Hit. }
  exists added. split; [exact Hrun|]. split; [exact Hids|]. split; [|exact Hrms].
  rewrite Hids. apply NoDup_filter, NoDup_fst_map_to_list.
Qed.

(** X20: the flat [AddEntityToMessage] for an entity that has no entry in
    the index appends a message with the id only: the removal flag is
    not set even when the entity is to be removed, and [SetState] of the
    message creates the entity where it does not exist. *)
Theorem AddEntityToMessage_bare_entity s (r : ECM P V) msg e types :
  entityComponents s !! e = None → e ≠ kNullId →
  let entityMsg :=
    {| msgs.id := e; msgs.entity_remove := false; msgs.components := [] |} in
  AddEntityToMessage s msg e types = Some (msg ++ [entityMsg])
  ∧ ∃ r', SetState r [entityMsg] = Some r'
          ∧ HasEntity r' e = true
          ∧ toRemoveEntities r' = toRemoveEntities r.
Proof.
  intros Hidx He. cbn zeta. split.
  { unfold AddEntityToMessage. by rewrite Hidx. }
  cbn. eexists. split; [reflexivity|].
  destruct (HasEntity r e) eqn:Hr; cbn [negb].
  - done.
  - split; [by apply CreateEntityImplementation_HasEntity_new|].
    unfold CreateEntityImplementation. break_match; reflexivity.
Qed.

End flat_state.

(** * Applying a map-form message to a component *)

Section applying.
Context {P V : Type}.
Context `{!BaseComponent P} `{!Factory P} `{!BaseView V} `{!Declarations}.
Implicit Types s : ECM P V.

(** The fields that [RemoveComponent] writes when the entity has the
    component. *)
Lemma RemoveComponent_fields s e t :
  EntityHasComponentType s e t = true →
  let s' := (RemoveComponent s e t).1 in
  entities s' = entities s
  ∧ entityComponents s'
    = <[e := default ∅ (entityComponents s !! e) ∖ {[t]}]> (entityComponents s)
  ∧ entityCompStorage s' = (storage.RemoveComponent (entityCompStorage s) e t).1
  ∧ oneTimeChangedComponents s'
    = changed_erase_prune (oneTimeChangedComponents s) t e
  ∧ periodicChangedComponents s'
    = changed_erase_prune (periodicChangedComponents s) t e
  ∧ removedComponents s' = changed_insert (removedComponents s) e t
  ∧ createdCompTypes s' = createdCompTypes s.
Proof.
  intros Hhas. cbn zeta. unfold RemoveComponent. rewrite Hhas. cbn [negb].
  cbv zeta. ecm_simpl.
  destruct (storage.RemoveComponent _ e t) as [st removedComp].
  rewrite AddModifiedComponent_setter.
  by destruct removedComp.
Qed.

(** The fields that [CreateComponentImplementation] writes when it
    accepts the component. *)
Lemma CreateComponentImplementation_fields s e t data :
  HasEntity s e = true → HasComponentType s t || HasType t = true →
  let s' := (CreateComponentImplementation s e t data).1 in
  entities s' = entities s
  ∧ entityComponents s' = changed_insert (entityComponents s) e t
  ∧ entityCompStorage s'
    = (storage.AddComponent (entityCompStorage s) e (NewFrom t data)).1
  ∧ oneTimeChangedComponents s'
    = changed_insert (oneTimeChangedComponents s) t e
  ∧ periodicChangedComponents s' = periodicChangedComponents s
  ∧ removedComponents s' = removedComponents s.
Proof.
  intros He Hreg. cbn zeta. unfold CreateComponentImplementation.
  rewrite He. cbn [negb].
  assert (Hreg' : negb (HasComponentType s t) && negb (HasType t) = false).
  { by destruct (HasComponentType s t), (HasType t). }
  rewrite Hreg', AddModifiedComponent_setter. cbv zeta. ecm_simpl.
  destruct (storage.AddComponent _ e _) as [st res].
  by destruct res.
Qed.

Lemma ComponentState_of_SetChanged s e t c comps :
  entityComponents s !! e = Some comps → t ∈ comps →
  ComponentState_of (SetChanged s e t c) e t = c.
Proof.
  intros Hidx Ht. unfold SetChanged. rewrite Hidx.
  rewrite bool_decide_eq_true_2 by done. cbn [negb].
  rewrite ComponentState_of_AddModifiedComponent.
  unfold ComponentState_of. destruct c; ecm_simpl in *; rewrite Hidx;
    rewrite bool_decide_eq_true_2 by done; cbn [negb];
    rewrite ?changed_mem_insert, ?changed_mem_erase; reflexivity.
Qed.

(** X21: the map-form [SetState] with a message for a component the entity
    has: the component of the storage reads the data in place, and its
    state is what the message says of its changes; nothing is recorded
    as removed and the index is as before. *)
Theorem SetState_map_updates s e t compMsg comp comps one_time :
  HasEntity s e = true →
  entityComponents s !! e = Some comps → t ∈ comps →
  ComponentImplementation s e t = Some comp →
  HasType (msgs.type compMsg) = true → msgs.remove compMsg = false →
  let stateMsg :=
    {| msgs.entities :=
         {[ e := {| msgs.map_id := e; msgs.map_remove := false;
                    msgs.map_components := {[ t := compMsg ]} |} ]};
       msgs.has_one_time_component_changes := one_time |} in
  ∃ s', SetState_map s stateMsg = Some s'
        ∧ ComponentImplementation s' e t
          = Some (Deserialize comp (msgs.component compMsg))
        ∧ ComponentState_of s' e t
          = (if one_time then OneTimeChange else PeriodicChange)
        ∧ removedComponents s' = removedComponents s
        ∧ entityComponents s' = entityComponents s.
Proof.
  intros He Hidx Ht Hcomp Htype Hrm. cbn zeta.
  unfold SetState_map. cbn [msgs.entities msgs.has_one_time_component_changes].
  rewrite map_to_list_singleton. cbn [foldlM].
  unfold SetState_map_entity. cbn [snd msgs.map_remove msgs.map_id
                                   msgs.map_components].
  rewrite He. cbn [negb]. rewrite map_to_list_singleton. cbn [foldl].
  cbn [mbind option_bind]. eexists. split; [reflexivity|].
  unfold SetState_map_component. cbn [fst snd]. rewrite Htype, Hrm, Hcomp.
  cbn [negb].
  set (s1 := deserialize_in_place s e t (msgs.component compMsg)).
  assert (Hidx1 : entityComponents s1 !! e = Some comps) by exact Hidx.
  split; [|split; [|split]].
  - unfold ComponentImplementation.
    assert (Hst : entityCompStorage (SetChanged s1 e t
                    (if one_time then OneTimeChange else PeriodicChange))
                  = entityCompStorage s1).
    { unfold SetChanged. rewrite Hidx1.
      rewrite bool_decide_eq_true_2 by done. cbn [negb].
      rewrite AddModifiedComponent_setter. by destruct one_time. }
    rewrite Hst. subst s1. unfold deserialize_in_place. ecm_simpl.
    revert Hcomp. unfold ComponentImplementation, storage.ValidComponent.
    ecm_simpl. rewrite lookup_alter_eq.
    match goal with
    | |- match ?x with _ => _ end = _ → _ => destruct x as [slots|]
    end; [|done].
    cbn [fmap option_fmap option_map]. rewrite lookup_alter_eq.
    destruct (slots !! t) as [[c|]|]; [|done..]. by intros [= ->].
  - by eapply ComponentState_of_SetChanged.
  - unfold SetChanged. rewrite Hidx1.
    rewrite bool_decide_eq_true_2 by done. cbn [negb].
    rewrite AddModifiedComponent_setter. by destruct one_time.
  - by rewrite SetChanged_entityComponents.
Qed.

End applying.

(** * Applying a flat message to a component *)

Section applying_flat.
Context {P V : Type}.
Context `{!BaseComponent P} `{!Factory P} `{!BaseView V} `{!Declarations}.
Context `{!ComponentLaws P}.
Implicit Types s : ECM P V.

Lemma storage_RemoveComponent_lookup (st : EntityComponentStorage P)
    (e : Entity) (t : ComponentTypeId) (slots : gmap ComponentTypeId (option P)) :
  st !! e = Some slots →
  ∃ slots', (storage.RemoveComponent st e t).1 !! e = Some slots'
            ∧ match slots' !! t with Some (Some _) => False | _ => True end.
Proof.
  intros Hst. unfold storage.RemoveComponent. rewrite Hst.
  destruct (slots !! t) as [[c|]|] eqn:Hslot; cbn [fst].
  - eexists. rewrite lookup_insert_eq. split; [done|].
    by rewrite lookup_insert_eq.
  - exists slots. by rewrite Hst, Hslot.
  - exists slots. by rewrite Hst, Hslot.
Qed.

(** X22: the flat [SetState] with a message for a component the entity has:
    the component is removed and created again from the data, so it is
    the component read from the message, its state is [OneTimeChange],
    and its type is recorded as removed for the entity. *)
Theorem SetState_update_recreates s e t d slots :
  EntityHasComponentType s e t = true →
  entityCompStorage s !! e = Some slots →
  HasType t = true → d ≠ EmptyString →
  let stateMsg :=
    [ {| msgs.id := e; msgs.entity_remove := false;
         msgs.components :=
           [ {| msgs.type := t; msgs.component := d; msgs.remove := false |} ]
      |} ] in
  ∃ s' c0,
    SetState s stateMsg = Some s' ∧ New t = Some c0
    ∧ ComponentImplementation s' e t = Some (Deserialize c0 d)
    ∧ EntityHasComponentType s' e t = true
    ∧ ComponentState_of s' e t = OneTimeChange
    ∧ t ∈ default ∅ (removedComponents s' !! e).
Proof.
  intros Hhas Hslots Htype Hd. cbn zeta.
  assert (He : HasEntity s e = true).
  { unfold EntityHasComponentType in Hhas. by destruct (HasEntity s e). }
  destruct (New_HasType t Htype) as [c0 Hnew].
  pose proof (Deserialize_TypeId t c0 d Hnew) as Hid.
  pose proof (NewFrom_copy t (Deserialize c0 d) Hid) as Hcopy.
  destruct (RemoveComponent_fields s e t Hhas)
    as (Hg1 & Hidx1 & Hst1 & _ & _ & Hrm1 & _).
  set (s1 := (RemoveComponent s e t).1) in *.
  destruct (storage_RemoveComponent_lookup (entityCompStorage s) e t slots Hslots)
    as (slots1 & Hslots1 & Hslot1).
  rewrite <- Hst1 in Hslots1.
  assert (He1 : HasEntity s1 e = true)
    by (by rewrite (HasEntity_entities s s1)).
  assert (Hnone : ComponentImplementation s1 e t = None).
  { unfold ComponentImplementation, storage.ValidComponent. rewrite Hslots1.
    by destruct (slots1 !! t) as [[c|]|]. }
  destruct (CreateComponentImplementation_fields s1 e t (Deserialize c0 d))
    as (Hg2 & Hidx2 & Hst2 & Hone2 & _ & Hrm2); [done|by rewrite Htype, orb_true_r|].
  set (s2 := (CreateComponentImplementation s1 e t (Deserialize c0 d)).1) in *.
  assert (Hrun : SetState s
                   [ {| msgs.id := e; msgs.entity_remove := false;
                        msgs.components :=
                          [ {| msgs.type := t; msgs.component := d;
                               msgs.remove := false |} ] |} ] = Some s2).
  { unfold SetState. cbn [foldlM]. unfold SetState_entity.
    cbn [msgs.entity_remove msgs.id msgs.components].
    rewrite He. cbn [negb foldl mbind option_bind]. unfold SetState_component.
    cbn [msgs.component msgs.type msgs.remove].
    rewrite bool_decide_eq_false_2 by done. rewrite Htype. cbn [negb].
    rewrite Hnew, Hid. fold s1. by rewrite Hnone. }
  clearbody s2. clearbody s1.
  exists s2, c0. split; [exact Hrun|]. split; [exact Hnew|].
  assert (Hidx2' : entityComponents s2 !! e
                   = Some ({[t]} ∪ default ∅ (entityComponents s1 !! e))).
  { rewrite Hidx2. apply lookup_insert_eq. }
  split.
  { unfold ComponentImplementation, storage.ValidComponent.
    rewrite Hst2, Hcopy. unfold storage.AddComponent. rewrite Hslots1, Hid.
    destruct (slots1 !! t) as [[c|]|]; cbn [fst];
      by rewrite lookup_insert_eq, lookup_insert_eq. }
  split.
  { unfold EntityHasComponentType.
    rewrite (HasEntity_entities s1 s2) by done. rewrite He1, Hidx2'. cbn.
    apply bool_decide_eq_true. set_solver. }
  split.
  { unfold ComponentState_of. rewrite Hidx2'.
    rewrite bool_decide_eq_true_2 by set_solver. cbn [negb].
    by rewrite Hone2, changed_mem_insert. }
  rewrite Hrm2, Hrm1. unfold changed_insert. rewrite lookup_insert_eq. cbn.
  set_solver.
Qed.

End applying_flat.

(** * The threads of the map-form snapshot *)

Section threads.
Context {P V : Type}.
Context `{!BaseComponent P} `{!Factory P} `{!BaseView V} `{!Declarations}.
Implicit Types s : ECM P V.
Implicit Types msg : msgs.SerializedStateMap.

Lemma partial_alter_twice {A : Type} (f g : option A → option A)
    (m : gmap Entity A) (e : Entity) :
  partial_alter f e (partial_alter g e m) = partial_alter (f ∘ g) e m.
Proof. rewrite partial_alter_partial_alter. by rewrite decide_True. Qed.

Lemma partial_alter_same {A : Type} (m : gmap Entity A) (e : Entity) :
  partial_alter (λ o, o) e m = m.
Proof. by apply partial_alter_id. Qed.

Lemma ensure_entity_partial_alter (m : gmap Entity msgs.SerializedEntityMap)
    (e : Entity) :
  ensure_entity m e
  = partial_alter
      (λ o, Some (default {| msgs.map_id := e; msgs.map_remove := false;
                             msgs.map_components := ∅ |} o)) e m.
Proof.
  unfold ensure_entity. destruct (m !! e) as [x|] eqn:Hm.
  - symmetry. apply partial_alter_id. by rewrite Hm.
  - apply partial_alter_ext. intros x Hx. rewrite Hm in Hx. by subst x.
Qed.

Lemma with_entities_same msg : msgs.with_entities (msgs.entities msg) msg = msg.
Proof. by destruct msg. Qed.

(** What [SetRemovedComponentsMsgs] does to a message is a change of the
    entry of the entity, the same whatever the message. *)
Lemma SetRemovedComponentsMsgs_map_entry s e types :
  ∃ g, ∀ msg,
    SetRemovedComponentsMsgs_map s e msg types
    = msgs.with_entities (partial_alter g e (msgs.entities msg)) msg.
Proof.
  unfold SetRemovedComponentsMsgs_map.
  destruct (removedComponents s !! e) as [removed|].
  2: { exists (λ o, o). intros msg.
       by rewrite partial_alter_same, with_entities_same. }
  destruct (bool_decide (size removed = 0%nat)).
  { exists (λ o, o). intros msg.
    by rewrite partial_alter_same, with_entities_same. }
  assert (Hloop : ∀ l : list ComponentTypeId,
    ∃ g, ∀ ents : gmap Entity msgs.SerializedEntityMap,
      foldl (λ ents compType,
               if filtered_out types compType then ents
               else alter (set_map_components
                             (<[compType := removed_component_msg compType]>))
                          e ents)
            ents l
      = partial_alter g e ents).
  { induction l as [|t l [g IH]]; cbn [foldl].
    - exists (λ o, o). intros ents. by rewrite partial_alter_same.
    - destruct (filtered_out types t); [by exists g|].
      eexists. intros ents. rewrite IH.
      unfold alter at 1, map_alter. by rewrite partial_alter_twice. }
  destruct (Hloop (elements removed)) as [g Hg].
  eexists. intros msg. cbv zeta.
  by rewrite Hg, ensure_entity_partial_alter, partial_alter_twice.
Qed.

(** So is what the map-form [AddEntityToMessage] does, and whether it
    has a result does not depend on the message. *)
Lemma AddEntityToMessage_map_entry s e types full :
  ∃ G : option (option msgs.SerializedEntityMap
                → option msgs.SerializedEntityMap),
    ∀ msg,
      AddEntityToMessage_map s msg e types full
      = g ← G;
        Some (msgs.with_entities (partial_alter g e (msgs.entities msg)) msg).
Proof.
  unfold AddEntityToMessage_map.
  destruct (entityComponents s !! e) as [comps|].
  2: { exists (Some (λ o, o)). intros msg. cbn.
       by rewrite partial_alter_same, with_entities_same. }
  cbv zeta.
  match goal with
  | |- context [foldlM ?f _ ?l] =>
      assert (Hloop : ∀ l' : list ComponentTypeId,
        ∃ G : option (option msgs.SerializedEntityMap
                      → option msgs.SerializedEntityMap),
          ∀ ents, foldlM f ents l' = g ← G; Some (partial_alter g e ents));
      [|destruct (Hloop l) as [G HG]]
  end.
  { induction l' as [|t l' [G IH]]; cbn [foldlM].
    - exists (Some (λ o, o)). intros ents. cbn. by rewrite partial_alter_same.
    - destruct (negb (bool_decide (t ∈ comps))); [by exists G|].
      destruct (if negb full then noChange s e t else Some false)
        as [[|]|]; cbn [mbind option_bind].
      + by exists G.
      + destruct (ComponentImplementation s e t) as [comp|];
          cbn [mbind option_bind].
        * destruct G as [g|].
          -- eexists (Some _). intros ents. rewrite IH. cbn [mbind option_bind].
             unfold alter at 1, map_alter.
             rewrite ensure_entity_partial_alter, !partial_alter_twice.
             reflexivity.
          -- exists None. intros ents. by rewrite IH.
        * by exists None.
      + by exists None. }
  destruct (SetRemovedComponentsMsgs_map_entry s e types) as [gr Hgr].
  destruct G as [g|].
  2: { exists None. intros msg. by rewrite HG. }
  destruct (bool_decide (e ∈ toRemoveEntities s)).
  - eexists (Some _). intros msg. rewrite HG. cbn [mbind option_bind].
    rewrite Hgr. cbn [msgs.entities msgs.with_entities].
    unfold alter, map_alter.
    rewrite ensure_entity_partial_alter, !partial_alter_twice.
    destruct msg; reflexivity.
  - eexists (Some _). intros msg. rewrite HG. cbn [mbind option_bind].
    rewrite Hgr. cbn [msgs.entities msgs.with_entities].
    rewrite !partial_alter_twice. destruct msg; reflexivity.
Qed.


Lemma AddEntityToMessage_map_local s e types full msg1 msg2 :
  msgs.entities msg1 !! e = msgs.entities msg2 !! e →
  match AddEntityToMessage_map s msg1 e types full,
        AddEntityToMessage_map s msg2 e types full with
  | Some r1, Some r2 => msgs.entities r1 !! e = msgs.entities r2 !! e
  | None, None => True
  | _, _ => False
  end.
Proof.
  intros Heq.
  destruct (AddEntityToMessage_map_entry s e types full) as [[g|] HG];
    rewrite !HG; cbn [mbind option_bind]; [|done].
  cbn [msgs.entities msgs.with_entities].
  by rewrite !lookup_partial_alter_eq, Heq.
Qed.

Lemma AddEntityToMessage_map_flag s e types full msg msg' :
  AddEntityToMessage_map s msg e types full = Some msg' →
  msgs.has_one_time_component_changes msg'
  = msgs.has_one_time_component_changes msg.
Proof.
  destruct (AddEntityToMessage_map_entry s e types full) as [[g|] HG];
    rewrite HG; cbn [mbind option_bind]; [|done].
  by intros [= <-].
Qed.

Lemma State_loop_frame s ents types full (l : list Entity) msg msg' :
  State_loop s ents types full msg l = Some msg' →
  (∀ e, e ∉ l → msgs.entities msg' !! e = msgs.entities msg !! e)
  ∧ msgs.has_one_time_component_changes msg'
    = msgs.has_one_time_component_changes msg.
Proof.
  unfold State_loop. revert msg.
  induction l as [|x l IH]; intros msg; cbn [foldlM].
  - by intros [= <-].
  - destruct (_ || _).
    + destruct (AddEntityToMessage_map s msg x types full) as [m1|] eqn:Hx;
        [|done].
      cbn [mbind option_bind]. intros [Hr Hf]%IH. split.
      * intros e He. rewrite Hr by set_solver.
        eapply AddEntityToMessage_map_lookup_ne; [|exact Hx]. set_solver.
      * rewrite Hf. by eapply AddEntityToMessage_map_flag.
    + cbn [mbind option_bind]. intros [Hr Hf]%IH. split; [|done].
      intros e He. apply Hr. set_solver.
Qed.

Lemma State_loop_local s ents types full (l : list Entity) msg1 msg2 :
  NoDup l →
  (∀ e, e ∈ l → msgs.entities msg1 !! e = msgs.entities msg2 !! e) →
  match State_loop s ents types full msg1 l,
        State_loop s ents types full msg2 l with
  | Some r1, Some r2 =>
      ∀ e, e ∈ l → msgs.entities r1 !! e = msgs.entities r2 !! e
  | None, None => True
  | _, _ => False
  end.
Proof.
  intros Hnd. revert msg1 msg2.
  induction Hnd as [|x l Hx Hnd IH]; intros msg1 msg2 Heq.
  { cbn. by intros e ?%elem_of_nil. }
  unfold State_loop. cbn [foldlM]. fold (State_loop s ents types full).
  assert (Hstep : ∀ m1 m2 : msgs.SerializedStateMap,
    msgs.entities m1 !! x = msgs.entities m2 !! x →
    (∀ e, e ∈ l → msgs.entities m1 !! e = msgs.entities m2 !! e) →
    match State_loop s ents types full m1 l,
          State_loop s ents types full m2 l with
    | Some r1, Some r2 =>
        ∀ e, e ∈ x :: l → msgs.entities r1 !! e = msgs.entities r2 !! e
    | None, None => True
    | _, _ => False
    end).
  { intros m1 m2 Hmx Hml. specialize (IH m1 m2 Hml).
    destruct (State_loop s ents types full m1 l) as [r1|] eqn:H1,
             (State_loop s ents types full m2 l) as [r2|] eqn:H2; try done.
    intros e [->|He]%elem_of_cons; [|by apply IH].
    destruct (State_loop_frame _ _ _ _ _ _ _ H1) as [-> _]; [|done].
    by destruct (State_loop_frame _ _ _ _ _ _ _ H2) as [-> _]. }
  destruct (_ || _).
  - assert (Hxx : x ∈ x :: l) by left.
    pose proof (AddEntityToMessage_map_local s x types full msg1 msg2
                  (Heq x Hxx)) as Hloc.
    destruct (AddEntityToMessage_map s msg1 x types full) as [m1|] eqn:H1,
             (AddEntityToMessage_map s msg2 x types full) as [m2|] eqn:H2;
      cbn [mbind option_bind]; try done.
    apply Hstep; [exact Hloc|].
    intros e He. assert (Hne : e ≠ x) by (by intros ->).
    rewrite (AddEntityToMessage_map_lookup_ne _ _ _ _ _ _ _ Hne H1).
    rewrite (AddEntityToMessage_map_lookup_ne _ _ _ _ _ _ _ Hne H2).
    apply Heq. by right.
  - cbn [mbind option_bind]. apply Hstep; [apply Heq; left|].
    intros e He. apply Heq. by right.
Qed.

Lemma State_merge_lookup state threadMap e :
  msgs.entities (State_merge state threadMap) !! e
  = match msgs.entities threadMap !! e with
    | Some x => Some x
    | None => msgs.entities state !! e
    end.
Proof.
  unfold State_merge. cbn [msgs.entities msgs.with_entities].
  rewrite <- (list_to_map_to_list (msgs.entities threadMap)) at 2.
  pose proof (NoDup_fst_map_to_list (msgs.entities threadMap)) as Hnd.
  revert Hnd. generalize (msgs.entities state) as m0.
  generalize (map_to_list (msgs.entities threadMap)) as l.
  induction l as [|[k v] l IH]; intros m0 Hnd; cbn [foldl].
  - cbn [list_to_map foldr]. by rewrite lookup_empty.
  - cbn in Hnd. apply NoDup_cons in Hnd as [Hk Hnd].
    rewrite IH by done. cbn [list_to_map foldr fst snd].
    destruct (decide (e = k)) as [->|Hne].
    + rewrite !lookup_insert_eq.
      by rewrite (not_elem_of_list_to_map_1 _ _ Hk).
    + by rewrite !lookup_insert_ne.
Qed.

Lemma State_map_eq (m1 m2 : msgs.SerializedStateMap) :
  msgs.entities m1 = msgs.entities m2 →
  msgs.has_one_time_component_changes m1
  = msgs.has_one_time_component_changes m2 →
  m1 = m2.
Proof. destruct m1, m2. cbn. by intros -> ->. Qed.

Lemma State_functor_loop s ents types full (a b : nat) :
  (a ≤ b ≤ length (map_to_list (entityComponents s)).*1)%nat →
  State_functor s ents types full a b
  = State_loop s ents types full msgs.empty_state_map
      (take (b - a) (drop a (map_to_list (entityComponents s)).*1)).
Proof.
  intros Hab. unfold State_functor. cbv zeta.
  by rewrite bool_decide_eq_true_2.
Qed.

(** The workers over consecutive ranges give what one loop over the
    rest of the index gives. *)
Lemma State_workers_loop s ents types full (its : list nat) (a : nat) state :
  thread_ranges (length (map_to_list (entityComponents s)).*1) a its →
  (∀ e, e ∈ drop a (map_to_list (entityComponents s)).*1 →
        msgs.entities state !! e = None) →
  State_workers s ents types full (a :: its) state
  = State_loop s ents types full state
      (drop a (map_to_list (entityComponents s)).*1).
Proof.
  pose proof (NoDup_fst_map_to_list (entityComponents s)) as Hnd.
  remember ((map_to_list (entityComponents s)).*1) as seq eqn:Hseq.
  revert a state.
  induction its as [|b its IH]; intros a state Hranges Hstate.
  - cbn in Hranges. subst a. cbn. by rewrite drop_all.
  - destruct Hranges as [Hab Hranges]. cbn [State_workers].
    assert (Hfun : State_functor s ents types full a b
                   = State_loop s ents types full msgs.empty_state_map
                       (take (b - a) (drop a seq))).
    { rewrite State_functor_loop by (rewrite <- Hseq; exact Hab).
      by rewrite <- Hseq. }
    rewrite Hfun.
    assert (Hsplit : drop a seq = take (b - a) (drop a seq) ++ drop b seq).
    { rewrite <- (take_drop (b - a) (drop a seq)) at 1. f_equal.
      rewrite drop_drop. f_equal. lia. }
    rewrite Hsplit at 2. unfold State_loop at 2. rewrite foldlM_app.
    fold (State_loop s ents types full state (take (b - a) (drop a seq))).
    set (chunk := take (b - a) (drop a seq)) in *.
    assert (Hnd_a : NoDup (chunk ++ drop b seq)).
    { rewrite <- Hsplit. rewrite <- (take_drop a seq) in Hnd.
      by apply NoDup_app in Hnd as (_ & _ & Hnd). }
    apply NoDup_app in Hnd_a as (Hnd_chunk & Hdisj & _).
    pose proof (State_loop_local s ents types full chunk state
                  msgs.empty_state_map Hnd_chunk) as Hloc.
    destruct (State_loop s ents types full state chunk) as [r1|] eqn:H1,
             (State_loop s ents types full msgs.empty_state_map chunk)
               as [r2|] eqn:H2; cbn [mbind option_bind].
    + assert (Hr1 : State_merge state r2 = r1).
      { destruct (State_loop_frame _ _ _ _ _ _ _ H1) as [Hf1 Hflag1].
        destruct (State_loop_frame _ _ _ _ _ _ _ H2) as [Hf2 _].
        apply State_map_eq; [|by rewrite Hflag1].
        apply map_eq. intros e. rewrite State_merge_lookup.
        destruct (decide (e ∈ chunk)) as [He|He].
        - rewrite <- Hloc; [|..|done].
          + destruct (msgs.entities r1 !! e) eqn:Hr1e; [done|].
            apply Hstate. rewrite Hsplit. apply elem_of_app. by left.
          + intros e' He'. cbn. rewrite lookup_empty. apply Hstate.
            rewrite Hsplit. apply elem_of_app. by left.
        - rewrite Hf2, Hf1 by done. cbn. by rewrite lookup_empty. }
      rewrite Hr1. apply IH; [done|].
      intros e He. destruct (State_loop_frame _ _ _ _ _ _ _ H1) as [-> _].
      * apply Hstate. rewrite Hsplit. apply elem_of_app. by right.
      * intros Hc. by apply (Hdisj e).
    + exfalso. apply Hloc. intros e' He'. cbn. rewrite lookup_empty.
      apply Hstate. rewrite Hsplit. apply elem_of_app. by left.
    + exfalso. apply Hloc. intros e' He'. cbn. rewrite lookup_empty.
      apply Hstate. rewrite Hsplit. apply elem_of_app. by left.
    + done.
Qed.


Lemma thread_iterators_ranges (n : nat) (k : nat) (numComponents cpt : Z)
    (startIt : nat) :
  (0 < cpt)%Z → (0 < numComponents)%Z →
  (numComponents ≤ Z.of_nat k * cpt)%Z →
  (Z.of_nat startIt + numComponents = Z.of_nat n)%Z →
  thread_ranges n startIt (thread_iterators k numComponents cpt startIt n)
  ∧ (length (thread_iterators k numComponents cpt startIt n) ≤ k)%nat.
Proof.
  intros Hcpt. revert numComponents startIt.
  induction k as [|k IH]; intros numComponents startIt Hpos Hle Hsum; [lia|].
  cbn [thread_iterators].
  destruct (numComponents - cpt <=? 0)%Z eqn:Hlast.
  - cbn [thread_ranges length]. split; [lia|lia].
  - apply Z.leb_gt in Hlast.
    destruct (IH (numComponents - cpt)%Z (startIt + Z.to_nat cpt)%nat)
      as [Hr Hl]; [lia|nia|lia|].
    cbn [thread_ranges length]. split; [|lia]. split; [lia|exact Hr].
Qed.

Lemma to_int_range (z : Z) : (- 2147483648 ≤ to_int z ≤ INT_MAX)%Z.
Proof.
  unfold to_int, INT_MAX.
  pose proof (Z.mod_pos_bound (z + 2147483648) 4294967296 ltac:(lia)). lia.
Qed.

(** The quotient that [CalculateStateThreadLoad] rounds up lies between
    zero and [numComponents]: it fits in [int], and the subtraction of
    the loop does not leave the range of [int]. *)
Lemma componentsPerThread_range (size maxThreads : Z) :
  let numComponents := to_int size in
  let numThreads := to_uint64 (Z.min numComponents (to_int maxThreads)) in
  numThreads ≠ 0%Z →
  (0 ≤ - (- numComponents / numThreads) ≤ Z.max 0 numComponents)%Z.
Proof.
  cbv zeta. pose proof (to_int_range size) as Hn.
  pose proof (to_int_range maxThreads) as Hm.
  set (n := to_int size) in *. set (m := to_int maxThreads) in *.
  unfold INT_MAX in *. intros Hk.
  assert (Hcases : ((0 < Z.min n m ∧ to_uint64 (Z.min n m) = Z.min n m)
                    ∨ (Z.min n m < 0
                       ∧ to_uint64 (Z.min n m)
                         = 18446744073709551616 + Z.min n m))%Z).
  { destruct (Z.lt_trichotomy (Z.min n m) 0) as [Hneg|[Hzero|Hpos]].
    - right. split; [exact Hneg|]. unfold to_uint64.
      symmetry. apply (Z.mod_unique_pos _ _ (-1)); lia.
    - exfalso. apply Hk. by rewrite Hzero.
    - left. split; [exact Hpos|]. apply Z.mod_small. lia. }
  destruct Hcases as [[Hpos ->]|[Hneg ->]].
  - set (k := Z.min n m) in *.
    pose proof (Z.div_mod (- n) k ltac:(lia)).
    pose proof (Z.mod_pos_bound (- n) k ltac:(lia)). nia.
  - set (k := (18446744073709551616 + Z.min n m)%Z) in *.
    assert (Hbig : (4294967296 < k)%Z) by lia.
    pose proof (Z.div_mod (- n) k ltac:(lia)).
    pose proof (Z.mod_pos_bound (- n) k ltac:(lia)). nia.
Qed.

Lemma to_int_id (z : Z) : (0 ≤ z ≤ INT_MAX)%Z → to_int z = z.
Proof.
  unfold to_int, INT_MAX. intros Hz.
  rewrite Z.mod_small by lia. lia.
Qed.

Lemma to_uint64_id (z : Z) : (0 ≤ z ≤ INT_MAX)%Z → to_uint64 z = z.
Proof.
  unfold to_uint64, INT_MAX. intros Hz. apply Z.mod_small. lia.
Qed.

(** With a dirty index that is empty, and a count of the hardware
    threads that [int] holds, there is no thread: the division is by
    zero and [CalculateStateThreadLoad] has no defined result. *)
Lemma CalculateStateThreadLoad_no_thread s :
  entityComponentsDirty s = true →
  size (entityComponents s) = 0%nat →
  (0 ≤ hardware_concurrency ≤ INT_MAX)%Z →
  CalculateStateThreadLoad s = None.
Proof.
  intros Hdirty Hsize Hhc. unfold CalculateStateThreadLoad.
  rewrite Hdirty. cbn [negb]. cbv zeta.
  change (entityComponents (with_entityComponentsDirty false s))
    with (entityComponents s).
  rewrite Hsize. change (Z.of_nat 0) with 0%Z.
  rewrite (to_int_id 0) by (unfold INT_MAX; lia).
  rewrite (to_int_id hardware_concurrency) by exact Hhc.
  rewrite Z.min_l by lia. reflexivity.
Qed.

Lemma CalculateStateThreadLoad_threads s :
  entityComponentsDirty s = true →
  (0 < size (entityComponents s))%nat →
  (Z.of_nat (size (entityComponents s)) ≤ INT_MAX)%Z →
  (0 < hardware_concurrency ≤ INT_MAX)%Z →
  let n := size (entityComponents s) in
  let numThreads := Z.min (Z.of_nat n) hardware_concurrency in
  let componentsPerThread := (- (- Z.of_nat n / numThreads))%Z in
  CalculateStateThreadLoad s
  = Some (with_entityComponentIterators
            (0%nat :: thread_iterators (Z.to_nat numThreads) (Z.of_nat n)
                        componentsPerThread 0 n)
            (log (DbgThreadIterators numThreads componentsPerThread)
               (with_entityComponentsDirty false s))).
Proof.
  intros Hdirty Hpos Hsize Hhc. unfold CalculateStateThreadLoad.
  rewrite Hdirty. cbn [negb]. cbv zeta.
  change (entityComponents (with_entityComponentsDirty false s))
    with (entityComponents s).
  change (entityComponents
            (log _ (with_entityComponentsDirty false s)))
    with (entityComponents s).
  rewrite (to_int_id (Z.of_nat _)) by lia.
  rewrite (to_int_id hardware_concurrency) by lia.
  rewrite to_uint64_id by lia.
  destruct (_ =? 0)%Z eqn:Hzero; [apply Z.eqb_eq in Hzero; lia|].
  reflexivity.
Qed.

Lemma CalculateStateThreadLoad_thread_ranges s :
  entityComponentsDirty s = true →
  (0 < size (entityComponents s))%nat →
  (Z.of_nat (size (entityComponents s)) ≤ INT_MAX)%Z →
  (0 < hardware_concurrency ≤ INT_MAX)%Z →
  ∃ s' its,
    CalculateStateThreadLoad s = Some s'
    ∧ entityComponents s' = entityComponents s
    ∧ entityComponentsDirty s' = false
    ∧ entityComponentIterators s' = 0%nat :: its
    ∧ thread_ranges (size (entityComponents s)) 0 its
    ∧ (0 < length its ≤ Z.to_nat hardware_concurrency)%nat.
Proof.
  intros Hdirty Hpos Hsize Hhc.
  rewrite CalculateStateThreadLoad_threads by done. cbv zeta.
  eexists _, _. split; [reflexivity|]. split; [reflexivity|].
  split; [reflexivity|]. split; [reflexivity|].
  revert Hpos Hsize. generalize (size (entityComponents s)) as n.
  intros n Hpos Hsize.
  set (T := Z.min (Z.of_nat n) hardware_concurrency).
  assert (HT : (0 < T ≤ Z.of_nat n)%Z) by lia.
  set (q := (- Z.of_nat n / T)%Z).
  assert (Hdiv : (T * q ≤ - Z.of_nat n < T * q + T)%Z).
  { subst q. pose proof (Z.div_mod (- Z.of_nat n) T ltac:(lia)).
    pose proof (Z.mod_pos_bound (- Z.of_nat n) T ltac:(lia)). lia. }
  destruct (thread_iterators_ranges n (Z.to_nat T) (Z.of_nat n) (- q) 0)
    as [Hr Hl]; [nia|lia|nia|lia|].
  split; [exact Hr|]. split; [|lia].
  destruct (thread_iterators _ _ _ _ _); [|cbn [length]; lia].
  cbn [thread_ranges] in Hr. lia.
Qed.

Lemma State_functor_CalculateStateThreadLoad s s' ents types full
    (a b : nat) :
  CalculateStateThreadLoad s = Some s' →
  State_functor s' ents types full a b = State_functor s ents types full a b.
Proof.
  unfold CalculateStateThreadLoad.
  destruct (negb _); [by intros [= <-]|].
  cbv zeta. destruct (_ =? 0)%Z; [discriminate|]. by intros [= <-].
Qed.

Lemma State_workers_CalculateStateThreadLoad s s' ents types full
    (its : list nat) state :
  CalculateStateThreadLoad s = Some s' →
  State_workers s' ents types full its state
  = State_workers s ents types full its state.
Proof.
  intros Hload.
  revert state. induction its as [|a its IH]; intros state; [reflexivity|].
  destruct its as [|b its]; [reflexivity|].
  cbn [State_workers] in *.
  rewrite (State_functor_CalculateStateThreadLoad s s') by exact Hload.
  destruct (State_functor s ents types full a b); [|reflexivity].
  cbn [mbind option_bind]. apply IH.
Qed.

(** X23: [CalculateStateThreadLoad], when the index has changed and is
    not empty, and the hardware has a thread, both counts being in the
    range of [int]: it has a result; the iterators start at the first
    entry of the index and cut it into consecutive ranges that end at its
    end, one range for a thread, at least one thread and no more threads
    than the hardware has; the index is then clean, and a second call
    changes nothing. *)
Theorem CalculateStateThreadLoad_ranges s :
  entityComponentsDirty s = true →
  (0 < size (entityComponents s))%nat →
  (Z.of_nat (size (entityComponents s)) ≤ INT_MAX)%Z →
  (0 < hardware_concurrency ≤ INT_MAX)%Z →
  ∃ s',
    CalculateStateThreadLoad s = Some s'
    ∧ (∃ its,
         entityComponentIterators s' = 0%nat :: its
         ∧ thread_ranges (size (entityComponents s)) 0 its
         ∧ (0 < length its ≤ Z.to_nat hardware_concurrency)%nat)
    ∧ entityComponentsDirty s' = false
    ∧ CalculateStateThreadLoad s' = Some s'.
Proof.
  intros Hdirty Hpos Hsize Hhc.
  destruct (CalculateStateThreadLoad_thread_ranges s Hdirty Hpos Hsize Hhc)
    as (s' & its & Hload & _ & Hclean & Hits & Hranges & Hlen).
  exists s'. split; [exact Hload|]. split; [by exists its|].
  split; [exact Hclean|].
  unfold CalculateStateThreadLoad. by rewrite Hclean.
Qed.

(** X24: the map-form [State] on an empty message, when the index has
    changed and is not empty, and the hardware has a thread, both counts
    being in the range of [int]: the threads together give what one
    thread gives that goes over the whole index, a result or none; no
    entity is left out and none is written twice. *)
Theorem State_map_threads s ents types full :
  entityComponentsDirty s = true →
  (0 < size (entityComponents s))%nat →
  (Z.of_nat (size (entityComponents s)) ≤ INT_MAX)%Z →
  (0 < hardware_concurrency ≤ INT_MAX)%Z →
  (State_map s msgs.empty_state_map ents types full).2
  = State_functor s ents types full 0 (size (entityComponents s)).
Proof.
  intros Hdirty Hpos Hsize Hhc.
  destruct (CalculateStateThreadLoad_thread_ranges s Hdirty Hpos Hsize Hhc)
    as (s' & its & Hload & _ & _ & Hits & Hranges & _).
  unfold State_map. rewrite Hload. cbn [snd]. rewrite Hits.
  assert (Hlen : length (map_to_list (entityComponents s)).*1
                 = size (entityComponents s)).
  { by rewrite length_fmap, length_map_to_list. }
  rewrite (State_workers_CalculateStateThreadLoad s s') by exact Hload.
  rewrite State_workers_loop.
  - rewrite State_functor_loop by (rewrite Hlen; lia).
    rewrite Nat.sub_0_r. rewrite <- Hlen, firstn_all. reflexivity.
  - by rewrite Hlen.
  - intros e _. cbn. apply lookup_empty.
Qed.

End threads.

(** * The entities of the changed state *)

Section changed_state.
Context {P V : Type}.
Context `{!BaseComponent P} `{!Factory P} `{!BaseView V} `{!Declarations}.
Implicit Types s : ECM P V.

Lemma AddEntityToMessage_any s msg e types :
  (∀ comps t, entityComponents s !! e = Some comps → t ∈ comps →
              is_Some (ComponentImplementation s e t)) →
  ∃ entityMsg,
    AddEntityToMessage s msg e types = Some (msg ++ [entityMsg])
    ∧ msgs.id entityMsg = e
    ∧ msgs.entity_remove entityMsg
      = bool_decide (e ∈ toRemoveEntities s)
        && bool_decide (is_Some (entityComponents s !! e)).
Proof.
  intros Hstore. destruct (entityComponents s !! e) as [comps|] eqn:Hidx.
  - destruct (AddEntityToMessage_entity s msg e types comps Hidx)
      as (m & Hm & Hid & Hrm); [intros t Ht; by eapply Hstore|].
    exists m. split; [done|]. split; [done|].
    rewrite Hrm, (bool_decide_eq_true_2 (is_Some (Some comps))) by done.
    by rewrite andb_true_r.
  - eexists. split; [unfold AddEntityToMessage; by rewrite Hidx|].
    split; [done|]. cbn [msgs.entity_remove].
    rewrite (bool_decide_eq_false_2 (is_Some None)) by (by intros [? [=]]).
    by rewrite andb_false_r.
Qed.

(** X25: the flat [ChangedState], when the storage has every component of
    the index: one entity message for each new entity, then one for each
    entity to be removed, then one for each entity with modified
    components, an entity that is in two of the sets being written
    twice; the removal flag is set for the entities to be removed that
    have an entry in the index. *)
Theorem ChangedState_entities s :
  storage_complete s = true →
  ∃ stateMsg,
    ChangedState s = Some stateMsg
    ∧ msgs.id <$> stateMsg
      = elements (newlyCreatedEntities s) ++ elements (toRemoveEntities s)
        ++ elements (modifiedComponents s)
    ∧ ∀ m, m ∈ stateMsg →
           msgs.entity_remove m
           = bool_decide (msgs.id m ∈ toRemoveEntities s)
             && bool_decide (is_Some (entityComponents s !! msgs.id m)).
Proof.
  intros Hstore.
  pose proof (λ e comps t, storage_complete_spec s e comps t Hstore) as Hst.
  clear Hstore. rename Hst into Hstore.
  assert (Hloop : ∀ (l : list Entity) (msg : msgs.SerializedState),
    ∃ added,
      foldlM (λ m e, AddEntityToMessage s m e ∅) msg l = Some (msg ++ added)
      ∧ msgs.id <$> added = l
      ∧ ∀ m, m ∈ added →
             msgs.entity_remove m
             = bool_decide (msgs.id m ∈ toRemoveEntities s)
               && bool_decide (is_Some (entityComponents s !! msgs.id m))).
  { induction l as [|e l IH]; intros msg; cbn [foldlM].
    - exists []. rewrite app_nil_r. split; [done|]. split; [done|].
      by intros m ?%elem_of_nil.
    - destruct (AddEntityToMessage_any s msg e ∅) as (m & -> & Hid & Hrm).
      { intros comps t. apply Hstore. }
      cbn [mbind option_bind].
      destruct (IH (msg ++ [m])) as (added & Hrun & Hids & Hrms).
      exists (m :: added). rewrite <- app_assoc in Hrun.
      split; [exact Hrun|]. split; [by rewrite fmap_cons, Hid, Hids|].
      intros m0 [->|Hm0]%elem_of_cons; [by rewrite Hrm, Hid|by apply Hrms]. }
  unfold ChangedState.
  destruct (Hloop (elements (newlyCreatedEntities s)) [])
    as (a1 & -> & Hid1 & Hrm1).
  cbn [mbind option_bind app].
  destruct (Hloop (elements (toRemoveEntities s)) a1)
    as (a2 & -> & Hid2 & Hrm2).
  cbn [mbind option_bind].
  destruct (Hloop (elements (modifiedComponents s)) (a1 ++ a2))
    as (a3 & -> & Hid3 & Hrm3).
  eexists. split; [reflexivity|]. split.
  - by rewrite !fmap_app, Hid1, Hid2, Hid3, app_assoc.
  - intros m [[Hm|Hm]%elem_of_app|Hm]%elem_of_app; auto.
Qed.

(** X26: [SetChanged] takes no type out of the types with periodic changes,
    and no type out of the types with one-time changes: the entity is
    erased from the set of the type, and the set stays, empty or not. *)
Theorem SetChanged_keeps_types s e t c :
  ComponentTypesWithPeriodicChanges s
  ⊆ ComponentTypesWithPeriodicChanges (SetChanged s e t c)
  ∧ (HasOneTimeComponentChanges s = true →
     HasOneTimeComponentChanges (SetChanged s e t c) = true).
Proof.
  assert (Hins : ∀ (m : gmap N (gset N)) k x,
            dom m ⊆ dom (changed_insert m k x)).
  { intros m k x. unfold changed_insert. rewrite dom_insert. set_solver. }
  assert (Hers : ∀ (m : gmap N (gset N)) k x,
            dom m ⊆ dom (changed_erase m k x)).
  { intros m k x. unfold changed_erase.
    destruct (m !! k); [|done]. rewrite dom_insert. set_solver. }
  assert (Hdom : dom (periodicChangedComponents s)
                 ⊆ dom (periodicChangedComponents (SetChanged s e t c))
                 ∧ dom (oneTimeChangedComponents s)
                   ⊆ dom (oneTimeChangedComponents (SetChanged s e t c))).
  { unfold SetChanged. destruct (_ !! e); [|done].
    destruct (negb _); [done|].
    rewrite AddModifiedComponent_setter. destruct c; split; cbn;
      first [apply Hins | apply Hers]. }
  destruct Hdom as [Hper Hone]. split; [exact Hper|].
  unfold HasOneTimeComponentChanges.
  rewrite !negb_true_iff, !bool_decide_eq_false.
  intros Hne Hempty. apply Hne. apply dom_empty_iff_L.
  apply dom_empty_iff_L in Hempty. set_solver.
Qed.

End changed_state.

(** * After all components are set unchanged *)

Section unchanged.
Context {P V : Type}.
Context `{!BaseComponent P} `{!Factory P} `{!BaseView V} `{!Declarations}.
Implicit Types s : ECM P V.

(** X27: after [SetAllComponentsUnchanged] the state of every component is
    [NoChange], there is no one-time change and no type with periodic
    changes; and the map-form [AddEntityToMessage] that is not asked for
    the full state writes nothing for an entity that is not to be
    removed and has no component recorded as removed. *)
Theorem SetAllComponentsUnchanged_quiet s e types msg :
  let s' := SetAllComponentsUnchanged s in
  (∀ t, ComponentState_of s' e t = NoChange)
  ∧ HasOneTimeComponentChanges s' = false
  ∧ ComponentTypesWithPeriodicChanges s' = ∅
  ∧ ((e ∉ toRemoveEntities s) → removedComponents s !! e = None →
     AddEntityToMessage_map s' msg e types false = Some msg).
Proof.
  cbn zeta. split; [|split; [|split]].
  - intros t. unfold ComponentState_of, changed_mem. cbn.
    destruct (_ !! e); [|done]. destruct (negb _); [done|].
    by rewrite !lookup_empty.
  - unfold HasOneTimeComponentChanges. cbn.
    by rewrite bool_decide_eq_true_2.
  - unfold ComponentTypesWithPeriodicChanges. cbn. apply dom_empty_L.
  - intros Hrm Hremoved. unfold AddEntityToMessage_map.
    change (entityComponents (SetAllComponentsUnchanged s))
      with (entityComponents s).
    destruct (entityComponents s !! e) as [comps|]; [|done].
    change (toRemoveEntities (SetAllComponentsUnchanged s))
      with (toRemoveEntities s).
    rewrite bool_decide_eq_false_2 by done. cbv zeta.
    match goal with
    | |- context [foldlM ?f ?a ?l] =>
        assert (Hloop : ∀ l', foldlM f a l' = Some a);
        [|rewrite (Hloop l)]
    end.
    { induction l' as [|t l' IH]; [done|]. cbn [foldlM].
      destruct (negb (bool_decide (t ∈ comps))); [exact IH|].
      cbn [negb]. unfold noChange. cbn. rewrite !lookup_empty.
      cbn [mbind option_bind]. exact IH. }
    cbn [mbind option_bind]. unfold SetRemovedComponentsMsgs_map.
    change (removedComponents (SetAllComponentsUnchanged s))
      with (removedComponents s).
    rewrite Hremoved. by destruct msg.
Qed.

End unchanged.
(** * Scenarios on the instance *)

Section scenarios.
Import example.

Lemma run_reachable (ops : list (Op Component View)) (s s' : Manager) :
  reachable s → run ops s = Some s' → reachable s'.
Proof.
  revert s. induction ops as [|op ops IH]; intros s Hs Hrun.
  - injection Hrun as <-. exact Hs.
  - cbn in Hrun. destruct (exec op s) as [s1|] eqn:Hop; [|discriminate].
    cbn in Hrun. eapply IH; [|exact Hrun].
    eapply reachable_step; eassumption.
Qed.

(** C5, as the claim states it, fails: in the message that the flat
    [AddEntityToMessage] appends for entity 1, the component message of
    the removed component of type 7 has a content that is not the empty
    string. *)
Lemma AddEntityToMessage_removed_content_not_empty :
  ∃ s : Manager,
    run removed_ops fresh = Some s
    ∧ 7 ∈ default ∅ (removedComponents s !! 1)
    ∧ AddEntityToMessage s [] 1 ∅
      = Some [ {| msgs.id := 1; msgs.entity_remove := false;
                  msgs.components :=
                    [ {| msgs.type := 7; msgs.component := " ";
                         msgs.remove := true |} ] |} ]
    ∧ " " ≠ EmptyString.
Proof.
  eexists. split; [vm_compute; reflexivity|].
  split; [apply (bool_decide_unpack _); vm_compute; exact I|].
  split; [vm_compute; reflexivity | discriminate].
Qed.

(** C1 on the code: after [SetChanged] with [PeriodicChange],
    [CreateComponentImplementation] on the same entity and type records
    the one-time change and leaves the periodic one: the pair is in both
    ledgers of a reachable state. *)
Theorem CreateComponentImplementation_keeps_periodic :
  ∃ s : Manager,
    run recreate_ops fresh = Some s
    ∧ reachable s
    ∧ changed_mem (oneTimeChangedComponents s) 7 1 = true
    ∧ changed_mem (periodicChangedComponents s) 7 1 = true.
Proof.
  destruct (run recreate_ops fresh) as [s|] eqn:Hrun;
    [|vm_compute in Hrun; discriminate].
  exists s. split; [reflexivity|].
  split; [exact (run_reachable _ _ _ reachable_init Hrun)|].
  vm_compute in Hrun. injection Hrun as <-.
  split; vm_compute; reflexivity.
Qed.

(** C2 on the code: [RequestRemoveEntity] puts an entity in
    [toRemoveEntities] and leaves it in [modifiedComponents]; the flat
    [ChangedState] then reports the entity twice. *)
Theorem RequestRemoveEntity_keeps_modifiedComponents :
  ∃ s : Manager,
    run modify_then_remove_ops fresh = Some s
    ∧ reachable s
    ∧ bool_decide (1 ∈ toRemoveEntities s) = true
    ∧ bool_decide (1 ∈ modifiedComponents s) = true
    ∧ (map msgs.id <$> ChangedState s) = Some [1; 1].
Proof.
  destruct (run modify_then_remove_ops fresh) as [s|] eqn:Hrun;
    [|vm_compute in Hrun; discriminate].
  exists s. split; [reflexivity|].
  split; [exact (run_reachable _ _ _ reachable_init Hrun)|].
  vm_compute in Hrun. injection Hrun as <-.
  repeat split; vm_compute; reflexivity.
Qed.

(** C3 on the code: [SetParentEntity] leaves the descendant cache as it
    is, and [Descendants] answers from it: after the edge from 1 to 2 is
    added, [Descendants 1] is still [{1}], and the breadth-first sort of
    the graph from 1 visits 1 and 2. *)
Theorem Descendants_stale_after_SetParentEntity :
  ∃ s : Manager,
    run reparent_ops fresh = Some s
    ∧ reachable s
    ∧ elements (Descendants s 1).2 = [1]
    ∧ graph.BreadthFirstSort (entities s) 1 = [1; 2]
    ∧ ParentEntity s 2 = 1.
Proof.
  destruct (run reparent_ops fresh) as [s|] eqn:Hrun;
    [|vm_compute in Hrun; discriminate].
  exists s. split; [reflexivity|].
  split; [exact (run_reachable _ _ _ reachable_init Hrun)|].
  vm_compute in Hrun. injection Hrun as <-.
  repeat split; vm_compute; reflexivity.
Qed.

(** C4 on the code: for a component whose pair is in the periodic set
    and not in the one-time set, the map form of [AddEntityToMessage]
    with [full = false] compares an iterator of the periodic set with
    the end of a one-time set, through [oneTimeIter], which here is the
    end of its map: the call has no defined result, where the claim has
    the component serialized.  With [full = true] the component is
    written. *)
Theorem AddEntityToMessage_map_periodic_undefined :
  ∃ s : Manager,
    run periodic_ops fresh = Some s
    ∧ reachable s
    ∧ EntityHasComponentType s 1 7 = true
    ∧ changed_mem (periodicChangedComponents s) 7 1 = true
    ∧ changed_mem (oneTimeChangedComponents s) 7 1 = false
    ∧ oneTimeChangedComponents s !! 7 = None
    ∧ AddEntityToMessage_map s msgs.empty_state_map 1 ∅ false = None
    ∧ (msgs.entities <$> AddEntityToMessage_map s msgs.empty_state_map 1 ∅ true)
      = Some {[ 1 := {| msgs.map_id := 1; msgs.map_remove := false;
                        msgs.map_components :=
                          {[ 7 := {| msgs.type := 7; msgs.component := "a";
                                     msgs.remove := false |} ]} |} ]}.
Proof.
  destruct (run periodic_ops fresh) as [s|] eqn:Hrun;
    [|vm_compute in Hrun; discriminate].
  exists s. split; [reflexivity|].
  split; [exact (run_reachable _ _ _ reachable_init Hrun)|].
  vm_compute in Hrun. injection Hrun as <-.
  repeat split; vm_compute; reflexivity.
Qed.

(** C8 at entities 1 and 2 of a reachable state. *)
Lemma ParentEntity_SetParentEntity_witness :
  reachable two_entities
  ∧ (1 ≠ kNullEntity)
  ∧ (SetParentEntity two_entities 2 1).2 = true
  ∧ ParentEntity (SetParentEntity two_entities 2 1).1 2 = 1
  ∧ ParentEntity (SetParentEntity two_entities 2 kNullEntity).1 2
    = kNullEntity.
Proof.
  assert (Hr : reachable two_entities).
  { apply (run_reachable [OpCreateEntity; OpCreateEntity] fresh);
      [apply reachable_init | vm_compute; reflexivity]. }
  destruct (ParentEntity_SetParentEntity two_entities 2 1 Hr) as [Hp Hn].
  split; [exact Hr|]. split; [discriminate|].
  split; [vm_compute; reflexivity|].
  split; [apply Hp; [discriminate | vm_compute; reflexivity] | exact Hn].
Defined.

(** C10 at entity 1 of that state: the messages that [ChangedState]
    and [State] produce from the empty message hold entity 2 only. *)
Lemma AddEntityToMessage_map_skips_entity_witness :
  entityComponents lonely !! 1 = None
  ∧ IsNewEntity lonely 1 = true
  ∧ IsMarkedForRemoval lonely 1 = true
  ∧ (∀ msg types full,
       AddEntityToMessage_map lonely msg 1 types full = Some msg)
  ∧ (∃ state',
       ChangedState_map lonely msgs.empty_state_map = Some state'
       ∧ msgs.entities state' !! 1 = None
       ∧ dom (msgs.entities state') = {[2]})
  ∧ (∃ state',
       (State_map lonely msgs.empty_state_map ∅ ∅ true).2 = Some state'
       ∧ msgs.entities state' !! 1 = None
       ∧ dom (msgs.entities state') = {[2]}).
Proof.
  assert (Hidx : entityComponents lonely !! 1 = None)
    by (vm_compute; reflexivity).
  destruct (AddEntityToMessage_map_skips_entity_without_components
              lonely 1 Hidx) as (Hadd & Hchanged & Hstate).
  split; [exact Hidx|].
  split; [vm_compute; reflexivity|].
  split; [vm_compute; reflexivity|].
  split; [exact Hadd|].
  split.
  - destruct (ChangedState_map lonely msgs.empty_state_map)
      as [state'|] eqn:Hrun; [|vm_compute in Hrun; discriminate].
    exists state'. split; [reflexivity|].
    split; [by rewrite (Hchanged _ _ Hrun)|].
    vm_compute in Hrun. injection Hrun as <-. vm_compute. reflexivity.
  - destruct (State_map lonely msgs.empty_state_map ∅ ∅ true).2
      as [state'|] eqn:Hrun; [|vm_compute in Hrun; discriminate].
    exists state'. split; [reflexivity|].
    split; [by rewrite (Hstate _ _ _ _ _ Hrun)|].
    vm_compute in Hrun. injection Hrun as <-. vm_compute. reflexivity.
Defined.

(** The instance keeps the contract of components and factory. *)
#[global] Instance component_laws : ComponentLaws Component.
Proof.
  split.
  - intros t c d. cbn. destruct (t <? 100); [|discriminate].
    by intros [= <-].
  - intros t c [pt pd]. cbn. destruct (t <? 100); [|discriminate].
    by intros [= <-] ->.
  - intros t. cbn. intros ->. by eexists.
  - intros t [pt pd]. cbn. by intros ->.
Qed.


(** Each condition on the state is needed: an entity marked for removal
    is written with its removal flag and not created again; a component
    whose removal is still on record is removed again by the message that
    follows it; a component that writes no byte is skipped. *)
Lemma SetState_State_loses_marked_entity :
  ∃ (S S' : Manager) (stateMsg : msgs.SerializedState),
    run marked_ops fresh = Some S
    ∧ State S ∅ ∅ = Some stateMsg
    ∧ SetState fresh stateMsg = Some S'
    ∧ snapshot_ready S = false
    ∧ HasEntity S 1 = true ∧ HasEntity S' 1 = false.
Proof.
  eexists _, _, _. split; [vm_compute; reflexivity|].
  split; [vm_compute; reflexivity|].
  split; [vm_compute; reflexivity|].
  repeat split; vm_compute; reflexivity.
Qed.

Lemma SetState_State_loses_readded_component :
  ∃ (S S' : Manager) (stateMsg : msgs.SerializedState),
    run readded_ops fresh = Some S
    ∧ State S ∅ ∅ = Some stateMsg
    ∧ SetState fresh stateMsg = Some S'
    ∧ snapshot_ready S = false
    ∧ EntityHasComponentType S 1 7 = true
    ∧ EntityHasComponentType S' 1 7 = false.
Proof.
  eexists _, _, _. split; [vm_compute; reflexivity|].
  split; [vm_compute; reflexivity|].
  split; [vm_compute; reflexivity|].
  repeat split; vm_compute; reflexivity.
Qed.

Lemma SetState_State_loses_silent_component :
  ∃ (S S' : Manager) (stateMsg : msgs.SerializedState),
    run silent_ops fresh = Some S
    ∧ State S ∅ ∅ = Some stateMsg
    ∧ SetState fresh stateMsg = Some S'
    ∧ snapshot_ready S = false
    ∧ EntityHasComponentType S 1 7 = true
    ∧ EntityHasComponentType S' 1 7 = false.
Proof.
  eexists _, _, _. split; [vm_compute; reflexivity|].
  split; [vm_compute; reflexivity|].
  split; [vm_compute; reflexivity|].
  repeat split; vm_compute; reflexivity.
Qed.


Lemma reachable_run (ops : list (Op Component View)) (s : Manager) :
  run ops fresh = Some s → reachable s.
Proof. apply run_reachable, reachable_init. Qed.

(** X5 for a first component of type 7 on the entity of [one_entity]. *)
Lemma CreateComponentImplementation_attached_witness :
  HasEntity one_entity 1 = true
  ∧ entityCompStorage one_entity !! 1 = Some ∅
  ∧ let r := CreateComponentImplementation one_entity 1 7 (data 7 "a") in
    r.2 = bool_decide (is_Some ((∅ : gmap ComponentTypeId (option Component)) !! 7))
    ∧ ComponentImplementation r.1 1 7 = Some (NewFrom 7 (data 7 "a"))
    ∧ EntityHasComponentType r.1 1 7 = true
    ∧ ComponentState_of r.1 1 7 = OneTimeChange
    ∧ HasComponentType r.1 7 = true.
Proof.
  split; [vm_compute; reflexivity|]. split; [vm_compute; reflexivity|].
  apply (CreateComponentImplementation_attached one_entity 1 7 (data 7 "a") ∅);
    vm_compute; reflexivity.
Defined.

(** X8 at entity 2 of [family], whose parent is entity 1. *)
Lemma reachable_single_parent_witness :
  reachable family
  ∧ 1 ∈ graph.AdjacentsTo (entities family) 2
  ∧ ParentEntity family 2 = 1
  ∧ HasEntity family 1 = true ∧ HasEntity family 2 = true.
Proof.
  assert (Hr : reachable family)
    by (apply (reachable_run family_ops); vm_compute; reflexivity).
  assert (Hp : 1 ∈ graph.AdjacentsTo (entities family) 2).
  { apply (bool_decide_unpack _). vm_compute. exact I. }
  split; [exact Hr|]. split; [exact Hp|].
  exact (reachable_single_parent family 2 1 Hr Hp).
Defined.

(** X9 at entity 3 of [family] and a parent that does not exist. *)
Lemma SetParentEntity_refused_witness :
  reachable family
  ∧ ParentEntity family 3 = 2
  ∧ let r := SetParentEntity family 3 9 in
    r.2 = (9 =? kNullEntity) || (HasEntity family 9 && HasEntity family 3)
    ∧ (r.2 = false → ParentEntity r.1 3 = kNullEntity)
    ∧ (∀ e, e ≠ 3 → ParentEntity r.1 e = ParentEntity family e).
Proof.
  assert (Hr : reachable family)
    by (apply (reachable_run family_ops); vm_compute; reflexivity).
  split; [exact Hr|]. split; [vm_compute; reflexivity|].
  exact (SetParentEntity_refused family 3 9 Hr).
Defined.

(** X10 at entity 3 of [family_marked], whose parent is to be removed. *)
Lemma ProcessRemoveEntityRequests_ParentEntity_witness :
  reachable family_marked
  ∧ ParentEntity family_marked 3 = 2
  ∧ IsMarkedForRemoval family_marked 2 = true
  ∧ ParentEntity (ProcessRemoveEntityRequests family_marked) 3
    = if IsMarkedForRemoval family_marked 3
         || IsMarkedForRemoval family_marked (ParentEntity family_marked 3)
      then kNullEntity else ParentEntity family_marked 3.
Proof.
  assert (Hr : reachable family_marked)
    by (apply (reachable_run family_marked_ops); vm_compute; reflexivity).
  split; [exact Hr|]. split; [vm_compute; reflexivity|].
  split; [vm_compute; reflexivity|].
  exact (ProcessRemoveEntityRequests_ParentEntity family_marked 3 Hr).
Defined.

(** X11 at entity 1 of [family]. *)
Lemma Descendants_reached_witness :
  descendantCache family !! 1 = None
  ∧ HasEntity family 1 = true
  ∧ let r := Descendants family 1 in
    (∀ x, x ∈ r.2 ↔ rtc (child_of (entities family)) 1 x)
    ∧ descendantCache r.1 !! 1 = Some r.2
    ∧ Descendants r.1 1 = r.
Proof.
  split; [vm_compute; reflexivity|]. split; [vm_compute; reflexivity|].
  apply (Descendants_reached family 1); vm_compute; reflexivity.
Defined.

Lemma family_edges : graph.edges (entities family) = [(1, 2); (2, 3)].
Proof. vm_compute. reflexivity. Qed.

Lemma family_acyclic (x : Entity) :
  ¬ tc (child_of (entities family)) x x.
Proof.
  assert (Hinc : ∀ a b, tc (child_of (entities family)) a b → a < b).
  { assert (Hedge : ∀ a b, child_of (entities family) a b → a < b).
    { intros a b. unfold child_of. rewrite family_edges.
      intros [[= -> ->]|[[= -> ->]|?%elem_of_nil]%elem_of_cons]%elem_of_cons;
        [lia|lia|done]. }
    induction 1 as [a b Hab|a b c Hab _ IH]; [by apply Hedge|].
    apply Hedge in Hab. lia. }
  intros Hx%Hinc. lia.
Qed.

(** X12 at entity 1 of [family]. *)
Lemma RequestRemoveEntity_recursive_witness :
  reachable family
  ∧ ∃ s', RequestRemoveEntity family 1 true = Some s'
          ∧ (∀ x, x ∈ toRemoveEntities s'
                  ↔ x ∈ toRemoveEntities family
                    ∨ rtc (child_of (entities family)) 1 x)
          ∧ (∀ x, HasEntity s' x = HasEntity family x).
Proof.
  assert (Hr : reachable family)
    by (apply (reachable_run family_ops); vm_compute; reflexivity).
  split; [exact Hr|].
  apply (RequestRemoveEntity_recursive family 1 Hr).
  intros x _. apply family_acyclic.
Defined.

Lemma cycle_edges : graph.edges (entities cycle) = [(1, 2); (2, 1)].
Proof. vm_compute. reflexivity. Qed.

(** X13 at entity 1 of [cycle]. *)
Lemma RequestRemoveEntity_recursive_cycle_witness :
  reachable cycle
  ∧ tc (child_of (entities cycle)) 1 1
  ∧ (∀ fuel set,
       InsertEntityRecursive_fuel fuel (entities cycle) 1 set = None)
  ∧ RequestRemoveEntity cycle 1 true = None.
Proof.
  assert (Hr : reachable cycle)
    by (apply (reachable_run cycle_ops); vm_compute; reflexivity).
  assert (Htc : tc (child_of (entities cycle)) 1 1).
  { apply (tc_l _ 1 2 1); [|apply tc_once]; unfold child_of;
      rewrite cycle_edges; apply (bool_decide_unpack _); vm_compute; exact I. }
  split; [exact Hr|]. split; [exact Htc|].
  exact (RequestRemoveEntity_recursive_cycle cycle 1 1 (rtc_refl _ 1) Htc).
Defined.

(** X14 at entity 1 of [populated]. *)
Lemma reachable_index_entities_witness :
  reachable populated
  ∧ (is_Some (entityComponents populated !! 1) → HasEntity populated 1 = true)
  ∧ (∀ t, EntityHasComponentType populated 1 t
          = bool_decide (t ∈ ComponentTypes_of populated 1))
  ∧ (∀ t, ComponentState_of populated 1 t ≠ NoChange →
          EntityHasComponentType populated 1 t = true).
Proof.
  assert (Hr : reachable populated)
    by (apply (reachable_run populated_ops); vm_compute; reflexivity).
  split; [exact Hr|].
  exact (reachable_index_entities populated 1 Hr).
Defined.

(** X15 for type 7 of [populated] and the removal of all entities. *)
Lemma HasComponentType_stays_witness :
  HasComponentType populated 7 = true
  ∧ ∃ s' : Manager,
      run remove_all_ops populated = Some s'
      ∧ EntityCount s' = 0%nat
      ∧ HasComponentType s' 7 = true.
Proof.
  assert (Ht : HasComponentType populated 7 = true)
    by (vm_compute; reflexivity).
  split; [exact Ht|].
  destruct (run remove_all_ops populated) as [s'|] eqn:Hrun;
    [|vm_compute in Hrun; discriminate].
  exists s'. split; [reflexivity|].
  split; [|exact (HasComponentType_stays remove_all_ops populated s' 7 Hrun Ht)].
  vm_compute in Hrun. injection Hrun as <-. vm_compute. reflexivity.
Defined.

(** X17 at a new manager. *)
Lemma CreateEntity_new_witness :
  (CreateEntity fresh).2 ≠ UINT64_MAX
  ∧ let r := CreateEntity fresh in
    HasEntity r.1 r.2 = true
    ∧ IsNewEntity r.1 r.2 = true
    ∧ HasNewEntities r.1 = true
    ∧ ComponentTypes_of r.1 r.2 = ComponentTypes_of fresh r.2
    ∧ IsNewEntity (ClearNewlyCreatedEntities r.1) r.2 = false
    ∧ HasNewEntities (ClearNewlyCreatedEntities r.1) = false
    ∧ HasEntity (ClearNewlyCreatedEntities r.1) r.2 = true.
Proof.
  assert (Hmax : (CreateEntity fresh).2 ≠ UINT64_MAX)
    by (vm_compute; discriminate).
  split; [exact Hmax|].
  exact (CreateEntity_new fresh Hmax).
Defined.

(** X19 at [populated], asked for entity 2 and every type. *)
Lemma State_entities_witness :
  storage_complete populated = true
  ∧ ∃ stateMsg,
      State populated {[2]} ∅ = Some stateMsg
      ∧ msgs.id <$> stateMsg
        = filter (λ e, ({[2]} : gset Entity) = ∅ ∨ e ∈ ({[2]} : gset Entity))
            (map_to_list (entityComponents populated)).*1
      ∧ NoDup (msgs.id <$> stateMsg)
      ∧ ∀ m, m ∈ stateMsg →
             msgs.entity_remove m
             = bool_decide (msgs.id m ∈ toRemoveEntities populated).
Proof.
  assert (Hst : storage_complete populated = true)
    by (vm_compute; reflexivity).
  split; [exact Hst|].
  exact (State_entities populated {[2]} ∅ Hst).
Defined.

(** X25 at [populated]. *)
Lemma ChangedState_entities_witness :
  storage_complete populated = true
  ∧ ∃ stateMsg,
      ChangedState populated = Some stateMsg
      ∧ msgs.id <$> stateMsg
        = elements (newlyCreatedEntities populated)
          ++ elements (toRemoveEntities populated)
          ++ elements (modifiedComponents populated)
      ∧ ∀ m, m ∈ stateMsg →
             msgs.entity_remove m
             = bool_decide (msgs.id m ∈ toRemoveEntities populated)
               && bool_decide
                    (is_Some (entityComponents populated !! msgs.id m)).
Proof.
  assert (Hst : storage_complete populated = true)
    by (vm_compute; reflexivity).
  split; [exact Hst|].
  exact (ChangedState_entities populated Hst).
Defined.

(** X20 at entity 1 of [lonely], which is to be removed; the message is
    applied to a new manager. *)
Lemma AddEntityToMessage_bare_entity_witness :
  entityComponents lonely !! 1 = None
  ∧ IsMarkedForRemoval lonely 1 = true
  ∧ (1 ≠ kNullId)
  ∧ let entityMsg :=
      {| msgs.id := 1; msgs.entity_remove := false; msgs.components := [] |} in
    AddEntityToMessage lonely [] 1 ∅ = Some ([] ++ [entityMsg])
    ∧ ∃ r', SetState fresh [entityMsg] = Some r'
            ∧ HasEntity r' 1 = true
            ∧ toRemoveEntities r' = toRemoveEntities fresh.
Proof.
  assert (Hidx : entityComponents lonely !! 1 = None)
    by (vm_compute; reflexivity).
  assert (Hne : 1 ≠ kNullId) by discriminate.
  split; [exact Hidx|]. split; [vm_compute; reflexivity|].
  split; [exact Hne|].
  exact (AddEntityToMessage_bare_entity lonely fresh [] 1 ∅ Hidx Hne).
Defined.

(** X21 at the component of type 7 of entity 1 of [populated]. *)
Lemma SetState_map_updates_witness :
  HasEntity populated 1 = true
  ∧ ComponentImplementation populated 1 7 = Some (data 7 "a")
  ∧ let stateMsg :=
      {| msgs.entities :=
           {[ 1 := {| msgs.map_id := 1; msgs.map_remove := false;
                      msgs.map_components :=
                        {[ 7 := {| msgs.type := 7; msgs.component := "z";
                                   msgs.remove := false |} ]} |} ]};
         msgs.has_one_time_component_changes := false |} in
    ∃ s', SetState_map populated stateMsg = Some s'
          ∧ ComponentImplementation s' 1 7
            = Some (Deserialize (data 7 "a") "z")
          ∧ ComponentState_of s' 1 7 = PeriodicChange
          ∧ removedComponents s' = removedComponents populated
          ∧ entityComponents s' = entityComponents populated.
Proof.
  assert (He : HasEntity populated 1 = true) by (vm_compute; reflexivity).
  assert (Hc : ComponentImplementation populated 1 7 = Some (data 7 "a"))
    by (vm_compute; reflexivity).
  split; [exact He|]. split; [exact Hc|].
  apply (SetState_map_updates populated 1 7
           {| msgs.type := 7; msgs.component := "z"; msgs.remove := false |}
           (data 7 "a") {[7; 8]} false He);
    [vm_compute; reflexivity | | exact Hc | reflexivity | reflexivity].
  apply (bool_decide_unpack _). vm_compute. exact I.
Defined.

(** X22 at the component of type 7 of entity 1 of [populated]. *)
Lemma SetState_update_recreates_witness :
  EntityHasComponentType populated 1 7 = true
  ∧ ∃ s' c0,
      SetState populated
        [ {| msgs.id := 1; msgs.entity_remove := false;
             msgs.components :=
               [ {| msgs.type := 7; msgs.component := "z";
                    msgs.remove := false |} ] |} ] = Some s'
      ∧ New 7 = Some c0
      ∧ ComponentImplementation s' 1 7 = Some (Deserialize c0 "z")
      ∧ EntityHasComponentType s' 1 7 = true
      ∧ ComponentState_of s' 1 7 = OneTimeChange
      ∧ 7 ∈ default ∅ (removedComponents s' !! 1).
Proof.
  assert (Hhas : EntityHasComponentType populated 1 7 = true)
    by (vm_compute; reflexivity).
  split; [exact Hhas|].
  eapply (SetState_update_recreates populated 1 7 "z" _ Hhas);
    [vm_compute; reflexivity | reflexivity | discriminate].
Defined.

(** X23 at [populated]: two entities and four hardware threads. *)
Lemma CalculateStateThreadLoad_ranges_witness :
  entityComponentsDirty populated = true
  ∧ (0 < size (entityComponents populated))%nat
  ∧ (Z.of_nat (size (entityComponents populated)) ≤ INT_MAX)%Z
  ∧ (0 < hardware_concurrency ≤ INT_MAX)%Z
  ∧ ∃ s',
      CalculateStateThreadLoad populated = Some s'
      ∧ (∃ its,
           entityComponentIterators s' = 0%nat :: its
           ∧ thread_ranges (size (entityComponents populated)) 0 its
           ∧ (0 < length its ≤ Z.to_nat hardware_concurrency)%nat)
      ∧ entityComponentsDirty s' = false
      ∧ CalculateStateThreadLoad s' = Some s'.
Proof.
  assert (Hd : entityComponentsDirty populated = true)
    by (vm_compute; reflexivity).
  assert (Hpos : (0 < size (entityComponents populated))%nat)
    by (vm_compute; lia).
  assert (Hsize : (Z.of_nat (size (entityComponents populated)) ≤ INT_MAX)%Z)
    by (vm_compute; discriminate).
  assert (Hhc : (0 < hardware_concurrency ≤ INT_MAX)%Z)
    by (vm_compute; split; [reflexivity|discriminate]).
  split; [exact Hd|]. split; [exact Hpos|]. split; [exact Hsize|].
  split; [exact Hhc|].
  exact (CalculateStateThreadLoad_ranges populated Hd Hpos Hsize Hhc).
Defined.

(** X24 at [populated]. *)
Lemma State_map_threads_witness :
  entityComponentsDirty populated = true
  ∧ (0 < size (entityComponents populated))%nat
  ∧ (Z.of_nat (size (entityComponents populated)) ≤ INT_MAX)%Z
  ∧ (0 < hardware_concurrency ≤ INT_MAX)%Z
  ∧ (State_map populated msgs.empty_state_map ∅ ∅ true).2
    = State_functor populated ∅ ∅ true 0 (size (entityComponents populated))
  ∧ is_Some (State_map populated msgs.empty_state_map ∅ ∅ true).2.
Proof.
  assert (Hd : entityComponentsDirty populated = true)
    by (vm_compute; reflexivity).
  assert (Hpos : (0 < size (entityComponents populated))%nat)
    by (vm_compute; lia).
  assert (Hsize : (Z.of_nat (size (entityComponents populated)) ≤ INT_MAX)%Z)
    by (vm_compute; discriminate).
  assert (Hhc : (0 < hardware_concurrency ≤ INT_MAX)%Z)
    by (vm_compute; split; [reflexivity|discriminate]).
  split; [exact Hd|]. split; [exact Hpos|]. split; [exact Hsize|].
  split; [exact Hhc|].
  split; [exact (State_map_threads populated ∅ ∅ true Hd Hpos Hsize Hhc)|].
  vm_compute. by eexists.
Defined.

(** C5, as the code has it, at entity 2 of [populated], which has a
    component of type 7 and had one of type 9. *)
Lemma AddEntityToMessage_removed_components_witness :
  ∃ comps,
    entityComponents populated !! 2 = Some comps
    ∧ (∀ t, t ∈ comps → is_Some (ComponentImplementation populated 2 t))
    ∧ AddEntityToMessage populated [] 2 ∅
      = Some [ {| msgs.id := 2; msgs.entity_remove := false;
                  msgs.components :=
                    [ {| msgs.type := 7; msgs.component := Serialize (data 7 "c");
                         msgs.remove := false |};
                      {| msgs.type := 9; msgs.component := " ";
                         msgs.remove := true |} ] |} ]
    ∧ let present :=
        filter (λ t, t ∈ comps)
               (elements (if bool_decide ((∅ : gset ComponentTypeId) = ∅)
                          then comps else ∅)) in
      let removed :=
        filter (λ t, (∅ : gset ComponentTypeId) = ∅ ∨ t ∈ (∅ : gset ComponentTypeId))
               (elements (default ∅ (removedComponents populated !! 2))) in
      AddEntityToMessage populated [] 2 ∅
      = Some ([] ++
                [ {| msgs.id := 2;
                     msgs.entity_remove :=
                       bool_decide (2 ∈ toRemoveEntities populated);
                     msgs.components :=
                       (component_snapshot populated 2 <$> present)
                       ++ ((λ t, {| msgs.type := t; msgs.component := " ";
                                    msgs.remove := true |}) <$> removed) |} ])
      ∧ NoDup removed
      ∧ (∀ t, t ∈ removed ↔
              t ∈ default ∅ (removedComponents populated !! 2)
              ∧ ((∅ : gset ComponentTypeId) = ∅ ∨ t ∈ (∅ : gset ComponentTypeId)))
      ∧ (∀ t, t ∈ present →
              msgs.remove (component_snapshot populated 2 t) = false).
Proof.
  destruct (entityComponents populated !! 2) as [comps|] eqn:Hidx;
    [|vm_compute in Hidx; discriminate].
  assert (Hstore : ∀ t, t ∈ comps →
                        is_Some (ComponentImplementation populated 2 t)).
  { intros t. apply (storage_complete_spec populated 2 comps t);
      [vm_compute; reflexivity | exact Hidx]. }
  exists comps. split; [reflexivity|]. split; [exact Hstore|].
  split; [vm_compute; reflexivity|].
  exact (proj2 (AddEntityToMessage_removed_components populated [] 2 ∅)
           comps Hidx Hstore).
Defined.

End scenarios.
